(** * The scaffolding script [sbin/scaffold.py], embedded and verified

    The script renames a cloned template repository from "jarvis" to a new
    project name, in place.  This file embeds its functions and proves what
    they do.

    - Python strings are [string]s of 8-bit characters, the UTF-8 bytes
      of the text; [upper], [lower] and [capitalize] act on ASCII letters,
      which is all a validated name holds, and the lower case of a file
      name, which may hold any character, is [lower_utf8].
    - The project directory is a finite tree of named entries ([node]),
      listed in the order [os.walk] reports them; paths are relative to the
      project directory.  A file holds the text [read_text] returns, or
      nothing when reading it as text raises.  Symbolic links and
      permission errors on writing, renaming and deleting are outside the
      model.
    - Effects are explicit: a step takes the tree and gives a [run], the
      trace of its events (prints, reads, writes, renames, removals), how
      it ended (returned, [sys.exit], uncaught exception) and the tree it
      left. *)

From Stdlib Require Import String Ascii List Bool Arith NArith ZArith Lia.
From Stdlib Require Import DecimalString.
Import ListNotations.
Open Scope list_scope.
Open Scope string_scope.

(* ================================================================== *)
(** * Python string operations *)
(* ================================================================== *)

Module Str.

Definition code (c : ascii) : N := N_of_ascii c.

Definition is_lower (c : ascii) : bool := ((97 <=? code c) && (code c <=? 122))%N.
Definition is_upper (c : ascii) : bool := ((65 <=? code c) && (code c <=? 90))%N.
Definition is_digit (c : ascii) : bool := ((48 <=? code c) && (code c <=? 57))%N.

(** [c.upper()] and [c.lower()] on one ASCII character. *)
Definition upper_char (c : ascii) : ascii :=
  if is_lower c then ascii_of_N (code c - 32) else c.
Definition lower_char (c : ascii) : ascii :=
  if is_upper c then ascii_of_N (code c + 32) else c.

Fixpoint map (f : ascii -> ascii) (s : string) : string :=
  match s with
  | EmptyString => EmptyString
  | String c s' => String (f c) (map f s')
  end.

(** [s.upper()], [s.lower()]. *)
Definition upper (s : string) : string := map upper_char s.
Definition lower (s : string) : string := map lower_char s.

(** [s.capitalize()]: first character upper-cased, the rest lower-cased. *)
Definition capitalize (s : string) : string :=
  match s with
  | EmptyString => EmptyString
  | String c s' => String (upper_char c) (lower s')
  end.

(** The Kelvin sign U+212A, as its three UTF-8 bytes. *)
Definition kelvin : string :=
  String "226"%char (String "132"%char (String "170"%char EmptyString)).

(** [s.lower()] on a string of any characters, given as its UTF-8 bytes, as
    far as a comparison with ASCII text can tell.  The ASCII capitals are
    lowered, and the Kelvin sign, the one other character whose lower case
    is an ASCII letter, becomes [k].  Every other character keeps its
    bytes: its lower case holds a character outside ASCII as well
    (that of U+0130 is [i] followed by U+0307).  [skip] counts the bytes
    of a Kelvin sign that are still to be dropped. *)
Fixpoint lower_go (skip : nat) (s : string) : string :=
  match s with
  | EmptyString => EmptyString
  | String c s' =>
      match skip with
      | S k => lower_go k s'
      | O =>
          if prefix kelvin s
          then String "k"%char (lower_go 2 s')
          else String (lower_char c) (lower_go 0 s')
      end
  end.

Definition lower_utf8 (s : string) : string := lower_go 0 s.

(** [w in s]: [w] occurs in [s] as a contiguous substring. *)
Fixpoint contains (w s : string) : bool :=
  prefix w s ||
  match s with
  | EmptyString => false
  | String _ s' => contains w s'
  end.

(** [s.replace(old, new)]: every non-overlapping occurrence of [old], found
    scanning from the left, is replaced by [new].  [skip] counts the
    characters of a matched occurrence that are still to be dropped.  For an
    empty [old] Python inserts [new] before every character and at the
    end. *)
Fixpoint replace_go (old new : string) (skip : nat) (s : string) : string :=
  match s with
  | EmptyString => EmptyString
  | String c s' =>
      match skip with
      | S k => replace_go old new k s'
      | O =>
          if prefix old s
          then new ++ replace_go old new (String.length old - 1) s'
          else String c (replace_go old new 0 s')
      end
  end.

Fixpoint intersperse (new s : string) : string :=
  match s with
  | EmptyString => new
  | String c s' => new ++ String c (intersperse new s')
  end.

Definition replace (old new s : string) : string :=
  match old with
  | EmptyString => intersperse new s
  | _ => replace_go old new 0 s
  end.

(** [s.split(sep)] for a one-character separator: the pieces between the
    separators, empty pieces included; never an empty list. *)
Fixpoint split (sep : ascii) (s : string) : list string :=
  match s with
  | EmptyString => [EmptyString]
  | String c s' =>
      if Ascii.eqb c sep then EmptyString :: split sep s'
      else match split sep s' with
           | [] => [String c EmptyString]
           | p :: ps => String c p :: ps
           end
  end.

(** [sep.join(parts)]. *)
Definition join (sep : string) (parts : list string) : string :=
  String.concat sep parts.

(** [str(n)] for an integer. *)
Definition of_Z (n : Z) : string := NilZero.string_of_int (Z.to_int n).

End Str.

(* ================================================================== *)
(** * Traces and outcomes *)
(* ================================================================== *)

(** A path relative to the project directory, as its components. *)
Definition path := list string.

(** What the script does to the outside world, in order. *)
Inductive event : Type :=
| EPrint (line : string)
| ERead (p : path)
| EWrite (p : path) (text : string)
| ERename (old new : path)
| ERemove (p : path).

(** How a piece of the script ends: it returns, it calls [sys.exit], or an
    exception propagates uncaught. *)
Inductive outcome (A : Type) : Type :=
| Returned (a : A)
| Exited (status : Z)
| Raised (exn : string).
Arguments Returned {A} a.
Arguments Exited {A} status.
Arguments Raised {A} exn.

(* ================================================================== *)
(** * Name derivation *)
(* ================================================================== *)

(** The states of the matcher for [^[a-z][a-z0-9]*(-[a-z0-9]+)*$], after the
    first character: inside a segment, or just after a hyphen. *)
Inductive re_state : Type := InSegment | AfterHyphen.

Definition is_seg_char (c : ascii) : bool := Str.is_lower c || Str.is_digit c.

Definition newline : ascii := "010"%char.
Definition hyphen : ascii := "-"%char.

(** [re.match] semantics: [$] matches at the end of the string and also
    just before a newline that is the last character. *)
Fixpoint re_tail (st : re_state) (s : string) : bool :=
  match s with
  | EmptyString => match st with InSegment => true | AfterHyphen => false end
  | String c s' =>
      if is_seg_char c then re_tail InSegment s'
      else match st with
           | InSegment =>
               if Ascii.eqb c hyphen then re_tail AfterHyphen s'
               else Ascii.eqb c newline && String.eqb s' EmptyString
           | AfterHyphen => false
           end
  end.

(** [re.match(r"^[a-z][a-z0-9]*(-[a-z0-9]+)*$", name)] as a truth value. *)
Definition re_match (name : string) : bool :=
  match name with
  | EmptyString => false
  | String c s' => Str.is_lower c && re_tail InSegment s'
  end.

Record NameVariants : Type := mkNames {
  name : string;
  repo_name : string;
  pypi_name : string;
  package_name : string;
  snake_name : string;
  pascal_name : string;
  display_name : string
}.

Definition name_error (name : string) : string :=
  "Error: name '" ++ name ++
  "' must be lowercase with hyphens (e.g., 'kbe-pay', 'my-app')".

(** The dictionary built after validation. *)
Definition variants (name : string) : NameVariants :=
  let snake := Str.replace "-" "_" name in
  let parts := Str.split hyphen name in
  let pascal := Str.join "" (List.map Str.capitalize parts) in
  let display := Str.join " " (List.map Str.capitalize parts) in
  {| name := name;
     repo_name := "autobots-" ++ name;
     pypi_name := "autobots-" ++ name;
     package_name := "autobots_" ++ snake;
     snake_name := snake;
     pascal_name := pascal;
     display_name := display |}.

(** [derive_names]: what it prints and how it ends.  It has no access to
    the file tree. *)
Definition derive_names (name : string) : list event * outcome NameVariants :=
  if negb (re_match name)
  then ([EPrint (name_error name)], Exited 1)
  else ([], Returned (variants name)).

(* ================================================================== *)
(** * The replacement table *)
(* ================================================================== *)

Definition template_token : string := "jarvis".

(** [build_replacements]: ordered (old, new) pairs, most specific first. *)
Definition build_replacements (names : NameVariants) : list (string * string) :=
  let sn := snake_name names in
  let upper_sn := Str.upper sn in
  let pkg := package_name names in
  let pascal := pascal_name names in
  let display := display_name names in
  let repo := repo_name names in
  [ ("autobots-agents-jarvis", repo);
    ("autobots_agents_jarvis", pkg);
    ("JarvisSettings", pascal ++ "Settings");
    ("get_jarvis_settings", "get_" ++ sn ++ "_settings");
    ("init_jarvis_settings", "init_" ++ sn ++ "_settings");
    ("register_jarvis_tools", "register_" ++ sn ++ "_tools");
    ("_get_jarvis_batch_agents", "_get_" ++ sn ++ "_batch_agents");
    ("jarvis_registered", sn ++ "_registered");
    ("jarvis_batch", sn ++ "_batch");
    ("jarvis_chat", sn ++ "_chat");
    ("jarvis-chat", sn ++ "-chat");
    ("jarvis_tools", sn ++ "_tools");
    ("jarvis-invoke-demo", sn ++ "-invoke-demo");
    ("run_jarvis", "run_" ++ sn);
    ("jarvis_ui", sn ++ "_ui");
    ("JARVIS", upper_sn);
    ("Jarvis", display);
    ("jarvis", sn) ].

(** [apply_replacements]: the pairs are applied in order, each one to the
    result of the previous ones. *)
Fixpoint apply_replacements (content : string)
    (replacements : list (string * string)) : string :=
  match replacements with
  | [] => content
  | (old, new) :: rest => apply_replacements (Str.replace old new content) rest
  end.

(* ================================================================== *)
(** * Constants of the script *)
(* ================================================================== *)

Definition mem (x : string) (l : list string) : bool := existsb (String.eqb x) l.

Definition SKIP_DIRS : list string :=
  [".git"; ".venv"; "__pycache__"; "node_modules"].

Definition BINARY_EXTENSIONS : list string :=
  [".png"; ".jpg"; ".jpeg"; ".gif"; ".ico"; ".bmp"; ".svg"; ".woff"; ".woff2";
   ".ttf"; ".eot"; ".pyc"; ".pyo"; ".so"; ".dylib"; ".zip"; ".tar"; ".gz";
   ".bz2"; ".xz"; ".pdf"; ".drawio"; ".lock"].

Definition ARTIFACTS_TO_CLEAN : list path :=
  [[".coverage"]; ["coverage.xml"]; ["htmlcov"]; [".pytest_cache"];
   [".ruff_cache"]; ["poetry.lock"]].

Definition PATHS_TO_REMOVE : list path :=
  [["src"; "autobots_agents_jarvis"; "domains"; "customer_support"];
   ["src"; "autobots_agents_jarvis"; "domains"; "sales"];
   ["agent_configs"; "customer-support"];
   ["agent_configs"; "sales"];
   ["sbin"; "run_customer_support.sh"];
   ["sbin"; "run_sales.sh"];
   ["sbin"; "run_all_domains.sh"];
   ["tests"; "unit"; "domains"];
   ["tests"; "sanity"]].

(** [Path.suffix] of a file name: the part from the last dot on, when that
    dot is neither the first nor the last character; empty otherwise. *)
Fixpoint from_last_dot (s : string) : option string :=
  match s with
  | EmptyString => None
  | String c s' =>
      match from_last_dot s' with
      | Some t => Some t
      | None => if Ascii.eqb c "."%char then Some s else None
      end
  end.

Definition suffix (filename : string) : string :=
  match filename with
  | EmptyString => EmptyString
  | String _ rest =>
      match from_last_dot rest with
      | Some t => if Nat.eqb (String.length t) 1 then EmptyString else t
      | None => EmptyString
      end
  end.

(** [is_binary]: by extension only, compared in lower case.  The name may
    hold any character, so the lower case is Python's on Unicode text. *)
Definition is_binary (filename : string) : bool :=
  mem (Str.lower_utf8 (suffix filename)) BINARY_EXTENSIONS.

Definition show_path (p : path) : string := Str.join "/" p.

(* ================================================================== *)
(** * The project directory *)
(* ================================================================== *)

(** A file holds its text as [read_text] returns it, or [None] when reading
    it as UTF-8 text raises ([UnicodeDecodeError], [PermissionError]).  A
    directory lists its entries in the order [os.walk] reports them. *)
#[warnings="-register-all"]
Inductive node : Type :=
| File (text : option string)
| Dir (entries : list (string * node)).

Definition entry : Type := (string * node)%type.

Definition is_dir_node (n : node) : bool :=
  match n with Dir _ => true | File _ => false end.

Fixpoint find_entry (x : string) (es : list entry) : option node :=
  match es with
  | [] => None
  | (y, n) :: es' => if String.eqb x y then Some n else find_entry x es'
  end.

(** The node a relative path denotes, if any. *)
Fixpoint lookup (p : path) (n : node) : option node :=
  match p with
  | [] => Some n
  | x :: p' =>
      match n with
      | File _ => None
      | Dir es =>
          match find_entry x es with
          | Some c => lookup p' c
          | None => None
          end
      end
  end.

Definition exists_ (p : path) (t : node) : bool :=
  match lookup p t with Some _ => true | None => false end.

Definition is_dir (p : path) (t : node) : bool :=
  match lookup p t with Some (Dir _) => true | _ => false end.

Definition remove_entry (x : string) (es : list entry) : list entry :=
  filter (fun e => negb (String.eqb x (fst e))) es.

(** Replace the entry named [x] by [f] of it, in place. *)
Fixpoint update_entry (x : string) (f : node -> node) (es : list entry)
  : list entry :=
  match es with
  | [] => []
  | (y, n) :: es' =>
      if String.eqb x y then (y, f n) :: es'
      else (y, n) :: update_entry x f es'
  end.

(** Bind the name [x] to [n]: an existing entry is replaced where it
    stands, a new one is listed last. *)
Definition set_entry (x : string) (n : node) (es : list entry) : list entry :=
  match find_entry x es with
  | Some _ => update_entry x (fun _ => n) es
  | None => (es ++ [(x, n)])%list
  end.

(** [unlink] / [shutil.rmtree]: the entry at [p] disappears with all below
    it; nothing happens when [p] does not exist. *)
Fixpoint remove (p : path) (t : node) {struct p} : node :=
  match p with
  | [] => t
  | [x] =>
      match t with
      | Dir es => Dir (remove_entry x es)
      | File _ => t
      end
  | x :: p' =>
      match t with
      | Dir es => Dir (update_entry x (remove p') es)
      | File _ => t
      end
  end.

(** The node [n] is placed at [p], in a directory that exists. *)
Fixpoint put (p : path) (n : node) (t : node) {struct p} : node :=
  match p with
  | [] => n
  | [x] =>
      match t with
      | Dir es => Dir (set_entry x n es)
      | File _ => t
      end
  | x :: p' =>
      match t with
      | Dir es => Dir (update_entry x (put p' n) es)
      | File _ => t
      end
  end.

Fixpoint split_last (p : path) : option (path * string) :=
  match p with
  | [] => None
  | [x] => Some ([], x)
  | x :: p' =>
      match split_last p' with
      | Some (d, y) => Some (x :: d, y)
      | None => None
      end
  end.

(** Induction on trees that reaches the entries of a directory. *)
Fixpoint node_induction (P : node -> Prop)
    (HF : forall text, P (File text))
    (HD : forall es, Forall (fun e => P (snd e)) es -> P (Dir es))
    (n : node) {struct n} : P n :=
  match n with
  | File text => HF text
  | Dir es =>
      HD es ((fix go (l : list entry) : Forall (fun e => P (snd e)) l :=
                match l with
                | [] => Forall_nil _
                | e :: l' =>
                    Forall_cons e (node_induction P HF HD (snd e)) (go l')
                end) es)
  end.

(* ================================================================== *)
(** * Running the script: trace, outcome and tree *)
(* ================================================================== *)

Record run (A : Type) : Type := mkRun {
  trace : list event;
  ending : outcome A;
  tree : node
}.
Arguments mkRun {A} trace ending tree.
Arguments trace {A} r.
Arguments ending {A} r.
Arguments tree {A} r.

(** A piece of the script: from the tree it finds to what it did. *)
Definition M (A : Type) : Type := node -> run A.

Definition ret {A} (a : A) : M A := fun t => mkRun [] (Returned a) t.

Definition bind {A B} (m : M A) (k : A -> M B) : M B := fun t =>
  let r := m t in
  match ending r with
  | Returned a =>
      let r' := k a (tree r) in
      mkRun (trace r ++ trace r')%list (ending r') (tree r')
  | Exited status => mkRun (trace r) (Exited status) (tree r)
  | Raised exn => mkRun (trace r) (Raised exn) (tree r)
  end.

Notation "x <- m ;; k" := (bind m (fun x => k))
  (at level 61, m at next level, right associativity).
Notation "m ;; k" := (bind m (fun _ => k))
  (at level 61, right associativity).

Definition emit (e : event) : M unit := fun t => mkRun [e] (Returned tt) t.
Definition print (line : string) : M unit := emit (EPrint line).
Definition sys_exit {A} (status : Z) : M A := fun t => mkRun [] (Exited status) t.
Definition raise {A} (exn : string) : M A := fun t => mkRun [] (Raised exn) t.
Definition get_tree : M node := fun t => mkRun [] (Returned t) t.
Definition modify (f : node -> node) : M unit :=
  fun t => mkRun [] (Returned tt) (f t).
Definition when (b : bool) (m : M unit) : M unit := if b then m else ret tt.

Fixpoint for_each {A} (f : A -> M unit) (l : list A) : M unit :=
  match l with
  | [] => ret tt
  | x :: l' => f x ;; for_each f l'
  end.

(** A step of the script that touches nothing is lifted from its trace
    and outcome. *)
Definition lift {A} (io : list event * outcome A) : M A :=
  fun t => mkRun (fst io) (snd io) t.

(** ** File operations *)

(** [Path.read_text]: raises on a directory, a missing file, or a file
    that cannot be read as text. *)
Definition read_text (p : path) : M string := fun t =>
  match lookup p t with
  | Some (File (Some text)) => mkRun [ERead p] (Returned text) t
  | Some (File None) => mkRun [ERead p] (Raised "UnicodeDecodeError") t
  | Some (Dir _) => mkRun [ERead p] (Raised "IsADirectoryError") t
  | None => mkRun [ERead p] (Raised "FileNotFoundError") t
  end.

(** [Path.write_text] on a file that exists. *)
Definition write_text (p : path) (text : string) : M unit :=
  emit (EWrite p text) ;; modify (put p (File (Some text))).

(** [Path.unlink] / [shutil.rmtree] on a target known to exist. *)
Definition delete (p : path) : M unit :=
  emit (ERemove p) ;; modify (remove p).

Fixpoint is_prefix (p q : path) : bool :=
  match p, q with
  | [], _ => true
  | x :: p', y :: q' => String.eqb x y && is_prefix p' q'
  | _ :: _, [] => false
  end.

Definition path_eqb (p q : path) : bool := is_prefix p q && is_prefix q p.

Definition parent (p : path) : path := removelast p.

(** [Path.rename] (POSIX [rename(2)]): the source must exist; an existing
    target is replaced when it is a file replaced by a file or an empty
    directory replaced by a directory; everything else raises. *)
Definition rename (old new : path) : M unit := fun t =>
  match lookup old t with
  | None => raise "FileNotFoundError" t
  | Some src =>
      if path_eqb old new then emit (ERename old new) t
      else if is_prefix old new then raise "OSError" t
      else if negb (is_dir (parent new) t) then raise "FileNotFoundError" t
      else
        let move := emit (ERename old new) ;;
                    modify (fun t0 => put new src (remove old t0)) in
        match new, lookup new t, src with
        | [], _, _ => raise "OSError" t
        | _, None, _ => move t
        | _, Some (File _), File _ => move t
        | _, Some (File _), Dir _ => raise "NotADirectoryError" t
        | _, Some (Dir _), File _ => raise "IsADirectoryError" t
        | _, Some (Dir []), Dir _ => move t
        | _, Some (Dir (_ :: _)), Dir _ => raise "OSError" t
        end
  end.

(* ================================================================== *)
(** * Steps 1 and 2: artifacts and demo content *)
(* ================================================================== *)

Definition clean_one (dry_run : bool) (rel_path : path) : M unit :=
  t <- get_tree ;;
  if negb (exists_ rel_path t) then ret tt
  else if dry_run then print ("[DRY RUN] Would clean: " ++ show_path rel_path)
  else if is_dir rel_path t then
    delete rel_path ;; print ("Cleaned: " ++ show_path rel_path ++ "/")
  else
    delete rel_path ;; print ("Cleaned: " ++ show_path rel_path).

Definition clean_artifacts (dry_run : bool) : M unit :=
  for_each (clean_one dry_run) ARTIFACTS_TO_CLEAN.

Definition remove_one (dry_run : bool) (rel_path : path) : M unit :=
  t <- get_tree ;;
  if negb (exists_ rel_path t) then ret tt
  else if dry_run then print ("[DRY RUN] Would remove: " ++ show_path rel_path)
  else if is_dir rel_path t then
    delete rel_path ;; print ("Removed directory: " ++ show_path rel_path)
  else
    delete rel_path ;; print ("Removed file: " ++ show_path rel_path).

Definition remove_demo_content (dry_run : bool) : M unit :=
  for_each (remove_one dry_run) PATHS_TO_REMOVE.

(* ================================================================== *)
(** * Step 3: content replacement *)
(* ================================================================== *)

Definition dry_run_lines (rel : path) (content : string)
    (replacements : list (string * string)) : list event :=
  List.map
    (fun r => EPrint ("[DRY RUN] " ++ show_path rel ++ ": '" ++ fst r ++
                      "' -> '" ++ snd r ++ "'"))
    (filter (fun r => Str.contains (fst r) content) replacements).

(** The body of the loop over [files] for one file: what happens and the
    text the file holds afterwards. *)
Definition rewrite_file (replacements : list (string * string))
    (dry_run : bool) (filepath : path) (filename : string)
    (text : option string) : list event * option string :=
  if is_binary filename then ([], text)
  else
    match text with
    | None => ([ERead filepath], text)
    | Some content =>
        let new_content := apply_replacements content replacements in
        if negb (String.eqb new_content content) then
          if dry_run
          then (ERead filepath :: dry_run_lines filepath content replacements,
                text)
          else ([ERead filepath; EWrite filepath new_content;
                 EPrint ("Updated: " ++ show_path filepath)],
                Some new_content)
        else ([ERead filepath], text)
    end.

(** What one entry of a directory contributes to the walk: the events of
    the loop over the directory's files, the events of the later visit of
    the sub-directory, and the entry afterwards. *)
Record visited : Type := mkVisited {
  file_events : list event;
  dir_events : list event;
  after : entry
}.

(** [os.walk] top-down from the directory [root]: its files first, then
    its sub-directories in order, those named in [SKIP_DIRS] pruned. *)
Fixpoint walk_replace (replacements : list (string * string))
    (dry_run : bool) (root : path) (n : node) {struct n} : list event * node :=
  match n with
  | File _ => ([], n)
  | Dir es =>
      let vs :=
        List.map
          (fun e : entry =>
             let (nm, c) := e in
             match c with
             | File text =>
                 let r := rewrite_file replacements dry_run
                            (root ++ [nm])%list nm text in
                 mkVisited (fst r) [] (nm, File (snd r))
             | Dir _ =>
                 if mem nm SKIP_DIRS then mkVisited [] [] (nm, c)
                 else
                   let r := walk_replace replacements dry_run
                              (root ++ [nm])%list c in
                   mkVisited [] (fst r) (nm, snd r)
             end) es in
      ((List.concat (List.map file_events vs) ++
        List.concat (List.map dir_events vs))%list,
       Dir (List.map after vs))
  end.

Definition replace_in_files (replacements : list (string * string))
    (dry_run : bool) : M unit := fun t =>
  let r := walk_replace replacements dry_run [] t in
  mkRun (fst r) (Returned tt) (snd r).

(* ================================================================== *)
(** * Steps 4 and 5: renaming paths *)
(* ================================================================== *)

(** A computed rename: the old path and the new one; the new path is
    [None] when it lies outside the project directory (the project
    directory itself matching a directory rule). *)
Definition rename_item : Type := (path * option path)%type.

Definition protected (root : path) : bool :=
  existsb (fun part => mem part SKIP_DIRS) root.

(** The sibling of [root] called [x], when [root] is not the project
    directory itself. *)
Definition sibling (root : path) (x : string) : option path :=
  match split_last root with
  | Some (d, _) => Some (d ++ [x])%list
  | None => None
  end.

Definition file_renames (sn : string) (root : path) (es : list entry)
  : list rename_item :=
  flat_map
    (fun e : entry =>
       match snd e with
       | File _ =>
           if Str.contains template_token (fst e)
           then [((root ++ [fst e])%list,
                  Some (root ++ [Str.replace template_token sn (fst e)])%list)]
           else []
       | Dir _ => []
       end) es.

Definition dir_rename (sn pkg : string) (root : path)
    (parent_name dir_name : string) : list rename_item :=
  if String.eqb dir_name "autobots_agents_jarvis"
  then [(root, sibling root pkg)]
  else if String.eqb dir_name "jarvis" &&
          mem parent_name ["domains"; "agent_configs"]
  then [(root, sibling root sn)]
  else [].

(** [os.walk(topdown=False)]: every sub-directory is visited before the
    directory itself; nothing is collected at a directory with a protected
    component in its relative path. *)
Fixpoint collect (sn pkg : string) (root : path)
    (parent_name dir_name : string) (n : node) {struct n} : list rename_item :=
  match n with
  | File _ => []
  | Dir es =>
      (List.concat
         (List.map
            (fun e : entry =>
               let (nm, c) := e in
               collect sn pkg (root ++ [nm])%list dir_name nm c) es) ++
       (if protected root then []
        else file_renames sn root es ++
             dir_rename sn pkg root parent_name dir_name))%list
  end.

(** Where the project directory lives: its own name and its parent's, and
    the script's directory and file name below it. *)
Record Env : Type := mkEnv {
  root_name : string;
  root_parent_name : string;
  script_dir : string;
  script_file : string
}.

Definition paths_to_rename (env : Env) (names : NameVariants) (t : node)
  : list rename_item :=
  collect (snake_name names) (package_name names) []
          (root_parent_name env) (root_name env) t.

(** The body of the second loop. *)
Definition execute_rename (dry_run : bool) (item : rename_item) : M unit :=
  match snd item with
  | None => raise "ValueError"
  | Some new_path =>
      if dry_run
      then print ("[DRY RUN] Rename: " ++ show_path (fst item) ++ " -> " ++
                  show_path new_path)
      else
        t <- get_tree ;;
        if exists_ (fst item) t then
          rename (fst item) new_path ;;
          print ("Renamed: " ++ show_path (fst item) ++ " -> " ++
                 show_path new_path)
        else ret tt
  end.

Definition execute_renames (dry_run : bool) (items : list rename_item)
  : M unit :=
  for_each (execute_rename dry_run) items.

Definition rename_paths (env : Env) (names : NameVariants) (dry_run : bool)
  : M unit :=
  t <- get_tree ;;
  execute_renames dry_run (paths_to_rename env names t).

(* ================================================================== *)
(** * Step 6: post-processing overrides *)
(* ================================================================== *)

Definition DEFAULT_PORT : Z := 1337.

(** A command-line option holding a string is taken when it is given and
    not empty. *)
Definition truthy (o : option string) : option string :=
  match o with
  | Some EmptyString => None
  | _ => o
  end.

(** Read, substitute, write back: always writes. *)
Definition rewrite_literal (p : path) (old new : string) : M unit :=
  content <- read_text p ;;
  write_text p (Str.replace old new content).

Definition update_description (names : NameVariants) (description : string)
  : M unit :=
  let pyproject := ["pyproject.toml"] in
  t <- get_tree ;;
  if exists_ pyproject t then
    rewrite_literal pyproject
      (display_name names ++ " - Multi-agent AI Assistant Demo") description ;;
    print "Updated description in pyproject.toml"
  else ret tt.

(** [project_dir.rglob("settings.py")]: every path below [root] whose last
    component is [settings.py], a directory's own before its
    sub-directories'. *)
Fixpoint rglob (pattern : string) (root : path) (n : node) {struct n}
  : list path :=
  match n with
  | File _ => []
  | Dir es =>
      ((match find_entry pattern es with
        | Some _ => [(root ++ [pattern])%list]
        | None => []
        end) ++
       List.concat
         (List.map
            (fun e : entry =>
               let (nm, c) := e in rglob pattern (root ++ [nm])%list c) es))%list
  end.

Definition update_port (names : NameVariants) (port : Z) : M unit :=
  let makefile := ["Makefile"] in
  t <- get_tree ;;
  when (exists_ makefile t)
    (rewrite_literal makefile "CHAINLIT_PORT = 1337"
       ("CHAINLIT_PORT = " ++ Str.of_Z port)) ;;
  t1 <- get_tree ;;
  for_each
    (fun settings_file =>
       rewrite_literal settings_file "default=1337"
         ("default=" ++ Str.of_Z port))
    (rglob "settings.py" [] t1) ;;
  let run_script := ["sbin"; "run_" ++ snake_name names ++ ".sh"] in
  t2 <- get_tree ;;
  when (exists_ run_script t2)
    (rewrite_literal run_script "PORT:-1337" ("PORT:-" ++ Str.of_Z port)) ;;
  print ("Updated port to " ++ Str.of_Z port).

(* ================================================================== *)
(** * The whole script *)
(* ================================================================== *)

Record Args : Type := mkArgs {
  arg_name : string;
  arg_display_name : option string;
  arg_description : option string;
  arg_port : Z;
  arg_dry_run : bool
}.

Definition with_display (names : NameVariants) (display : string)
  : NameVariants :=
  {| name := name names;
     repo_name := repo_name names;
     pypi_name := pypi_name names;
     package_name := package_name names;
     snake_name := snake_name names;
     pascal_name := pascal_name names;
     display_name := display |}.

Definition template_dir : path := ["src"; "autobots_agents_jarvis"].

Definition template_error : string :=
  "Error: scaffold.py must be run from a repo cloned from the autobots-agents-jarvis template.".

Definition banner (args : Args) (names : NameVariants) : M unit :=
  print ("Scaffolding project: " ++ repo_name names) ;;
  print ("  Package:  " ++ package_name names) ;;
  print ("  Display:  " ++ display_name names) ;;
  print ("  Domain:   " ++ snake_name names) ;;
  match truthy (arg_description args) with
  | Some d => print ("  Desc:     " ++ d)
  | None => ret tt
  end ;;
  when (negb (Z.eqb (arg_port args) DEFAULT_PORT))
    (print ("  Port:     " ++ Str.of_Z (arg_port args))) ;;
  print "".

Definition post_process (args : Args) (names : NameVariants) : M unit :=
  match truthy (arg_description args) with
  | Some d => update_description names d
  | None => ret tt
  end ;;
  when (negb (Z.eqb (arg_port args) DEFAULT_PORT))
    (update_port names (arg_port args)).

(** [script_path.unlink()]. *)
Definition self_delete (env : Env) : M unit :=
  let script_path := [script_dir env; script_file env] in
  t <- get_tree ;;
  match lookup script_path t with
  | Some (File _) => delete script_path
  | Some (Dir _) => raise "IsADirectoryError"
  | None => raise "FileNotFoundError"
  end.

Definition closing : M unit :=
  print "" ;;
  print "Done! Your project is ready." ;;
  print "" ;;
  print "Next steps:" ;;
  print "  cp .env.example .env" ;;
  print "  # Edit .env with your API keys" ;;
  print "  make install-dev" ;;
  print "  make all-checks" ;;
  print "  make chainlit-dev".

Definition scaffold (env : Env) (args : Args) : M unit :=
  derived <- lift (derive_names (arg_name args)) ;;
  let names :=
    match truthy (arg_display_name args) with
    | Some d => with_display derived d
    | None => derived
    end in
  t <- get_tree ;;
  if negb (is_dir template_dir t)
  then print template_error ;; sys_exit 1
  else
    let dry_run := arg_dry_run args in
    banner args names ;;
    clean_artifacts dry_run ;;
    remove_demo_content dry_run ;;
    replace_in_files (build_replacements names) dry_run ;;
    rename_paths env names dry_run ;;
    when (negb dry_run) (post_process args names) ;;
    (if dry_run
     then print "[DRY RUN] Would delete: sbin/scaffold.py"
     else self_delete env ;; print "Removed: sbin/scaffold.py") ;;
    closing.

(** A small template tree to run the script on. *)
Definition sample_tree : node :=
  Dir [ ("Makefile", File (Some "CHAINLIT_PORT = 1337"));
        ("poetry.lock", File (Some "jarvis lock"));
        ("logo.PNG", File (Some "jarvis"));
        (".git", Dir [("config", File (Some "url = autobots-agents-jarvis"))]);
        ("sbin", Dir [("scaffold.py", File (Some "jarvis"));
                      ("run_jarvis.sh", File (Some "PORT:-1337 jarvis_chat"))]);
        ("src", Dir [("autobots_agents_jarvis",
               Dir [("configs", Dir [("settings.py",
                        File (Some "class JarvisSettings: default=1337"))]);
                    ("domains", Dir [("jarvis", Dir [("tools.py",
                        File (Some "def register_jarvis_tools()"))]);
                                     ("sales", Dir [])])])]);
        ("tests", Dir [("sanity", Dir [("__pycache__",
                        Dir [("t.pyc", File None)])])]) ].

Definition sample_env : Env :=
  {| root_name := "autobots-agents-jarvis"; root_parent_name := "work";
     script_dir := "sbin"; script_file := "scaffold.py" |}.

Definition sample_args (dry : bool) (port : Z) : Args :=
  {| arg_name := "kbe-pay"; arg_display_name := None;
     arg_description := None; arg_port := port; arg_dry_run := dry |}.

(* ================================================================== *)
(** * Notions used in the statements *)
(* ================================================================== *)

(** No name twice in a list. *)
Fixpoint nodupb (l : list string) : bool :=
  match l with
  | [] => true
  | x :: l' => negb (mem x l') && nodupb l'
  end.

(** Names are unique in every directory, as in a real file system. *)
Fixpoint wf (n : node) {struct n} : bool :=
  match n with
  | File _ => true
  | Dir es =>
      nodupb (List.map fst es) &&
      forallb (fun e : entry => let (_, c) := e in wf c) es
  end.

(** An event that changes the file system. *)
Definition mutating (e : event) : bool :=
  match e with
  | EWrite _ _ | ERename _ _ | ERemove _ => true
  | EPrint _ | ERead _ => false
  end.

(** A line of output. *)
Definition is_print (e : event) : bool :=
  match e with EPrint _ => true | _ => false end.

(** The text of the file at [p]: [None] when [p] is not a file. *)
Definition file_at (p : path) (t : node) : option (option string) :=
  match lookup p t with
  | Some (File text) => Some text
  | _ => None
  end.

(** An event that leaves the file system as it is. *)
Definition harmless (e : event) : Prop := mutating e = false.

(** A step is quiet when it never changes the tree and never emits a
    mutating event. *)
Definition quiet {A} (m : M A) : Prop :=
  forall t, tree (m t) = t /\ Forall harmless (trace (m t)).

(** A step that never ends in [sys.exit]. *)
Definition never_exits {A} (m : M A) : Prop :=
  forall t status, ending (m t) <> Exited status.

(** The file an event reads or writes. *)
Definition event_path (e : event) : option path :=
  match e with
  | ERead p | EWrite p _ => Some p
  | _ => None
  end.

(** What a path shows of a tree: nothing, a directory, or a file with its
    text. *)
Definition shape (n : node) : option (option string) :=
  match n with
  | File text => Some text
  | Dir _ => None
  end.

(** What the tree shows at [q]; [None] when nothing is there. *)
Definition view (q : path) (t : node) : option (option (option string)) :=
  option_map shape (lookup q t).

(** [q] is one of the paths of [l]. *)
Definition in_paths (q : path) (l : list path) : bool := existsb (path_eqb q) l.

(** The literal the port override replaces in the file at [q], with the
    text that precedes the port in its replacement. *)
Definition port_literal (names : NameVariants) (q : path)
  : option (string * string) :=
  if path_eqb q ["Makefile"]
  then Some ("CHAINLIT_PORT = 1337", "CHAINLIT_PORT = ")
  else if String.eqb (last q EmptyString) "settings.py"
  then Some ("default=1337", "default=")
  else if path_eqb q ["sbin"; "run_" ++ snake_name names ++ ".sh"]
  then Some ("PORT:-1337", "PORT:-")
  else None.

(** [text'] is [text] with the literal [old] replaced by [new]: it holds
    [new] when [text] held [old], and is [text] itself when it did not. *)
Definition rewritten (old new text text' : string) : Prop :=
  text' = Str.replace old new text /\
  (Str.contains old text = true -> Str.contains new text' = true) /\
  (Str.contains old text = false -> text' = text).

(** A template tree with a settings file inside a demo domain. *)
Definition demo_settings_tree : node :=
  Dir [ ("sbin", Dir [("scaffold.py", File (Some "#!python"))]);
        ("src", Dir [("autobots_agents_jarvis",
               Dir [("domains", Dir [("sales", Dir [("settings.py",
                        File (Some "port default=1337"))])])])]) ].

(** The settings file of the demo domain in that tree. *)
Definition demo_settings : path :=
  ["src"; "autobots_agents_jarvis"; "domains"; "sales"; "settings.py"].

(** Every character of [s] satisfies [P]. *)
Fixpoint all_chars (P : ascii -> bool) (s : string) : bool :=
  match s with
  | EmptyString => true
  | String c s' => P c && all_chars P s'
  end.

(** Being another character than [c]. *)
Definition differs (c : ascii) : ascii -> bool := fun x => negb (Ascii.eqb x c).

(** The characters a validated name is made of. *)
Definition name_char (c : ascii) : bool :=
  is_seg_char c || Ascii.eqb c hyphen || Ascii.eqb c newline.

(** What [name.replace("-", "_")] does to one character. *)
Definition snake_char (c : ascii) : ascii :=
  if Ascii.eqb c hyphen then "_"%char else c.

(** The map [f] leaves [c] alone, or [c] and its image are both foreign
    to [w]. *)
Definition stable (f : ascii -> ascii) (w : string) (c : ascii) : bool :=
  Ascii.eqb (f c) c ||
  (all_chars (differs (f c)) w && all_chars (differs c) w).

(** [sep.join(p.capitalize() for p in s.split("-"))], read off [s] from
    left to right; [start] tells whether the next character begins a
    part. *)
Fixpoint caps (sep : string) (start : bool) (s : string) : string :=
  match s with
  | EmptyString => EmptyString
  | String c s' =>
      if Ascii.eqb c hyphen then sep ++ caps sep true s'
      else String (if start then Str.upper_char c else Str.lower_char c)
                  (caps sep false s')
  end.

(** The parts after the first one, joined, with the separator that
    precedes them. *)
Definition join_rest (sep : string) (ps : list string) : string :=
  match ps with
  | [] => EmptyString
  | _ => sep ++ Str.join sep (List.map Str.capitalize ps)
  end.

(** Classes of characters: no lower-case letter, no letter at all, no
    upper-case letter. *)
Definition not_lower (c : ascii) : bool := negb (Str.is_lower c).

Definition plain (c : ascii) : bool :=
  negb (Str.is_lower c) && negb (Str.is_upper c).

(** No pair's old string occurs in the new string of a pair before it. *)
Fixpoint no_rematch (table : list (string * string)) : bool :=
  match table with
  | [] => true
  | (_, new) :: rest =>
      forallb (fun r => negb (Str.contains (fst r) new)) rest &&
      no_rematch rest
  end.

(** Most specific first: no old string is empty or occurs in the old
    string of a pair after it. *)
Fixpoint specific_first (olds : list string) : bool :=
  match olds with
  | [] => true
  | o :: rest =>
      negb (String.eqb o EmptyString) &&
      forallb (fun o' => negb (Str.contains o o')) rest &&
      specific_first rest
  end.

(** The text after the variable part of a new string: empty, or beginning
    with a character the token lacks and holding no token after it. *)
Definition suffix_ok (w suf : string) : bool :=
  match suf with
  | EmptyString => true
  | String c suf' => all_chars (differs c) w && negb (Str.contains w suf')
  end.

Definition not_upper (c : ascii) : bool := negb (Str.is_upper c).

(** No non-empty suffix of [x] is a prefix of [y]. *)
Fixpoint none_suffix (x y : string) : bool :=
  match x with
  | EmptyString => true
  | String _ x' => negb (prefix x y) && none_suffix x' y
  end.

(** The replacement [sn] is clear of the token [w]: neither occurs in the
    other, and no end of one is a beginning of the other. *)
Definition clear_of (w sn : string) : bool :=
  match w with
  | EmptyString => false
  | String _ w' =>
      negb (Str.contains w sn) && negb (Str.contains sn w) &&
      none_suffix w' sn && none_suffix sn w
  end.

(** The name of the directory at [q] below a directory called [dn], and
    the name of its parent, as [root_path.name] and
    [root_path.parent.name] give them. *)
Definition dname (dn : string) (q : path) : string := last q dn.

Definition pname (pn dn : string) (q : path) : string :=
  match q with
  | [] => pn
  | _ => last (removelast q) dn
  end.

(** The rename the first loop of [rename_paths] computes for the entry at
    [q], if any. *)
Definition expected (sn pkg : string) (root : path) (pn dn : string)
    (n : node) (q : path) : list rename_item :=
  match lookup q n with
  | Some (File _) =>
      match split_last q with
      | Some (d, f) =>
          if protected (root ++ d)%list then []
          else if Str.contains template_token f
          then [((root ++ q)%list,
                 Some (root ++ d ++ [Str.replace template_token sn f])%list)]
          else []
      | None => []
      end
  | Some (Dir _) =>
      if protected (root ++ q)%list then []
      else dir_rename sn pkg (root ++ q)%list (pname pn dn q) (dname dn q)
  | None => []
  end.

(** [q] lies strictly below [p]. *)
Definition below (p q : path) : bool := is_prefix p q && negb (path_eqb p q).

(** Nothing in the list lies strictly below something listed before it. *)
Definition post_order (l : list rename_item) : Prop :=
  ForallOrdPairs (fun a b => below (fst a) (fst b) = false) l.

(** What holds between the tree and the renames still to execute, [plan]
    being the first loop of [rename_paths]: the renames to execute are
    those a fresh first loop would compute, deepest first, each path once. *)
Definition in_step (plan : node -> list rename_item) (t : node)
    (todo : list rename_item) : Prop :=
  wf t = true /\
  (forall it, In it (plan t) <-> In it todo) /\
  post_order todo /\
  NoDup (List.map fst todo).

(** The new strings of the last three pairs of the table are clear of the
    tokens that are replaced before them or by them: nothing the table
    writes brings a token back. *)
Definition leaves_no_token (names : NameVariants) : bool :=
  let sn := snake_name names in
  clear_of "JARVIS" (Str.upper sn) &&
  clear_of "Jarvis" (display_name names) &&
  clear_of "JARVIS" (display_name names) &&
  clear_of "jarvis" sn && clear_of "Jarvis" sn && clear_of "JARVIS" sn.

(** What [s.replace("_", "-")] does to one character. *)
Definition unsnake_char (c : ascii) : ascii :=
  if Ascii.eqb c "_"%char then hyphen else c.

(** The characters of a Python identifier in lower case, and letters and
    digits. *)
Definition ident_char (c : ascii) : bool :=
  Str.is_lower c || Str.is_digit c || Ascii.eqb c "_"%char.

Definition alnum (c : ascii) : bool :=
  Str.is_lower c || Str.is_upper c || Str.is_digit c.

(** A string of ASCII characters, on which the case operations of the
    model are those of Python. *)
Definition ascii_only (s : string) : bool :=
  all_chars (fun c => (Str.code c <? 128)%N) s.

(** The paths a trace removes, in order. *)
Definition removed (tr : list event) : list path :=
  flat_map (fun e => match e with ERemove p => [p] | _ => [] end) tr.

(** [q] is one of the paths of [l] or lies below one. *)
Definition under (l : list path) (q : path) : bool :=
  existsb (fun p => is_prefix p q) l.

(** No path of the list is or lies below an earlier one. *)
Fixpoint apart (l : list path) : bool :=
  match l with
  | [] => true
  | p :: l' => forallb (fun q => negb (is_prefix p q)) l' && apart l'
  end.

Definition would_clean (p : path) : string :=
  "[DRY RUN] Would clean: " ++ show_path p.

Definition would_remove (p : path) : string :=
  "[DRY RUN] Would remove: " ++ show_path p.

(** The renames a trace performs, in order, as the first loop of
    [rename_paths] lists them. *)
Definition renames (tr : list event) : list rename_item :=
  flat_map (fun e => match e with
                     | ERename old new => [(old, Some new)]
                     | _ => []
                     end) tr.

(** The line the dry run of [replace_in_files] prints for the file at [p]
    and the pair [r]. *)
Definition would_replace (p : path) (r : string * string) : string :=
  "[DRY RUN] " ++ show_path p ++ ": '" ++ fst r ++ "' -> '" ++ snd r ++ "'".

(** The run has removed the path [sp] as its last change and left nothing
    in its place. *)
Definition script_removed {A} (sp : path) (r : run A) : Prop :=
  exists_ sp (tree r) = false /\
  exists before after,
    trace r = (before ++ ERemove sp :: after)%list /\ Forall harmless after.

(** The naming grammar as the spec writes it, [^[a-z][a-z0-9]*(-[a-z0-9]+)*$]
    read as a grammar of whole strings: a lower-case letter, then letters
    and digits, then groups of a hyphen and at least one letter or digit,
    and nothing after them. *)
Fixpoint grammar_tail (st : re_state) (s : string) : bool :=
  match s with
  | EmptyString => match st with InSegment => true | AfterHyphen => false end
  | String c s' =>
      if is_seg_char c then grammar_tail InSegment s'
      else match st with
           | InSegment => Ascii.eqb c hyphen && grammar_tail AfterHyphen s'
           | AfterHyphen => false
           end
  end.

Definition in_grammar (name : string) : bool :=
  match name with
  | EmptyString => false
  | String c s' => Str.is_lower c && grammar_tail InSegment s'
  end.

(** [s] without its last character, when that is a newline. *)
Fixpoint without_final_newline (s : string) : option string :=
  match s with
  | EmptyString => None
  | String c s' =>
      match s' with
      | EmptyString => if Ascii.eqb c newline then Some EmptyString else None
      | _ => option_map (String c) (without_final_newline s')
      end
  end.

(** A template with one module that imports the package. *)
Definition importing_tree : node :=
  Dir [ ("sbin", Dir [("scaffold.py", File (Some "#!python"))]);
        ("src", Dir [("autobots_agents_jarvis",
               Dir [("__init__.py",
                     File (Some "import autobots_agents_jarvis"))])]) ].

(** The names the script works with: the derived ones, with the display
    name of the command line when one is given. *)
Definition final_names (args : Args) : NameVariants :=
  match truthy (arg_display_name args) with
  | Some d => with_display (variants (arg_name args)) d
  | None => variants (arg_name args)
  end.

(** A real run up to the port override: the banner, steps 1 to 5 and the
    description override. *)
Definition steps_before_port (env : Env) (args : Args) (names : NameVariants)
  : M unit :=
  banner args names ;;
  clean_artifacts false ;;
  remove_demo_content false ;;
  replace_in_files (build_replacements names) false ;;
  rename_paths env names false ;;
  match truthy (arg_description args) with
  | Some d => update_description names d
  | None => ret tt
  end.

(** A real run after the port override: step 7 and the closing lines. *)
Definition steps_after_port (env : Env) : M unit :=
  (self_delete env ;; print "Removed: sbin/scaffold.py") ;; closing.

(** A step that leaves names unique where they were. *)
Definition keeps_wf {A} (m : M A) : Prop :=
  forall t, wf t = true -> wf (tree (m t)) = true.

(* ================================================================== *)
(** * Results *)
(* ================================================================== *)

(** ** The sequencing of steps *)

Lemma bind_returned {A B} (m : M A) (k : A -> M B) (t : node) (a : A) :
  ending (m t) = Returned a ->
  bind m k t =
  mkRun (trace (m t) ++ trace (k a (tree (m t))))%list
        (ending (k a (tree (m t)))) (tree (k a (tree (m t)))).
Proof. intros H. unfold bind. rewrite H. reflexivity. Qed.

Lemma bind_exited {A B} (m : M A) (k : A -> M B) (t : node) (status : Z) :
  ending (m t) = Exited status ->
  bind m k t = mkRun (trace (m t)) (Exited status) (tree (m t)).
Proof. intros H. unfold bind. rewrite H. reflexivity. Qed.

Lemma bind_raised {A B} (m : M A) (k : A -> M B) (t : node) (exn : string) :
  ending (m t) = Raised exn ->
  bind m k t = mkRun (trace (m t)) (Raised exn) (tree (m t)).
Proof. intros H. unfold bind. rewrite H. reflexivity. Qed.

(* ================================================================== *)
(** * Name derivation: results *)
(* ================================================================== *)

(** C1.  For every name the grammar accepts, [derive_names] prints nothing,
    returns the record that [variants] computes from the name alone, and,
    run as a step of the script, leaves the tree as it found it; for
    "kbe-pay" the record is the one of the specification. *)
Theorem derive_names_deterministic :
  forall nm : string,
    re_match nm = true ->
    derive_names nm = ([], Returned (variants nm)) /\
    (forall t, tree (lift (derive_names nm) t) = t) /\
    variants "kbe-pay" =
      {| name := "kbe-pay"; repo_name := "autobots-kbe-pay";
         pypi_name := "autobots-kbe-pay";
         package_name := "autobots_kbe_pay"; snake_name := "kbe_pay";
         pascal_name := "KbePay"; display_name := "Kbe Pay" |}.
Proof.
  intros nm H. unfold derive_names. rewrite H. simpl.
  repeat split; reflexivity.
Qed.

Lemma derive_names_deterministic_witness :
  derive_names "kbe-pay" = ([], Returned (variants "kbe-pay")) /\
  (forall t, tree (lift (derive_names "kbe-pay") t) = t) /\
  variants "kbe-pay" =
    {| name := "kbe-pay"; repo_name := "autobots-kbe-pay";
       pypi_name := "autobots-kbe-pay";
       package_name := "autobots_kbe_pay"; snake_name := "kbe_pay";
       pascal_name := "KbePay"; display_name := "Kbe Pay" |}.
Proof. apply (derive_names_deterministic "kbe-pay"). reflexivity. Defined.

Lemma invalid_name_exit (env : Env) (args : Args) (t : node) :
  re_match (arg_name args) = false ->
  scaffold env args t =
    mkRun [EPrint (name_error (arg_name args))] (Exited 1) t.
Proof.
  intros H. unfold scaffold.
  rewrite (bind_exited _ _ t 1);
    unfold lift, derive_names; rewrite H; reflexivity.
Qed.

(** The [$] of the pattern also matches before a final newline. *)
Remark re_match_final_newline :
  re_match (String.append "kbe-pay" (String newline EmptyString)) = true /\
  re_match "kbe-pay" = true.
Proof. split; reflexivity. Qed.

(** What [re.match] accepts is the grammar, and the grammar followed by
    one newline. *)
Lemma re_tail_grammar s :
  forall st,
    re_tail st s =
    grammar_tail st s ||
    match without_final_newline s with
    | Some s0 => grammar_tail st s0
    | None => false
    end.
Proof.
  induction s as [|c s IH]; intros st; [now destruct st|].
  cbn [re_tail grammar_tail without_final_newline].
  destruct (is_seg_char c) eqn:Hseg.
  - assert (Hnl : Ascii.eqb c newline = false)
      by (destruct c as [[] [] [] [] [] [] [] []]; try reflexivity;
          discriminate Hseg).
    rewrite Hnl, IH. destruct s as [|c' s']; [reflexivity|].
    destruct (without_final_newline (String c' s')) as [s0|];
      cbn [option_map grammar_tail]; now rewrite ?Hseg.
  - destruct st.
    + destruct (Ascii.eqb c hyphen) eqn:Hh.
      * assert (Hnl : Ascii.eqb c newline = false)
          by (apply Ascii.eqb_eq in Hh; subst c; reflexivity).
        rewrite Hnl, IH. cbn [andb]. destruct s as [|c' s']; [reflexivity|].
        destruct (without_final_newline (String c' s')) as [s0|];
          cbn [option_map grammar_tail]; now rewrite ?Hseg, ?Hh.
      * cbn [andb orb]. destruct s as [|c' s'].
        -- cbn [String.eqb]. now destruct (Ascii.eqb c newline).
        -- rewrite andb_false_r.
           destruct (without_final_newline (String c' s')) as [s0|];
             cbn [option_map grammar_tail]; now rewrite ?Hseg, ?Hh.
    + cbn [orb]. destruct s as [|c' s'].
      * now destruct (Ascii.eqb c newline).
      * destruct (without_final_newline (String c' s')) as [s0|];
          cbn [option_map grammar_tail]; now rewrite ?Hseg.
Qed.

Lemma re_match_grammar nm :
  re_match nm =
  in_grammar nm ||
  match without_final_newline nm with
  | Some s0 => in_grammar s0
  | None => false
  end.
Proof.
  destruct nm as [|c s]; [reflexivity|].
  cbn [re_match in_grammar without_final_newline]. rewrite re_tail_grammar.
  destruct (Str.is_lower c) eqn:Hl.
  - assert (Hnl : Ascii.eqb c newline = false)
      by (destruct c as [[] [] [] [] [] [] [] []]; try reflexivity;
          discriminate Hl).
    rewrite Hnl. cbn [andb]. destruct s as [|c' s']; [reflexivity|].
    destruct (without_final_newline (String c' s')) as [s0|];
      cbn [option_map in_grammar]; now rewrite ?Hl.
  - cbn [andb orb]. destruct s as [|c' s'].
    + now destruct (Ascii.eqb c newline).
    + destruct (without_final_newline (String c' s')) as [s0|];
        cbn [option_map in_grammar]; now rewrite ?Hl.
Qed.

(** A name outside the grammar that is not a name of the grammar followed
    by a newline makes the script print the diagnostic that quotes the
    name and the expected form, and exit with status 1, with the tree
    untouched and nothing else in the trace. *)
Lemma outside_grammar_exits_untouched :
  forall (env : Env) (args : Args) (t : node),
    in_grammar (arg_name args) = false ->
    (forall s0, without_final_newline (arg_name args) = Some s0 ->
                in_grammar s0 = false) ->
    scaffold env args t =
      mkRun [EPrint ("Error: name '" ++ arg_name args ++
                     "' must be lowercase with hyphens (e.g., 'kbe-pay', 'my-app')")]
            (Exited 1) t.
Proof.
  intros env args t H1 H2. apply invalid_name_exit.
  rewrite re_match_grammar, H1.
  destruct (without_final_newline (arg_name args)) as [s0|]; [|reflexivity].
  now apply H2.
Qed.

(** C2 (the code's defect).  The validation uses [re.match] with a
    pattern ending in [$], which also matches before a final newline: the
    name "kbe-pay" followed by a newline is outside the grammar, yet it is
    not rejected.  [derive_names] returns names that end in the newline,
    and the run on the sample template returns after renaming the package
    directory: the file system has been changed and nothing was printed
    about the name. *)
Theorem final_newline_name_is_scaffolded :
  let nm := String.append "kbe-pay" (String newline EmptyString) in
  let args := {| arg_name := nm; arg_display_name := None;
                 arg_description := None; arg_port := 1337;
                 arg_dry_run := false |} in
  let r := scaffold sample_env args sample_tree in
  in_grammar nm = false /\
  in_grammar "kbe-pay" = true /\
  derive_names nm = ([], Returned (variants nm)) /\
  package_name (variants nm) =
    String.append "autobots_kbe_pay" (String newline EmptyString) /\
  ending r = Returned tt /\
  is_dir template_dir sample_tree = true /\
  is_dir template_dir (tree r) = false /\
  existsb mutating (trace r) = true /\
  existsb (fun e => match e with
                    | EPrint line => String.eqb line (name_error nm)
                    | _ => false
                    end) (trace r) = false.
Proof. repeat split; vm_compute; reflexivity. Qed.

(** Every name that [re.match] does not accept against the pattern makes
    the script print the diagnostic and exit with status 1, with the tree
    untouched and nothing else in the trace; names with an upper-case
    letter, a leading digit or an empty segment are such names. *)
Theorem invalid_name_exits_untouched :
  forall (env : Env) (args : Args) (t : node),
    re_match (arg_name args) = false ->
    scaffold env args t =
      mkRun [EPrint (name_error (arg_name args))] (Exited 1) t /\
    re_match "MyApp" = false /\ re_match "1app" = false /\
    re_match "my--app" = false /\ re_match "my-" = false /\
    re_match "" = false.
Proof.
  intros env args t H. split; [|repeat split; reflexivity].
  apply invalid_name_exit. exact H.
Qed.

Lemma invalid_name_exits_untouched_witness :
  scaffold sample_env
    {| arg_name := "MyApp"; arg_display_name := None; arg_description := None;
       arg_port := 1337; arg_dry_run := false |} sample_tree =
  mkRun [EPrint (name_error "MyApp")] (Exited 1) sample_tree.
Proof.
  apply (invalid_name_exits_untouched sample_env
           {| arg_name := "MyApp"; arg_display_name := None;
              arg_description := None; arg_port := 1337;
              arg_dry_run := false |} sample_tree).
  reflexivity.
Defined.

(* ================================================================== *)
(** * Steps that leave the tree alone *)
(* ================================================================== *)

Section Quiet.

Lemma quiet_ret {A} (a : A) : quiet (ret a).
Proof. intros t. split; [reflexivity | constructor]. Qed.

Lemma quiet_print (line : string) : quiet (print line).
Proof. intros t. split; [reflexivity | repeat constructor]. Qed.

Lemma quiet_get_tree : quiet get_tree.
Proof. intros t. split; [reflexivity | constructor]. Qed.

Lemma quiet_raise {A} (exn : string) : quiet (@raise A exn).
Proof. intros t. split; [reflexivity | constructor]. Qed.

Lemma quiet_sys_exit {A} (status : Z) : quiet (@sys_exit A status).
Proof. intros t. split; [reflexivity | constructor]. Qed.

Lemma quiet_bind {A B} (m : M A) (k : A -> M B) :
  quiet m -> (forall a, quiet (k a)) -> quiet (bind m k).
Proof.
  intros Hm Hk t. destruct (Hm t) as [Ht Hl]. unfold bind.
  destruct (ending (m t)) as [a| |]; simpl; try (split; assumption).
  destruct (Hk a (tree (m t))) as [Ht' Hl']. split.
  - rewrite Ht'. exact Ht.
  - apply Forall_app. split; assumption.
Qed.

Lemma quiet_when (b : bool) (m : M unit) : quiet m -> quiet (when b m).
Proof. destruct b; simpl; [trivial | intros _; apply quiet_ret]. Qed.

Lemma quiet_for_each {A} (f : A -> M unit) (l : list A) :
  (forall x, quiet (f x)) -> quiet (for_each f l).
Proof.
  intros Hf. induction l as [|x l IH]; simpl.
  - apply quiet_ret.
  - apply quiet_bind; [apply Hf | intros _; exact IH].
Qed.

Lemma quiet_lift {A} (io : list event * outcome A) :
  Forall harmless (fst io) -> quiet (lift io).
Proof. intros H t. split; [reflexivity | exact H]. Qed.

End Quiet.

Create HintDb quiet.

#[local] Hint Resolve quiet_ret quiet_print quiet_get_tree quiet_raise
  quiet_sys_exit quiet_when : quiet.

Lemma derive_names_harmless (nm : string) :
  Forall harmless (fst (derive_names nm)).
Proof.
  unfold derive_names. destruct (negb (re_match nm)); simpl;
    repeat constructor.
Qed.

Lemma quiet_clean_one (rel_path : path) : quiet (clean_one true rel_path).
Proof.
  unfold clean_one. apply quiet_bind; [apply quiet_get_tree|]. intros t.
  destruct (negb (exists_ rel_path t)); auto with quiet.
Qed.

Lemma quiet_remove_one (rel_path : path) : quiet (remove_one true rel_path).
Proof.
  unfold remove_one. apply quiet_bind; [apply quiet_get_tree|]. intros t.
  destruct (negb (exists_ rel_path t)); auto with quiet.
Qed.

Lemma dry_run_lines_harmless rel content replacements :
  Forall harmless (dry_run_lines rel content replacements).
Proof.
  unfold dry_run_lines. apply Forall_forall. intros e He.
  apply in_map_iff in He. destruct He as [r [<- _]]. reflexivity.
Qed.

Lemma rewrite_file_dry replacements filepath filename text :
  snd (rewrite_file replacements true filepath filename text) = text /\
  Forall harmless
    (fst (rewrite_file replacements true filepath filename text)).
Proof.
  unfold rewrite_file. destruct (is_binary filename); simpl.
  - split; [reflexivity | constructor].
  - destruct text as [content|]; simpl.
    + destruct (negb (apply_replacements content replacements =? content)%string);
        simpl; split; try reflexivity.
      * constructor; [reflexivity | apply dry_run_lines_harmless].
      * repeat constructor.
    + split; [reflexivity | repeat constructor].
Qed.

Lemma Forall_concat_map {A B} (P : B -> Prop) (f : A -> list B) (l : list A) :
  (forall x, In x l -> Forall P (f x)) ->
  Forall P (List.concat (List.map f l)).
Proof.
  induction l as [|x l IH]; simpl; intros H; [constructor|].
  apply Forall_app. split; [apply H; now left | apply IH; intros; apply H; now right].
Qed.

Lemma walk_replace_dry replacements (n : node) :
  forall root,
    snd (walk_replace replacements true root n) = n /\
    Forall harmless (fst (walk_replace replacements true root n)).
Proof.
  induction n as [text|es IH] using node_induction; intros root.
  - simpl. split; [reflexivity | constructor].
  - rewrite Forall_forall in IH.
    cbn [walk_replace fst snd]. rewrite !List.map_map. split.
    + f_equal. rewrite <- (List.map_id es) at 2. apply List.map_ext_in.
      intros [nm c] Hin. destruct c as [text|es'].
      * cbn [after]. f_equal. f_equal. apply rewrite_file_dry.
      * destruct (mem nm SKIP_DIRS); cbn [after]; [reflexivity|].
        f_equal. apply (IH _ Hin).
    + apply Forall_app. split; apply Forall_concat_map; intros [nm c] Hin;
        destruct c as [text|es']; try destruct (mem nm SKIP_DIRS);
        cbn [file_events dir_events];
        first [ apply rewrite_file_dry | apply (IH _ Hin) | constructor ].
Qed.

Lemma quiet_replace_in_files replacements :
  quiet (replace_in_files replacements true).
Proof.
  intros t. unfold replace_in_files. cbn [tree trace].
  apply walk_replace_dry.
Qed.

Lemma quiet_execute_rename (item : rename_item) :
  quiet (execute_rename true item).
Proof.
  unfold execute_rename. destruct (snd item); auto with quiet.
Qed.

Lemma quiet_rename_paths env names : quiet (rename_paths env names true).
Proof.
  unfold rename_paths. apply quiet_bind; [apply quiet_get_tree|]. intros t.
  apply quiet_for_each. apply quiet_execute_rename.
Qed.

Lemma quiet_banner args names : quiet (banner args names).
Proof.
  unfold banner.
  repeat (apply quiet_bind; [auto with quiet | intros _]);
    auto with quiet.
  destruct (truthy (arg_description args)); auto with quiet.
Qed.

Lemma quiet_closing : quiet closing.
Proof.
  unfold closing.
  repeat (apply quiet_bind; [auto with quiet | intros _]); auto with quiet.
Qed.

(** C3.  With [--dry-run] the whole script is quiet: whatever the
    arguments and the tree, the tree after the run is the tree before it,
    and the trace holds no write, rename or removal. *)
Theorem dry_run_never_mutates :
  forall (env : Env) (args : Args) (t : node),
    arg_dry_run args = true ->
    tree (scaffold env args t) = t /\
    Forall harmless (trace (scaffold env args t)).
Proof.
  intros env args t Hdry. revert t. change (quiet (scaffold env args)).
  unfold scaffold. rewrite Hdry.
  apply quiet_bind; [apply quiet_lift, derive_names_harmless|]. intros derived.
  apply quiet_bind; [apply quiet_get_tree|]. intros t.
  destruct (negb (is_dir template_dir t)).
  - apply quiet_bind; auto with quiet.
  - apply quiet_bind; [apply quiet_banner|]. intros _.
    apply quiet_bind; [apply quiet_for_each, quiet_clean_one|]. intros _.
    apply quiet_bind; [apply quiet_for_each, quiet_remove_one|]. intros _.
    apply quiet_bind; [apply quiet_replace_in_files|]. intros _.
    apply quiet_bind; [apply quiet_rename_paths|]. intros _.
    apply quiet_bind; [simpl; apply quiet_ret|]. intros _.
    apply quiet_bind; [apply quiet_print|]. intros _.
    apply quiet_closing.
Qed.

Lemma dry_run_never_mutates_witness :
  tree (scaffold sample_env (sample_args true 8080) sample_tree) = sample_tree /\
  Forall harmless (trace (scaffold sample_env (sample_args true 8080) sample_tree)).
Proof.
  apply (dry_run_never_mutates sample_env (sample_args true 8080) sample_tree).
  reflexivity.
Defined.

(* ================================================================== *)
(** * Controlled exits *)
(* ================================================================== *)

Create HintDb noexit.

Section NeverExits.

Lemma ne_ret {A} (a : A) : never_exits (ret a).
Proof. intros t s; discriminate. Qed.

Lemma ne_emit e : never_exits (emit e).
Proof. intros t s; discriminate. Qed.

Lemma ne_print line : never_exits (print line).
Proof. intros t s; discriminate. Qed.

Lemma ne_get_tree : never_exits get_tree.
Proof. intros t s; discriminate. Qed.

Lemma ne_modify f : never_exits (modify f).
Proof. intros t s; discriminate. Qed.

Lemma ne_raise {A} exn : never_exits (@raise A exn).
Proof. intros t s; discriminate. Qed.

Lemma ne_bind {A B} (m : M A) (k : A -> M B) :
  never_exits m -> (forall a, never_exits (k a)) -> never_exits (bind m k).
Proof.
  intros Hm Hk t s. unfold bind. specialize (Hm t).
  destruct (ending (m t)) as [a|s'|]; simpl.
  - apply Hk.
  - exfalso. apply (Hm s'). reflexivity.
  - discriminate.
Qed.

Lemma ne_when b (m : M unit) : never_exits m -> never_exits (when b m).
Proof. destruct b; simpl; [trivial | intros _; apply ne_ret]. Qed.

Lemma ne_for_each {A} (f : A -> M unit) (l : list A) :
  (forall x, never_exits (f x)) -> never_exits (for_each f l).
Proof.
  intros Hf. induction l as [|x l IH]; simpl.
  - apply ne_ret.
  - apply ne_bind; [apply Hf | intros _; exact IH].
Qed.

Lemma ne_read_text p : never_exits (read_text p).
Proof.
  intros t s. unfold read_text.
  destruct (lookup p t) as [[[text|]|es]|]; discriminate.
Qed.

End NeverExits.

#[local] Hint Resolve ne_ret ne_emit ne_print ne_get_tree ne_modify ne_raise
  ne_when ne_read_text : noexit.

Ltac ne_steps :=
  repeat first
    [ apply ne_bind; [solve [auto with noexit] | intros ? ]
    | solve [auto with noexit] ].

Lemma ne_write_text p text : never_exits (write_text p text).
Proof. unfold write_text. ne_steps. Qed.

Lemma ne_delete p : never_exits (delete p).
Proof. unfold delete. ne_steps. Qed.

#[local] Hint Resolve ne_write_text ne_delete : noexit.

Lemma ne_rename old new : never_exits (rename old new).
Proof.
  intros t s. unfold rename.
  destruct (lookup old t) as [src|]; [|discriminate].
  destruct (path_eqb old new); [discriminate|].
  destruct (is_prefix old new); [discriminate|].
  destruct (negb (is_dir (parent new) t)); [discriminate|].
  destruct new as [|x new']; [discriminate|].
  destruct (lookup (x :: new') t) as [[text|[|e es]]|]; destruct src;
    try discriminate;
    apply ne_bind; auto with noexit.
Qed.

Lemma ne_rewrite_literal p old new : never_exits (rewrite_literal p old new).
Proof. unfold rewrite_literal. ne_steps. Qed.

#[local] Hint Resolve ne_rename ne_rewrite_literal : noexit.

Lemma ne_clean_one dry rel_path : never_exits (clean_one dry rel_path).
Proof.
  unfold clean_one. apply ne_bind; [auto with noexit|]. intros t.
  destruct (negb (exists_ rel_path t)); [auto with noexit|].
  destruct dry; [auto with noexit|].
  destruct (is_dir rel_path t); ne_steps.
Qed.

Lemma ne_remove_one dry rel_path : never_exits (remove_one dry rel_path).
Proof.
  unfold remove_one. apply ne_bind; [auto with noexit|]. intros t.
  destruct (negb (exists_ rel_path t)); [auto with noexit|].
  destruct dry; [auto with noexit|].
  destruct (is_dir rel_path t); ne_steps.
Qed.

Lemma ne_replace_in_files replacements dry :
  never_exits (replace_in_files replacements dry).
Proof. intros t s. discriminate. Qed.

Lemma ne_execute_rename dry item : never_exits (execute_rename dry item).
Proof.
  unfold execute_rename. destruct (snd item); [|auto with noexit].
  destruct dry; [auto with noexit|].
  apply ne_bind; [auto with noexit|]. intros t.
  destruct (exists_ (fst item) t); ne_steps.
Qed.

Lemma ne_rename_paths env names dry : never_exits (rename_paths env names dry).
Proof.
  unfold rename_paths. apply ne_bind; [auto with noexit|]. intros t.
  apply ne_for_each. apply ne_execute_rename.
Qed.

Lemma ne_update_description names d : never_exits (update_description names d).
Proof.
  unfold update_description. apply ne_bind; [auto with noexit|]. intros t.
  destruct (exists_ ["pyproject.toml"] t); ne_steps.
Qed.

Lemma ne_update_port names port : never_exits (update_port names port).
Proof.
  unfold update_port.
  apply ne_bind; [auto with noexit|]. intros t.
  apply ne_bind; [auto with noexit|]. intros _.
  apply ne_bind; [auto with noexit|]. intros t1.
  apply ne_bind; [apply ne_for_each; auto with noexit|]. intros _.
  ne_steps.
Qed.

Lemma ne_post_process args names : never_exits (post_process args names).
Proof.
  unfold post_process. apply ne_bind.
  - destruct (truthy (arg_description args));
      [apply ne_update_description | apply ne_ret].
  - intros _. apply ne_when, ne_update_port.
Qed.

Lemma ne_self_delete env : never_exits (self_delete env).
Proof.
  unfold self_delete. apply ne_bind; [auto with noexit|]. intros t.
  destruct (lookup [script_dir env; script_file env] t) as [[text|es]|];
    auto with noexit.
Qed.

Lemma ne_banner args names : never_exits (banner args names).
Proof.
  unfold banner. ne_steps.
  apply ne_bind; [|intros; ne_steps].
  destruct (truthy (arg_description args)); auto with noexit.
Qed.

Lemma ne_closing : never_exits closing.
Proof. unfold closing. ne_steps. Qed.

(** The pipeline after the two guards. *)
Lemma ne_pipeline env args names :
  never_exits
    (banner args names ;;
     clean_artifacts (arg_dry_run args) ;;
     remove_demo_content (arg_dry_run args) ;;
     replace_in_files (build_replacements names) (arg_dry_run args) ;;
     rename_paths env names (arg_dry_run args) ;;
     when (negb (arg_dry_run args)) (post_process args names) ;;
     (if arg_dry_run args
      then print "[DRY RUN] Would delete: sbin/scaffold.py"
      else self_delete env ;; print "Removed: sbin/scaffold.py") ;;
     closing).
Proof.
  apply ne_bind; [apply ne_banner|]. intros _.
  apply ne_bind; [apply ne_for_each, ne_clean_one|]. intros _.
  apply ne_bind; [apply ne_for_each, ne_remove_one|]. intros _.
  apply ne_bind; [apply ne_replace_in_files|]. intros _.
  apply ne_bind; [apply ne_rename_paths|]. intros _.
  apply ne_bind; [apply ne_when, ne_post_process|]. intros _.
  apply ne_bind; [|intros _; apply ne_closing].
  destruct (arg_dry_run args); [apply ne_print|].
  apply ne_bind; [apply ne_self_delete | intros _; apply ne_print].
Qed.

(** C8 (as the code has it).  The script has two controlled exits, both
    with status 1 and both before anything is changed: the name check and
    the check that [src/autobots_agents_jarvis] is a directory.  Whenever a
    run ends in [sys.exit], the status is 1, the tree is the one it found,
    the trace holds prints only, and the name was rejected or the template
    directory is missing. *)
Theorem exits_only_at_the_guards :
  forall (env : Env) (args : Args) (t : node) (status : Z),
    ending (scaffold env args t) = Exited status ->
    status = 1%Z /\
    tree (scaffold env args t) = t /\
    Forall (fun e => is_print e = true) (trace (scaffold env args t)) /\
    (re_match (arg_name args) = false \/ is_dir template_dir t = false).
Proof.
  intros env args t status H.
  destruct (re_match (arg_name args)) eqn:Hre.
  - assert (Hd : derive_names (arg_name args) =
                 ([], Returned (variants (arg_name args)))).
    { unfold derive_names. rewrite Hre. reflexivity. }
    unfold scaffold in *.
    rewrite (bind_returned _ _ t (variants (arg_name args))) in *
      by (rewrite Hd; reflexivity).
    rewrite Hd in *. cbn [lift fst snd trace ending tree app] in *.
    rewrite (bind_returned _ _ t t) in * by reflexivity.
    cbn [get_tree trace ending tree app] in *.
    destruct (is_dir template_dir t) eqn:Hdir; cbn [negb] in *.
    + exfalso. revert H. apply ne_pipeline.
    + cbn in H. injection H as <-. cbn.
      repeat split; auto; repeat constructor.
  - rewrite (invalid_name_exit env args t Hre) in *. cbn in H.
    injection H as <-. repeat split; auto; repeat constructor.
Qed.

Lemma exits_only_at_the_guards_witness :
  Forall (fun e => is_print e = true)
    (trace (scaffold sample_env (sample_args false 1337) (Dir []))) /\
  is_dir template_dir (Dir []) = false.
Proof.
  destruct (exits_only_at_the_guards sample_env (sample_args false 1337)
              (Dir []) 1%Z) as [_ [_ [H1 [H2|H2]]]].
  - reflexivity.
  - discriminate H2.
  - split; [exact H1 | exact H2].
Defined.

(** C8, as stated, fails: a valid name on a tree without the template
    directory ends in a controlled exit with status 1. *)
Lemma valid_name_can_exit :
  re_match "kbe-pay" = true /\
  ending (scaffold sample_env (sample_args false 1337) (Dir [])) = Exited 1.
Proof. split; reflexivity. Qed.

(* ================================================================== *)
(** * The execute phase of the renamer *)
(* ================================================================== *)

Lemma rename_trace old new t :
  forall e, In e (trace (rename old new t)) -> e = ERename old new.
Proof.
  intros e. unfold rename.
  destruct (lookup old t) as [src|]; [|intros []].
  destruct (path_eqb old new); [intros [<-|[]]; reflexivity|].
  destruct (is_prefix old new); [intros []|].
  destruct (negb (is_dir (parent new) t)); [intros []|].
  destruct new as [|x new']; [intros []|].
  destruct (lookup (x :: new') t) as [[text|[|e' es]]|]; destruct src;
    cbn; intuition congruence.
Qed.

(** C10.  One turn of the second loop of [rename_paths], outside dry-run,
    for a computed rename with a target inside the project: when the source
    no longer exists the turn does nothing at all (no event, no error, same
    tree) and the loop goes on; a rename event appears only when the source
    exists at that moment.  In the batch [a -> b], [a -> c] the second
    rename finds its source gone and is dropped. *)
Theorem missing_source_is_dropped :
  forall (old new : path) (t : node),
    (exists_ old t = false ->
     execute_rename false (old, Some new) t = mkRun [] (Returned tt) t) /\
    (forall e, In e (trace (execute_rename false (old, Some new) t)) ->
               mutating e = true ->
               exists_ old t = true /\ e = ERename old new) /\
    execute_renames false [(["a"], Some ["b"]); (["a"], Some ["c"])]
      (Dir [("a", File (Some "x"))]) =
    mkRun [ERename ["a"] ["b"]; EPrint "Renamed: a -> b"] (Returned tt)
      (Dir [("b", File (Some "x"))]).
Proof.
  intros old new t. split; [|split; [|reflexivity]].
  - intros H. unfold execute_rename. cbn [snd fst].
    unfold bind. cbn [get_tree ending tree trace]. rewrite H. reflexivity.
  - intros e He Hm. unfold execute_rename in He. cbn [snd fst] in He.
    unfold bind at 1 in He. cbn [get_tree ending tree trace app] in He.
    destruct (exists_ old t) eqn:Hex; [|destruct He].
    split; [reflexivity|].
    unfold bind in He.
    destruct (ending (rename old new t)); cbn [trace] in He.
    + apply in_app_or in He. destruct He as [He|[<-|[]]].
      * now apply rename_trace in He.
      * discriminate Hm.
    + now apply rename_trace in He.
    + now apply rename_trace in He.
Qed.

Lemma missing_source_is_dropped_witness :
  execute_rename false (["a"], Some ["c"]) (Dir [("b", File (Some "x"))]) =
  mkRun [] (Returned tt) (Dir [("b", File (Some "x"))]).
Proof.
  apply (missing_source_is_dropped ["a"] ["c"] (Dir [("b", File (Some "x"))])).
  reflexivity.
Defined.

(* ================================================================== *)
(** * What the content rewriter leaves alone *)
(* ================================================================== *)

(** Looking one component down into the tree the rewriter returns. *)
Lemma lookup_walk_replace replacements dry root es x p :
  lookup (x :: p) (snd (walk_replace replacements dry root (Dir es))) =
  match find_entry x es with
  | None => None
  | Some (File text) =>
      lookup p (File (snd (rewrite_file replacements dry
                             (root ++ [x])%list x text)))
  | Some (Dir es') =>
      if mem x SKIP_DIRS then lookup p (Dir es')
      else lookup p (snd (walk_replace replacements dry (root ++ [x])%list
                            (Dir es')))
  end.
Proof.
  cbn [walk_replace snd lookup]. rewrite List.map_map.
  induction es as [|[nm c] es IH]; [reflexivity|].
  cbn [List.map find_entry].
  destruct c as [text|es']; [|destruct (mem nm SKIP_DIRS) eqn:Hskip];
    cbn [after find_entry];
    destruct (String.eqb x nm) eqn:Hx; try exact IH;
    apply String.eqb_eq in Hx; subst nm; try rewrite Hskip; reflexivity.
Qed.

Lemma lookup_file_inv p text0 n :
  lookup p (File text0) = Some n -> p = [] /\ n = File text0.
Proof. destruct p; simpl; [intros [= <-]; auto | discriminate]. Qed.

Lemma last_cons_cons {A} (x y : A) l d : last (x :: y :: l) d = last (y :: l) d.
Proof. reflexivity. Qed.

Lemma walk_replace_keeps_binary replacements dry :
  forall p n root text,
    lookup p n = Some (File text) ->
    is_binary (last p EmptyString) = true ->
    lookup p (snd (walk_replace replacements dry root n)) = Some (File text).
Proof.
  induction p as [|x p IH]; intros n root text Hl Hb.
  - simpl in Hl. injection Hl as ->. reflexivity.
  - destruct n as [text0|es]; [discriminate Hl|].
    rewrite lookup_walk_replace. cbn [lookup] in Hl.
    destruct (find_entry x es) as [[text1|es']|]; [| |discriminate Hl].
    + apply lookup_file_inv in Hl. destruct Hl as [-> [= ->]].
      cbn in Hb. unfold rewrite_file. cbn in Hb |- *. rewrite Hb. reflexivity.
    + destruct (mem x SKIP_DIRS); [exact Hl|].
      destruct p as [|y p]; [discriminate Hl|].
      apply IH; [exact Hl | exact Hb].
Qed.

Lemma rewrite_file_events replacements dry root nm text e q :
  In e (fst (rewrite_file replacements dry (root ++ [nm])%list nm text)) ->
  event_path e = Some q ->
  is_binary (last q EmptyString) = false.
Proof.
  unfold rewrite_file. destruct (is_binary nm) eqn:Hb; [intros []|].
  assert (Hlast : last (root ++ [nm])%list EmptyString = nm)
    by apply last_last.
  assert (Hok : forall e', (e' = ERead (root ++ [nm])%list \/
                  exists txt, e' = EWrite (root ++ [nm])%list txt) ->
                event_path e' = Some q ->
                is_binary (last q EmptyString) = false).
  { intros e' [->|[txt ->]] [= <-]; rewrite Hlast; exact Hb. }
  destruct text as [content|]; cbn [fst].
  - destruct (negb (apply_replacements content replacements =? content)%string).
    + destruct dry; cbn [fst].
      * intros [<-|Hin]; [apply Hok; now left|].
        unfold dry_run_lines in Hin. apply in_map_iff in Hin.
        destruct Hin as [r [<- _]]. discriminate.
      * intros [<-|[<-|[<-|[]]]]; try discriminate.
        -- apply Hok; now left.
        -- apply Hok; right; eauto.
    + intros [<-|[]]. apply Hok; now left.
  - intros [<-|[]]. apply Hok; now left.
Qed.

Lemma in_concat_map {A B} (f : A -> list B) (l : list A) (y : B) :
  In y (List.concat (List.map f l)) -> exists x, In x l /\ In y (f x).
Proof.
  intros H. apply in_concat in H. destruct H as [ys [H1 H2]].
  apply in_map_iff in H1. destruct H1 as [x [<- Hx]]. eauto.
Qed.

Lemma walk_replace_events replacements dry (n : node) :
  forall root e q,
    In e (fst (walk_replace replacements dry root n)) ->
    event_path e = Some q ->
    is_binary (last q EmptyString) = false.
Proof.
  induction n as [text|es IH] using node_induction; intros root e q Hin Hq.
  - destruct Hin.
  - rewrite Forall_forall in IH. cbn [walk_replace fst] in Hin.
    rewrite !List.map_map in Hin.
    apply in_app_or in Hin.
    destruct Hin as [Hin|Hin]; apply in_concat_map in Hin;
      destruct Hin as [[nm c] [Hc Hin]];
      destruct c as [text|es']; try destruct (mem nm SKIP_DIRS);
      cbn [file_events dir_events] in Hin;
      first [ now destruct Hin
            | exact (rewrite_file_events _ _ _ _ _ _ _ Hin Hq)
            | exact (IH _ Hc _ _ _ Hin Hq) ].
Qed.

(** C9.  A file whose name has a binary extension (the suffix of the name,
    lower-cased, is in [BINARY_EXTENSIONS]) keeps its content through the
    content rewriter, dry-run or not, and the rewriter's trace holds no
    read and no write of it; the comparison ignores case. *)
Theorem binary_files_are_skipped :
  forall replacements dry (t : node) (p : path) (text : option string),
    lookup p t = Some (File text) ->
    is_binary (last p EmptyString) = true ->
    lookup p (tree (replace_in_files replacements dry t)) = Some (File text) /\
    (forall e, In e (trace (replace_in_files replacements dry t)) ->
               event_path e <> Some p) /\
    is_binary "logo.PNG" = true /\ is_binary "poetry.lock" = true /\
    is_binary "notes.txt" = false.
Proof.
  intros replacements dry t p text Hl Hb. unfold replace_in_files.
  cbn [tree trace]. split; [|split; [|repeat split; reflexivity]].
  - now apply walk_replace_keeps_binary.
  - intros e Hin Hp.
    pose proof (walk_replace_events _ _ _ _ _ _ Hin Hp) as H.
    rewrite Hb in H. discriminate.
Qed.

Lemma binary_files_are_skipped_witness :
  lookup ["logo.PNG"]
    (tree (replace_in_files (build_replacements (variants "kbe-pay")) false
             sample_tree)) = Some (File (Some "jarvis")).
Proof.
  apply (binary_files_are_skipped (build_replacements (variants "kbe-pay"))
           false sample_tree ["logo.PNG"] (Some "jarvis")); reflexivity.
Defined.

(* ================================================================== *)
(** * Protected directories *)
(* ================================================================== *)

Lemma parent_cons x y (p : path) : parent (x :: y :: p) = x :: parent (y :: p).
Proof. reflexivity. Qed.

Lemma walk_replace_skips_protected replacements dry :
  forall p n root,
    protected (parent p) = true ->
    lookup p (snd (walk_replace replacements dry root n)) = lookup p n.
Proof.
  induction p as [|x p IH]; intros n root Hp; [discriminate Hp|].
  destruct n as [text|es]; [reflexivity|].
  rewrite lookup_walk_replace. cbn [lookup].
  destruct p as [|y p]; [discriminate Hp|].
  destruct (find_entry x es) as [[text|es']|]; [reflexivity| |reflexivity].
  destruct (mem x SKIP_DIRS) eqn:Hx; [reflexivity|].
  apply IH. rewrite parent_cons in Hp. cbn [protected existsb] in Hp.
  rewrite Hx in Hp. exact Hp.
Qed.

Lemma parent_snoc (p : path) x : parent (p ++ [x])%list = p.
Proof. apply removelast_last. Qed.

Lemma protected_app p q : protected (p ++ q)%list = protected p || protected q.
Proof. apply existsb_app. Qed.

Lemma protected_parent p : protected p = false -> protected (parent p) = false.
Proof.
  destruct p as [|x p] using rev_ind; [trivial|].
  rewrite parent_snoc, protected_app. intros H.
  apply orb_false_iff in H. apply H.
Qed.

Lemma file_renames_sources sn root es item :
  In item (file_renames sn root es) ->
  exists f, fst item = (root ++ [f])%list /\
            Str.contains template_token f = true /\
            snd item = Some (root ++ [Str.replace template_token sn f])%list /\
            exists text, In (f, File text) es.
Proof.
  unfold file_renames. intros H. apply in_flat_map in H.
  destruct H as [[f c] [Hc H]]. cbn [fst snd] in H.
  destruct c as [text|es']; [|destruct H].
  destruct (Str.contains template_token f) eqn:Hf; [|destruct H].
  destruct H as [<-|[]]. exists f. cbn. eauto.
Qed.

Lemma dir_rename_source sn pkg root pn dn item :
  In item (dir_rename sn pkg root pn dn) -> fst item = root.
Proof.
  unfold dir_rename.
  destruct (String.eqb dn "autobots_agents_jarvis");
    [intros [<-|[]]; reflexivity|].
  destruct (String.eqb dn "jarvis" && mem pn ["domains"; "agent_configs"]);
    [intros [<-|[]]; reflexivity | intros []].
Qed.

Lemma collect_unprotected sn pkg (n : node) :
  forall root pn dn item,
    In item (collect sn pkg root pn dn n) ->
    protected (parent (fst item)) = false.
Proof.
  induction n as [text|es IH] using node_induction;
    intros root pn dn item Hin; [destruct Hin|].
  rewrite Forall_forall in IH. cbn [collect] in Hin.
  apply in_app_or in Hin. destruct Hin as [Hin|Hin].
  - apply in_concat_map in Hin. destruct Hin as [[nm c] [Hc Hin]].
    exact (IH _ Hc _ _ _ _ Hin).
  - destruct (protected root) eqn:Hr; [destruct Hin|].
    apply in_app_or in Hin. destruct Hin as [Hin|Hin].
    + apply file_renames_sources in Hin. destruct Hin as [f [-> _]].
      rewrite parent_snoc. exact Hr.
    + apply dir_rename_source in Hin. rewrite Hin.
      now apply protected_parent.
Qed.

(** C6 (as the code has it).  The content rewriter leaves everything below
    a protected directory as it is, and the renamer never computes a rename
    whose source lies inside a protected directory.  (Clean-up and demo
    removal delete whole subtrees, and a renamed directory moves with all
    it holds.) *)
Theorem protected_directories_are_skipped :
  forall (env : Env) (names : NameVariants) replacements dry (t : node),
    (forall p, protected (parent p) = true ->
               lookup p (tree (replace_in_files replacements dry t)) =
               lookup p t) /\
    (forall item, In item (paths_to_rename env names t) ->
                  protected (parent (fst item)) = false).
Proof.
  intros env names replacements dry t. split.
  - intros p Hp. unfold replace_in_files. cbn [tree].
    now apply walk_replace_skips_protected.
  - intros item Hin. unfold paths_to_rename in Hin.
    eapply collect_unprotected; eassumption.
Qed.

(** C6, as stated, fails: removing the demo directory [tests/sanity] takes
    the [__pycache__] below it along. *)
Lemma protected_file_removed :
  protected (parent ["tests"; "sanity"; "__pycache__"; "t.pyc"]) = true /\
  lookup ["tests"; "sanity"; "__pycache__"; "t.pyc"] sample_tree =
    Some (File None) /\
  ending (scaffold sample_env (sample_args false 1337) sample_tree) =
    Returned tt /\
  lookup ["tests"; "sanity"; "__pycache__"; "t.pyc"]
    (tree (scaffold sample_env (sample_args false 1337) sample_tree)) = None.
Proof. repeat split; vm_compute; reflexivity. Qed.

Lemma protected_directories_are_skipped_witness :
  lookup [".git"; "config"]
    (tree (replace_in_files (build_replacements (variants "kbe-pay")) false
             sample_tree)) =
  lookup [".git"; "config"] sample_tree.
Proof.
  apply (protected_directories_are_skipped sample_env (variants "kbe-pay")
           (build_replacements (variants "kbe-pay")) false sample_tree).
  reflexivity.
Defined.

(* ================================================================== *)
(** * Facts about [in] and [replace] on strings *)
(* ================================================================== *)

Section StringFacts.

Lemma prefix_nil s : prefix EmptyString s = true.
Proof. destruct s; reflexivity. Qed.

Lemma prefix_cons c w c' s :
  prefix (String c w) (String c' s) = Ascii.eqb c c' && prefix w s.
Proof.
  simpl. destruct (ascii_dec c c') as [->|Hne].
  - now rewrite Ascii.eqb_refl.
  - apply Ascii.eqb_neq in Hne. now rewrite Hne.
Qed.

Lemma prefix_app w r : prefix w (w ++ r) = true.
Proof.
  induction w as [|c w IH]; [apply prefix_nil|].
  cbn [String.append]. rewrite prefix_cons, Ascii.eqb_refl. exact IH.
Qed.

Lemma prefix_split w s : prefix w s = true -> exists r, s = w ++ r.
Proof.
  revert s. induction w as [|c w IH]; intros s H; [now exists s|].
  destruct s as [|c' s]; [discriminate H|].
  rewrite prefix_cons in H. apply andb_prop in H. destruct H as [Hc Hw].
  apply Ascii.eqb_eq in Hc. subst c'. destruct (IH _ Hw) as [r ->].
  now exists r.
Qed.

Lemma append_assoc (a b c : string) : (a ++ b) ++ c = a ++ (b ++ c).
Proof. induction a as [|x a IH]; simpl; [reflexivity | now rewrite IH]. Qed.

Lemma append_nil_r (a : string) : a ++ "" = a.
Proof. induction a as [|x a IH]; simpl; [reflexivity | now rewrite IH]. Qed.

Lemma length_append (a b : string) :
  String.length (a ++ b) = String.length a + String.length b.
Proof. induction a as [|x a IH]; simpl; [reflexivity | now rewrite IH]. Qed.

Lemma contains_cons w c s :
  Str.contains w (String c s) = prefix w (String c s) || Str.contains w s.
Proof. reflexivity. Qed.

Lemma contains_prefix w s : prefix w s = true -> Str.contains w s = true.
Proof. intros H. destruct s; simpl in *; rewrite H; reflexivity. Qed.

Lemma contains_app_r w a s :
  Str.contains w s = true -> Str.contains w (a ++ s) = true.
Proof.
  intros H. induction a as [|c a IH]; [exact H|].
  cbn [String.append]. rewrite contains_cons, IH. apply orb_true_r.
Qed.

Lemma contains_middle w a b : Str.contains w (a ++ w ++ b) = true.
Proof. apply contains_app_r, contains_prefix, prefix_app. Qed.

(** [w in s] holds exactly when [s] is [a ++ w ++ b] for some [a], [b]. *)
Lemma contains_split w s :
  Str.contains w s = true -> exists a b, s = a ++ w ++ b.
Proof.
  induction s as [|c s IH]; intros H.
  - cbn [Str.contains] in H. rewrite orb_false_r in H. apply prefix_split in H.
    destruct H as [r H]. exists "", r. exact H.
  - rewrite contains_cons in H. apply orb_prop in H. destruct H as [H|H].
    + apply prefix_split in H. destruct H as [r H]. exists "", r. exact H.
    + destruct (IH H) as [a [b ->]]. now exists (String c a), b.
Qed.

Lemma contains_trans u w s :
  Str.contains u w = true -> Str.contains w s = true ->
  Str.contains u s = true.
Proof.
  intros H1 H2. apply contains_split in H1, H2.
  destruct H1 as [a [b ->]]. destruct H2 as [a' [b' ->]].
  rewrite !append_assoc, <- append_assoc. apply contains_middle.
Qed.

Lemma replace_nonempty c old new s :
  Str.replace (String c old) new s = Str.replace_go (String c old) new 0 s.
Proof. reflexivity. Qed.

(** Without an occurrence, [replace] returns the string itself. *)
Lemma replace_absent old new s :
  Str.contains old s = false -> Str.replace old new s = s.
Proof.
  destruct old as [|c old].
  - intros H. destruct s; simpl in H; discriminate.
  - rewrite replace_nonempty. induction s as [|c' s IH]; [reflexivity|].
    rewrite contains_cons. intros H. apply orb_false_iff in H.
    destruct H as [Hp Hc]. cbn [Str.replace_go]. rewrite Hp.
    now rewrite (IH Hc).
Qed.

(** With an occurrence of a non-empty [old], the result holds [new]. *)
Lemma replace_present c old new s :
  Str.contains (String c old) s = true ->
  Str.contains new (Str.replace (String c old) new s) = true.
Proof.
  rewrite replace_nonempty. induction s as [|c' s IH].
  - simpl. discriminate.
  - rewrite contains_cons. cbn [Str.replace_go].
    destruct (prefix (String c old) (String c' s)) eqn:Hp.
    + intros _. apply contains_prefix, prefix_app.
    + cbn [orb]. intros H. rewrite contains_cons, (IH H). apply orb_true_r.
Qed.

End StringFacts.

(* ================================================================== *)
(** * Facts about trees *)
(* ================================================================== *)

Section TreeFacts.

Lemma find_update_entry x' x f es :
  find_entry x' (update_entry x f es) =
  if String.eqb x' x then option_map f (find_entry x es)
  else find_entry x' es.
Proof.
  induction es as [|[y n] es IH]; simpl.
  - now destruct (String.eqb x' x).
  - destruct (String.eqb x y) eqn:Hxy; simpl.
    + apply String.eqb_eq in Hxy. subst y.
      destruct (String.eqb x' x); reflexivity.
    + destruct (String.eqb x' y) eqn:Hy.
      * apply String.eqb_eq in Hy. subst y.
        rewrite String.eqb_sym in Hxy. now rewrite Hxy.
      * exact IH.
Qed.

Lemma find_entry_app x es es' :
  find_entry x (es ++ es')%list =
  match find_entry x es with
  | Some c => Some c
  | None => find_entry x es'
  end.
Proof.
  induction es as [|[y n] es IH]; simpl; [reflexivity|].
  destruct (String.eqb x y); [reflexivity | exact IH].
Qed.

Lemma find_set_entry x' x n es :
  find_entry x' (set_entry x n es) =
  if String.eqb x' x then Some n else find_entry x' es.
Proof.
  unfold set_entry. destruct (find_entry x es) as [c|] eqn:Hx.
  - rewrite find_update_entry, Hx. reflexivity.
  - rewrite find_entry_app. simpl.
    destruct (String.eqb x' x) eqn:Hx'.
    + apply String.eqb_eq in Hx'. subst x'. now rewrite Hx.
    + now destruct (find_entry x' es).
Qed.

Lemma find_remove_entry x' x es :
  find_entry x' (remove_entry x es) =
  if String.eqb x' x then None else find_entry x' es.
Proof.
  unfold remove_entry. induction es as [|[y n] es IH]; simpl.
  - now destruct (String.eqb x' x).
  - destruct (String.eqb x y) eqn:Hxy; simpl.
    + apply String.eqb_eq in Hxy. subst y. rewrite IH.
      now destruct (String.eqb x' x).
    + destruct (String.eqb x' y) eqn:Hy; [|exact IH].
      apply String.eqb_eq in Hy. subst y.
      rewrite String.eqb_sym in Hxy. now rewrite Hxy.
Qed.

Lemma is_prefix_refl p : is_prefix p p = true.
Proof. induction p; simpl; [reflexivity | now rewrite String.eqb_refl]. Qed.

Lemma is_prefix_app p r : is_prefix p (p ++ r)%list = true.
Proof. induction p; simpl; [reflexivity | now rewrite String.eqb_refl]. Qed.

Lemma is_prefix_split p q :
  is_prefix p q = true -> exists r, q = (p ++ r)%list.
Proof.
  revert q. induction p as [|x p IH]; intros q H; [now exists q|].
  destruct q as [|y q]; [discriminate H|]. simpl in H.
  apply andb_prop in H. destruct H as [Hx Hp]. apply String.eqb_eq in Hx.
  subst y. destruct (IH _ Hp) as [r ->]. now exists r.
Qed.

Lemma path_eqb_eq p q : path_eqb p q = true <-> p = q.
Proof.
  unfold path_eqb. split.
  - revert q. induction p as [|x p IH]; intros [|y q] H; simpl in H;
      try reflexivity; try discriminate.
    apply andb_prop in H. destruct H as [H1 H2].
    apply andb_prop in H1. destruct H1 as [Hx H1].
    apply andb_prop in H2. destruct H2 as [_ H2].
    apply String.eqb_eq in Hx. subst y. f_equal. apply IH.
    now rewrite H1, H2.
  - intros ->. now rewrite is_prefix_refl.
Qed.

Lemma parent_dir_cons x y p t :
  is_dir (parent (x :: y :: p)) t = true ->
  exists es c, t = Dir es /\ find_entry x es = Some c /\
               is_dir (parent (y :: p)) c = true.
Proof.
  rewrite parent_cons. unfold is_dir. cbn [lookup].
  destruct t as [text|es]; [discriminate|].
  destruct (find_entry x es) as [c|] eqn:Hc; [|discriminate].
  intros H. now exists es, c.
Qed.

Lemma parent_dir_single x t :
  is_dir (parent [x]) t = true -> exists es, t = Dir es.
Proof.
  unfold is_dir. cbn. destruct t as [text|es]; [discriminate|]. now exists es.
Qed.

Lemma remove_cons x y p es :
  remove (x :: y :: p) (Dir es) = Dir (update_entry x (remove (y :: p)) es).
Proof. reflexivity. Qed.

Lemma put_cons x y p n es :
  put (x :: y :: p) n (Dir es) = Dir (update_entry x (put (y :: p) n) es).
Proof. reflexivity. Qed.

Lemma lookup_cons x q es :
  lookup (x :: q) (Dir es) =
  match find_entry x es with Some c => lookup q c | None => None end.
Proof. reflexivity. Qed.

Lemma is_prefix_cons x p y q :
  is_prefix (x :: p) (y :: q) = String.eqb x y && is_prefix p q.
Proof. reflexivity. Qed.

(** The view of a tree after [remove]. *)
Lemma view_remove p :
  forall q t, p <> [] ->
    view q (remove p t) = if is_prefix p q then None else view q t.
Proof.
  induction p as [|x p IH]; intros q t Hp; [contradiction|].
  destruct t as [text|es].
  - assert (Hr : remove (x :: p) (File text) = File text)
      by (destruct p; reflexivity).
    rewrite Hr. destruct q as [|x' q]; [reflexivity|].
    unfold view. cbn [lookup option_map].
    now destruct (is_prefix (x :: p) (x' :: q)).
  - destruct q as [|x' q]; [destruct p; reflexivity|].
    rewrite is_prefix_cons, (String.eqb_sym x x').
    destruct p as [|y p].
    + unfold view. cbn [remove]. rewrite !lookup_cons, find_remove_entry.
      now destruct (String.eqb x' x).
    + rewrite remove_cons. unfold view in *.
      rewrite !lookup_cons, find_update_entry.
      destruct (String.eqb x' x) eqn:E; cbn [andb]; [|reflexivity].
      apply String.eqb_eq in E. subst x'.
      destruct (find_entry x es) as [c|]; cbn [option_map].
      * apply IH. discriminate.
      * now destruct (is_prefix (y :: p) q).
Qed.

(** The view of a tree after [put] into a directory that exists. *)
Lemma view_put p n :
  forall q t, p <> [] -> is_dir (parent p) t = true ->
    view q (put p n t) =
    if is_prefix p q then view (skipn (List.length p) q) n else view q t.
Proof.
  induction p as [|x p IH]; intros q t Hp Hd; [contradiction|].
  destruct p as [|y p].
  - apply parent_dir_single in Hd. destruct Hd as [es ->].
    destruct q as [|x' q]; [reflexivity|].
    rewrite is_prefix_cons, (String.eqb_sym x x').
    unfold view. cbn [put List.length skipn is_prefix].
    rewrite !lookup_cons, find_set_entry, andb_true_r.
    now destruct (String.eqb x' x).
  - apply parent_dir_cons in Hd. destruct Hd as [es [c [-> [Hc Hd]]]].
    destruct q as [|x' q]; [reflexivity|].
    rewrite is_prefix_cons, (String.eqb_sym x x'), put_cons.
    unfold view in *. rewrite !lookup_cons, find_update_entry.
    destruct (String.eqb x' x) eqn:E; cbn [andb]; [|reflexivity].
    apply String.eqb_eq in E. subst x'.
    rewrite Hc. cbn [option_map]. rewrite (IH q c); [|discriminate|exact Hd].
    reflexivity.
Qed.

Lemma lookup_put_below p n :
  forall r t, p <> [] -> is_dir (parent p) t = true ->
    lookup (p ++ r)%list (put p n t) = lookup r n.
Proof.
  induction p as [|x p IH]; intros r t Hp Hd; [contradiction|].
  destruct p as [|y p].
  - apply parent_dir_single in Hd. destruct Hd as [es ->].
    cbn [put app]. now rewrite lookup_cons, find_set_entry, String.eqb_refl.
  - apply parent_dir_cons in Hd. destruct Hd as [es [c [-> [Hc Hd]]]].
    change ((x :: y :: p) ++ r)%list with (x :: ((y :: p) ++ r))%list.
    rewrite put_cons, lookup_cons, find_update_entry, String.eqb_refl, Hc.
    cbn [option_map]. apply IH; [discriminate | exact Hd].
Qed.

Lemma lookup_parent_dir p :
  forall t n, p <> [] -> lookup p t = Some n -> is_dir (parent p) t = true.
Proof.
  induction p as [|x p IH]; intros t n Hp Hl; [contradiction|].
  destruct t as [text|es]; [discriminate Hl|].
  destruct p as [|y p]; [reflexivity|].
  rewrite parent_cons. unfold is_dir in *. cbn [lookup] in *.
  destruct (find_entry x es) as [c|]; [|discriminate Hl].
  apply (IH c n); [discriminate | exact Hl].
Qed.

End TreeFacts.

(* ================================================================== *)
(** * The port override *)
(* ================================================================== *)

Lemma bind_returned_inv {A B} (m : M A) (k : A -> M B) t b :
  ending (bind m k t) = Returned b ->
  exists a, ending (m t) = Returned a /\
            ending (k a (tree (m t))) = Returned b /\
            tree (bind m k t) = tree (k a (tree (m t))).
Proof.
  unfold bind. destruct (ending (m t)) as [a| |]; cbn [ending tree];
    try discriminate.
  intros H. exists a. auto.
Qed.

Lemma lookup_app p :
  forall r t,
    lookup (p ++ r)%list t =
    match lookup p t with Some n => lookup r n | None => None end.
Proof.
  induction p as [|x p IH]; intros r t; [reflexivity|].
  destruct t as [text|es]; [reflexivity|].
  cbn [app]. rewrite !lookup_cons.
  destruct (find_entry x es) as [c|]; [apply IH | reflexivity].
Qed.

Lemma file_at_view q t :
  file_at q t =
  match view q t with Some (Some text) => Some text | _ => None end.
Proof.
  unfold file_at, view. now destruct (lookup q t) as [[text|es]|].
Qed.

Lemma skipn_length_app {A} (p r : list A) : skipn (List.length p) (p ++ r) = r.
Proof. induction p; simpl; auto. Qed.

(** Writing a file that exists changes that file only. *)
Lemma file_at_put_file p q text0 text1 t :
  p <> [] -> lookup p t = Some (File text0) ->
  file_at q (put p (File text1) t) =
  if path_eqb q p then Some text1 else file_at q t.
Proof.
  intros Hp Hl. rewrite !file_at_view.
  rewrite view_put; [|exact Hp|eapply lookup_parent_dir; eassumption].
  destruct (is_prefix p q) eqn:Hpq.
  - apply is_prefix_split in Hpq. destruct Hpq as [r ->].
    rewrite skipn_length_app. unfold view at 2. rewrite lookup_app, Hl.
    destruct r as [|y r].
    + rewrite app_nil_r.
      assert (H : path_eqb p p = true) by now apply path_eqb_eq.
      now rewrite H.
    + destruct (path_eqb (p ++ y :: r)%list p) eqn:He; [|reflexivity].
      apply path_eqb_eq in He. rewrite <- (app_nil_r p) in He at 2.
      apply app_inv_head in He. discriminate.
  - destruct (path_eqb q p) eqn:He; [|reflexivity].
    apply path_eqb_eq in He. subst q. now rewrite is_prefix_refl in Hpq.
Qed.

Lemma rewrite_literal_returned p old new t :
  ending (rewrite_literal p old new t) = Returned tt ->
  exists text,
    lookup p t = Some (File (Some text)) /\
    tree (rewrite_literal p old new t) =
    put p (File (Some (Str.replace old new text))) t.
Proof.
  unfold rewrite_literal, bind, read_text.
  destruct (lookup p t) as [[[text|]|es]|]; cbn; try discriminate.
  intros _. now exists text.
Qed.

Lemma in_paths_In q l : in_paths q l = true <-> In q l.
Proof.
  unfold in_paths. rewrite existsb_exists. split.
  - intros [p [Hp He]]. apply path_eqb_eq in He. now subst.
  - intros H. exists q. split; [exact H | now apply path_eqb_eq].
Qed.

(** The loop over the settings files: every listed file is rewritten
    once, every other file keeps its text. *)
Lemma rewrite_all old new :
  forall l t,
    NoDup l -> (forall p, In p l -> p <> []) ->
    ending (for_each (fun p => rewrite_literal p old new) l t) = Returned tt ->
    forall q c,
      file_at q t = Some c ->
      file_at q (tree (for_each (fun p => rewrite_literal p old new) l t)) =
      Some (if in_paths q l then option_map (Str.replace old new) c else c).
Proof.
  induction l as [|p l IH]; intros t Hnd Hne Hret q c Hq; [exact Hq|].
  cbn [for_each] in *. apply bind_returned_inv in Hret.
  destruct Hret as [[] [H1 [H2 ->]]].
  apply rewrite_literal_returned in H1. destruct H1 as [text [Hl Ht]].
  rewrite Ht in *. inversion Hnd as [|? ? Hnotin Hnd']; subst.
  assert (Hp : p <> []) by (apply Hne; now left).
  pose proof (file_at_put_file p q _ (Some (Str.replace old new text)) t Hp Hl)
    as Hput.
  cbn [in_paths existsb]. fold (in_paths q l).
  destruct (path_eqb q p) eqn:He.
  - apply path_eqb_eq in He. subst q.
    assert (Hc : c = Some text).
    { unfold file_at in Hq. rewrite Hl in Hq. now injection Hq as <-. }
    subst c. cbn [orb option_map].
    rewrite (IH _ Hnd' (fun p' H => Hne p' (or_intror H)) H2 p _ Hput).
    destruct (in_paths p l) eqn:Hin; [|reflexivity].
    apply in_paths_In in Hin. contradiction.
  - cbn [orb]. rewrite Hq in Hput.
    exact (IH _ Hnd' (fun p' H => Hne p' (or_intror H)) H2 q c Hput).
Qed.

Lemma mem_In x l : mem x l = true <-> In x l.
Proof.
  unfold mem. rewrite existsb_exists. split.
  - intros [y [Hy He]]. apply String.eqb_eq in He. now subst.
  - intros H. exists x. split; [exact H | apply String.eqb_refl].
Qed.

Lemma nodupb_NoDup l : nodupb l = true <-> NoDup l.
Proof.
  induction l as [|x l IH]; simpl.
  - split; [constructor | reflexivity].
  - rewrite andb_true_iff, negb_true_iff, IH. split.
    + intros [H1 H2]. constructor; [|exact H2].
      intros Hin. apply mem_In in Hin. congruence.
    + intros H. inversion H as [|? ? Hn Hd]; subst. split; [|exact Hd].
      destruct (mem x l) eqn:Hm; [|reflexivity].
      apply mem_In in Hm. contradiction.
Qed.

Lemma wf_dir es :
  wf (Dir es) = true <->
  NoDup (List.map fst es) /\ (forall nm c, In (nm, c) es -> wf c = true).
Proof.
  cbn [wf]. rewrite andb_true_iff, nodupb_NoDup, forallb_forall. split.
  - intros [H1 H2]. split; [exact H1|]. intros nm c Hin. exact (H2 _ Hin).
  - intros [H1 H2]. split; [exact H1|]. intros [nm c] Hin. exact (H2 _ _ Hin).
Qed.

Lemma find_entry_In x es c : find_entry x es = Some c -> In (x, c) es.
Proof.
  induction es as [|[y n] es IH]; simpl; [discriminate|].
  destruct (String.eqb x y) eqn:Hxy.
  - apply String.eqb_eq in Hxy. subst y. intros [= ->]. now left.
  - intros H. right. now apply IH.
Qed.

Lemma In_find_entry x es c :
  NoDup (List.map fst es) -> In (x, c) es -> find_entry x es = Some c.
Proof.
  induction es as [|[y n] es IH]; simpl; intros Hnd Hin; [destruct Hin|].
  inversion Hnd as [|? ? Hn Hd]; subst.
  destruct Hin as [[= -> ->]|Hin].
  - now rewrite String.eqb_refl.
  - destruct (String.eqb x y) eqn:Hxy; [|now apply IH].
    apply String.eqb_eq in Hxy. subst y. exfalso. apply Hn.
    apply in_map_iff. now exists (x, c).
Qed.

Lemma rglob_shape pattern (n : node) :
  forall root p, In p (rglob pattern root n) ->
                 exists d, p = (root ++ d ++ [pattern])%list.
Proof.
  induction n as [text|es IH] using node_induction; intros root p Hin;
    [destruct Hin|].
  rewrite Forall_forall in IH. cbn [rglob] in Hin.
  apply in_app_or in Hin. destruct Hin as [Hin|Hin].
  - destruct (find_entry pattern es); [|destruct Hin].
    destruct Hin as [<-|[]]. now exists [].
  - apply in_concat_map in Hin. destruct Hin as [[nm c] [Hc Hin]].
    destruct (IH _ Hc _ _ Hin) as [d ->]. exists (nm :: d).
    now rewrite <- app_assoc.
Qed.

Lemma rglob_complete pattern :
  forall d n root c,
    lookup (d ++ [pattern])%list n = Some c ->
    In (root ++ d ++ [pattern])%list (rglob pattern root n).
Proof.
  induction d as [|x d IH]; intros n root c Hl;
    (destruct n as [text|es]; [discriminate Hl|]);
    cbn [app] in Hl; rewrite lookup_cons in Hl; cbn [rglob]; apply in_or_app.
  - left. destruct (find_entry pattern es); [now left | discriminate Hl].
  - right. destruct (find_entry x es) as [c'|] eqn:Hx; [|discriminate Hl].
    apply in_concat. exists (rglob pattern (root ++ [x])%list c'). split.
    + apply in_map_iff. exists (x, c'). split; [reflexivity|].
      now apply find_entry_In.
    + specialize (IH c' (root ++ [x])%list c Hl).
      now rewrite <- app_assoc in IH.
Qed.

(** Lists of paths below distinct entries of one directory do not meet. *)
Lemma NoDup_children {A} (root : path) (key : A -> path)
    (f : entry -> list A) (es : list entry) :
  NoDup (List.map fst es) ->
  (forall e, In e es -> NoDup (f e)) ->
  (forall e a, In e es -> In a (f e) ->
               exists d, key a = (root ++ fst e :: d)%list) ->
  (forall e a b, In a (f e) -> In b (f e) -> key a = key b -> a = b) ->
  NoDup (List.concat (List.map f es)) /\
  (forall a b, In a (List.concat (List.map f es)) ->
               In b (List.concat (List.map f es)) -> key a = key b -> a = b).
Proof.
  induction es as [|e es IH]; intros Hnd Hf Hkey Hinj; simpl.
  - split; [constructor | intros a b []].
  - inversion Hnd as [|? ? Hn Hd]; subst.
    destruct IH as [IH1 IH2]; auto; try (intros; eapply Hkey; eauto; now right).
    { intros e' He'. apply Hf. now right. }
    assert (Hsep : forall a b, In a (f e) ->
               In b (List.concat (List.map f es)) -> key a <> key b).
    { intros a b Ha Hb Hab. apply in_concat_map in Hb.
      destruct Hb as [e' [He' Hb]].
      destruct (Hkey e a (or_introl eq_refl) Ha) as [d Hd1].
      destruct (Hkey e' b (or_intror He') Hb) as [d' Hd2].
      rewrite Hd1, Hd2 in Hab. apply app_inv_head in Hab.
      injection Hab as Hab _. apply Hn. rewrite Hab.
      apply in_map. exact He'. }
    split.
    + apply NoDup_app; [apply Hf; now left | exact IH1 |].
      intros a Ha Hb. exact (Hsep a a Ha Hb eq_refl).
    + intros a b Ha Hb Hab. apply in_app_or in Ha, Hb.
      destruct Ha as [Ha|Ha], Hb as [Hb|Hb].
      * eapply Hinj; eauto.
      * exfalso. exact (Hsep a b Ha Hb Hab).
      * exfalso. exact (Hsep b a Hb Ha (eq_sym Hab)).
      * now apply IH2.
Qed.

Lemma rglob_nodup pattern (n : node) :
  forall root, wf n = true -> NoDup (rglob pattern root n).
Proof.
  induction n as [text|es IH] using node_induction; intros root Hwf;
    [constructor|].
  rewrite Forall_forall in IH. apply wf_dir in Hwf. destruct Hwf as [Hnd Hwf].
  cbn [rglob].
  destruct (NoDup_children root (fun p : path => p)
              (fun e : entry => let (nm, c) := e in
                 rglob pattern (root ++ [nm])%list c) es) as [Hc _]; auto.
  { intros [nm c] Hin. apply (IH _ Hin). exact (Hwf _ _ Hin). }
  { intros [nm c] a Hin Ha. apply rglob_shape in Ha. destruct Ha as [d ->].
    exists (d ++ [pattern])%list. now rewrite <- app_assoc. }
  apply NoDup_app; [|exact Hc|].
  - destruct (find_entry pattern es); repeat constructor. intros [].
  - intros a Ha Hb. destruct (find_entry pattern es); [|destruct Ha].
    destruct Ha as [<-|[]]. apply in_concat_map in Hb.
    destruct Hb as [[nm c] [_ Hb]]. apply rglob_shape in Hb.
    destruct Hb as [d Hd]. rewrite <- app_assoc in Hd.
    apply app_inv_head in Hd. cbn in Hd. injection Hd as _ Hd.
    destruct d; discriminate.
Qed.

(** ** Operations keep names unique *)

Lemma map_fst_update_entry x f es :
  List.map fst (update_entry x f es) = List.map fst es.
Proof.
  induction es as [|[y n] es IH]; simpl; [reflexivity|].
  destruct (String.eqb x y); simpl; [reflexivity | now rewrite IH].
Qed.

Lemma In_update_entry x f es nm c' :
  In (nm, c') (update_entry x f es) ->
  exists c, In (nm, c) es /\ (c' = c \/ c' = f c).
Proof.
  induction es as [|[y n] es IH]; simpl; [intros []|].
  destruct (String.eqb x y); simpl.
  - intros [[= <- <-]|Hin]; [exists n | exists c']; auto.
  - intros [[= <- <-]|Hin]; [exists n; auto|].
    destruct (IH Hin) as [c [H1 H2]]. exists c. auto.
Qed.

Lemma wf_update_entry x f es :
  wf (Dir es) = true -> (forall c, wf c = true -> wf (f c) = true) ->
  wf (Dir (update_entry x f es)) = true.
Proof.
  rewrite !wf_dir, map_fst_update_entry. intros [Hnd Hwf] Hf.
  split; [exact Hnd|]. intros nm c' Hin.
  apply In_update_entry in Hin. destruct Hin as [c [Hc [->| ->]]].
  - exact (Hwf _ _ Hc).
  - apply Hf. exact (Hwf _ _ Hc).
Qed.

Lemma find_entry_none x es :
  find_entry x es = None -> ~ In x (List.map fst es).
Proof.
  induction es as [|[y n] es IH]; simpl; [intros _ []|].
  destruct (String.eqb x y) eqn:Hxy; [discriminate|].
  intros H [Hy|Hin]; [|now apply IH].
  subst y. now rewrite String.eqb_refl in Hxy.
Qed.

Lemma wf_set_entry x n es :
  wf (Dir es) = true -> wf n = true -> wf (Dir (set_entry x n es)) = true.
Proof.
  intros Hwf Hn. unfold set_entry.
  destruct (find_entry x es) as [c|] eqn:Hx.
  - apply wf_update_entry; auto.
  - apply find_entry_none in Hx. apply wf_dir in Hwf. destruct Hwf as [Hnd Hwf].
    apply wf_dir. rewrite List.map_app. split.
    + apply NoDup_app; [exact Hnd | repeat constructor; intros [] |].
      intros a Ha [<-|[]]. contradiction.
    + intros nm c Hin. apply in_app_or in Hin.
      destruct Hin as [Hin|[[= <- <-]|[]]]; [exact (Hwf _ _ Hin) | exact Hn].
Qed.

Lemma wf_remove_entry x es :
  wf (Dir es) = true -> wf (Dir (remove_entry x es)) = true.
Proof.
  rewrite !wf_dir. intros [Hnd Hwf]. unfold remove_entry. split.
  - induction es as [|[y n] es IH]; simpl; [constructor|].
    inversion Hnd as [|? ? Hn Hd]; subst.
    assert (Hrest : NoDup (List.map fst
              (filter (fun e => negb (String.eqb x (fst e))) es))).
    { apply IH; [exact Hd|]. intros nm c Hin. apply (Hwf nm c). now right. }
    destruct (negb (String.eqb x y)); simpl; [|exact Hrest].
    constructor; [|exact Hrest]. intros Hin. apply Hn.
    apply in_map_iff in Hin. destruct Hin as [e [He Hin]].
    apply filter_In in Hin. apply in_map_iff. exists e. tauto.
  - intros nm c Hin. apply filter_In in Hin. exact (Hwf _ _ (proj1 Hin)).
Qed.

Lemma wf_put p n :
  forall t, wf t = true -> wf n = true -> wf (put p n t) = true.
Proof.
  induction p as [|x p IH]; intros t Ht Hn; [exact Hn|].
  destruct t as [text|es]; [destruct p; exact Ht|].
  destruct p as [|y p].
  - cbn [put]. now apply wf_set_entry.
  - rewrite put_cons. apply wf_update_entry; auto.
Qed.

Lemma wf_remove p :
  forall t, wf t = true -> wf (remove p t) = true.
Proof.
  induction p as [|x p IH]; intros t Ht; [exact Ht|].
  destruct t as [text|es]; [destruct p; exact Ht|].
  destruct p as [|y p].
  - cbn [remove]. now apply wf_remove_entry.
  - rewrite remove_cons. apply wf_update_entry; auto.
Qed.

Lemma wf_lookup p :
  forall t n, wf t = true -> lookup p t = Some n -> wf n = true.
Proof.
  induction p as [|x p IH]; intros t n Ht Hl; [now injection Hl as <-|].
  destruct t as [text|es]; [discriminate Hl|]. rewrite lookup_cons in Hl.
  destruct (find_entry x es) as [c|] eqn:Hx; [|discriminate Hl].
  apply (IH c); [|exact Hl]. apply wf_dir in Ht.
  apply (proj2 Ht x c). now apply find_entry_In.
Qed.

(** ** What the port override does to each file *)

Lemma file_at_exists q t c : file_at q t = Some c -> exists_ q t = true.
Proof.
  unfold file_at, exists_. destruct (lookup q t) as [[text|es]|];
    [reflexivity | discriminate | discriminate].
Qed.

Lemma rewrite_optional p old new t :
  p <> [] ->
  ending (when (exists_ p t) (rewrite_literal p old new) t) = Returned tt ->
  (wf t = true ->
   wf (tree (when (exists_ p t) (rewrite_literal p old new) t)) = true) /\
  forall q c,
    file_at q t = Some c ->
    file_at q (tree (when (exists_ p t) (rewrite_literal p old new) t)) =
    Some (if path_eqb q p then option_map (Str.replace old new) c else c).
Proof.
  intros Hp Hret. destruct (exists_ p t) eqn:Hex; cbn [when] in *.
  - apply rewrite_literal_returned in Hret. destruct Hret as [text [Hl ->]].
    split; [intros Hwf; now apply wf_put|].
    intros q c Hq. rewrite (file_at_put_file p q _ _ t Hp Hl).
    destruct (path_eqb q p) eqn:He; [|exact Hq].
    apply path_eqb_eq in He. subst q. unfold file_at in Hq. rewrite Hl in Hq.
    now injection Hq as <-.
  - split; [trivial|]. intros q c Hq. cbn [ret tree].
    destruct (path_eqb q p) eqn:He; [|exact Hq].
    apply path_eqb_eq in He. subst q. apply file_at_exists in Hq. congruence.
Qed.

Lemma in_rglob pattern q t n :
  pattern <> EmptyString ->
  lookup q t = Some n ->
  in_paths q (rglob pattern [] t) = String.eqb (last q EmptyString) pattern.
Proof.
  intros Hpat Hl. destruct q as [|x q] using rev_ind.
  - cbn [last]. destruct (String.eqb "" pattern) eqn:He.
    + apply String.eqb_eq in He. now subst.
    + destruct (in_paths [] (rglob pattern [] t)) eqn:Hin; [|reflexivity].
      apply in_paths_In in Hin. apply rglob_shape in Hin.
      destruct Hin as [[|y d] Hd]; discriminate.
  - clear IHq. rewrite last_last.
    destruct (String.eqb x pattern) eqn:Hx.
    + apply String.eqb_eq in Hx. subst x. apply in_paths_In.
      exact (rglob_complete pattern q t [] n Hl).
    + destruct (in_paths (q ++ [x])%list (rglob pattern [] t)) eqn:Hin;
        [|reflexivity].
      apply in_paths_In in Hin. apply rglob_shape in Hin. destruct Hin as [d Hd].
      cbn [app] in Hd. apply app_inj_tail in Hd. destruct Hd as [_ ->].
      now rewrite String.eqb_refl in Hx.
Qed.

Lemma file_at_lookup q t c : file_at q t = Some c -> lookup q t = Some (File c).
Proof.
  unfold file_at. destruct (lookup q t) as [[text|es]|]; try discriminate.
  now intros [= ->].
Qed.

Lemma run_script_not_settings a b :
  last ["sbin"; "run_" ++ a ++ b] EmptyString <> "settings.py".
Proof. cbn. discriminate. Qed.

Lemma update_port_files names port t :
  wf t = true ->
  ending (update_port names port t) = Returned tt ->
  forall q c,
    file_at q t = Some c ->
    file_at q (tree (update_port names port t)) =
    Some (match port_literal names q with
          | Some (old, pre) =>
              option_map (Str.replace old (pre ++ Str.of_Z port)) c
          | None => c
          end).
Proof.
  intros Hwf Hret q c Hq. unfold update_port in *.
  apply bind_returned_inv in Hret. destruct Hret as [t0 [H0 [Hret ->]]].
  cbn in H0. injection H0 as <-. cbn [get_tree tree] in *.
  apply bind_returned_inv in Hret. destruct Hret as [[] [HA [Hret ->]]].
  destruct (rewrite_optional ["Makefile"] _ _ t ltac:(discriminate) HA)
    as [HwfA HfA].
  specialize (HwfA Hwf). specialize (HfA q c Hq).
  set (tA := tree (when (exists_ ["Makefile"] t)
                     (rewrite_literal ["Makefile"] "CHAINLIT_PORT = 1337"
                        ("CHAINLIT_PORT = " ++ Str.of_Z port)) t)) in *.
  apply bind_returned_inv in Hret. destruct Hret as [t1 [H1 [Hret ->]]].
  cbn in H1. injection H1 as <-. cbn [get_tree tree] in *.
  apply bind_returned_inv in Hret. destruct Hret as [[] [HB [Hret ->]]].
  pose proof (rewrite_all "default=1337" ("default=" ++ Str.of_Z port)
                (rglob "settings.py" [] tA) tA (rglob_nodup _ _ [] HwfA)) as HfB.
  specialize (HfB (fun p Hin Hp => ltac:(
    apply rglob_shape in Hin; destruct Hin as [d Hd]; subst p;
    destruct d; discriminate)) HB q _ HfA).
  set (tB := tree (for_each
                (fun p => rewrite_literal p "default=1337"
                            ("default=" ++ Str.of_Z port))
                (rglob "settings.py" [] tA) tA)) in *.
  apply bind_returned_inv in Hret. destruct Hret as [t2 [H2 [Hret ->]]].
  cbn in H2. injection H2 as <-. cbn [get_tree tree] in *.
  apply bind_returned_inv in Hret. destruct Hret as [[] [HC [_ ->]]].
  destruct (rewrite_optional ["sbin"; "run_" ++ snake_name names ++ ".sh"]
              _ _ tB ltac:(discriminate) HC) as [_ HfC].
  specialize (HfC q _ HfB). cbn [print emit tree]. rewrite HfC. f_equal.
  unfold port_literal.
  rewrite (in_rglob "settings.py" q tA _ ltac:(discriminate)
             (file_at_lookup _ _ _ HfA)).
  clear HfA HfB HfC.
  destruct (path_eqb q ["Makefile"]) eqn:Hm.
  - apply path_eqb_eq in Hm. subst q. cbn. reflexivity.
  - destruct (String.eqb (last q EmptyString) "settings.py") eqn:Hs.
    + destruct (path_eqb q ["sbin"; "run_" ++ snake_name names ++ ".sh"])
        eqn:Hr; [|reflexivity].
      apply path_eqb_eq in Hr. subst q. apply String.eqb_eq in Hs.
      now apply run_script_not_settings in Hs.
    + now destruct (path_eqb q ["sbin"; "run_" ++ snake_name names ++ ".sh"]).
Qed.

Lemma rewritten_replace c old new text :
  rewritten (String c old) new text (Str.replace (String c old) new text).
Proof.
  split; [reflexivity|]. split.
  - apply replace_present.
  - apply replace_absent.
Qed.

(** The override alone.  When it runs to its end on a tree with unique
    names: every readable [settings.py] in the tree at that moment, the
    [Makefile] and the run script of the project have their literal
    replaced by the one with the new port (so they hold the new literal if
    they held the old one, and are unchanged if they did not), and every
    other file keeps its text. *)
Lemma update_port_rewrites :
  forall (names : NameVariants) (port : Z) (t : node),
    wf t = true ->
    ending (update_port names port t) = Returned tt ->
    let t' := tree (update_port names port t) in
    let run_script := ["sbin"; "run_" ++ snake_name names ++ ".sh"] in
    (forall q text,
        last q EmptyString = "settings.py" ->
        file_at q t = Some (Some text) ->
        exists text', file_at q t' = Some (Some text') /\
          rewritten "default=1337" ("default=" ++ Str.of_Z port) text text') /\
    (forall text,
        file_at ["Makefile"] t = Some (Some text) ->
        exists text', file_at ["Makefile"] t' = Some (Some text') /\
          rewritten "CHAINLIT_PORT = 1337"
                    ("CHAINLIT_PORT = " ++ Str.of_Z port) text text') /\
    (forall text,
        file_at run_script t = Some (Some text) ->
        exists text', file_at run_script t' = Some (Some text') /\
          rewritten "PORT:-1337" ("PORT:-" ++ Str.of_Z port) text text') /\
    (forall q c,
        file_at q t = Some c ->
        q <> ["Makefile"] -> last q EmptyString <> "settings.py" ->
        q <> run_script ->
        file_at q t' = Some c).
Proof.
  intros names port t Hwf Hret t' run_script.
  pose proof (update_port_files names port t Hwf Hret) as H. fold t' in H.
  repeat split.
  - intros q text Hlast Hq. specialize (H q _ Hq). unfold port_literal in H.
    destruct (path_eqb q ["Makefile"]) eqn:Hm.
    { apply path_eqb_eq in Hm. subst q. discriminate Hlast. }
    rewrite Hlast, String.eqb_refl in H. cbn [option_map] in H.
    eexists. split; [exact H | apply rewritten_replace].
  - intros text Hq. specialize (H _ _ Hq). cbn in H.
    eexists. split; [exact H | apply rewritten_replace].
  - intros text Hq. specialize (H _ _ Hq). unfold port_literal in H.
    assert (Hr : path_eqb run_script run_script = true) by now apply path_eqb_eq.
    fold run_script in H. rewrite Hr in H. cbn in H.
    eexists. split; [exact H | apply rewritten_replace].
  - intros q c Hq Hm Hs Hr. specialize (H q c Hq). unfold port_literal in H.
    destruct (path_eqb q ["Makefile"]) eqn:Em.
    { apply path_eqb_eq in Em. contradiction. }
    destruct (String.eqb (last q EmptyString) "settings.py") eqn:Es.
    { apply String.eqb_eq in Es. contradiction. }
    fold run_script in H. destruct (path_eqb q run_script) eqn:Er.
    { apply path_eqb_eq in Er. contradiction. }
    exact H.
Qed.

(** C7, as stated, fails: a settings file inside a demo domain holds the
    default port before a completed run with [--port 8080] and is gone
    after it. *)
Lemma settings_file_removed_with_demo :
  file_at demo_settings demo_settings_tree = Some (Some "port default=1337") /\
  Str.contains "default=1337" "port default=1337" = true /\
  ending (scaffold sample_env (sample_args false 8080) demo_settings_tree) =
    Returned tt /\
  file_at demo_settings
    (tree (scaffold sample_env (sample_args false 8080) demo_settings_tree)) =
    None.
Proof. repeat split; vm_compute; reflexivity. Qed.

(** The search for settings files does not prune protected directories. *)
Remark port_override_enters_protected :
  file_at [".venv"; "settings.py"]
    (tree (update_port (variants "kbe-pay") 8080
             (Dir [(".venv", Dir [("settings.py",
                                   File (Some "default=1337"))])]))) =
  Some (Some "default=8080").
Proof. vm_compute. reflexivity. Qed.

(* ================================================================== *)
(** * Characters of names and of the replacement table *)
(* ================================================================== *)

Section CharFacts.

Lemma all_chars_app P a b :
  all_chars P (a ++ b) = all_chars P a && all_chars P b.
Proof.
  induction a as [|c a IH]; simpl; [reflexivity|].
  now rewrite IH, andb_assoc.
Qed.

Lemma all_chars_weaken (P Q : ascii -> bool) s :
  (forall c, P c = true -> Q c = true) ->
  all_chars P s = true -> all_chars Q s = true.
Proof.
  intros HPQ. induction s as [|c s IH]; simpl; [trivial|].
  intros H. apply andb_prop in H. destruct H as [H1 H2].
  now rewrite (HPQ _ H1), (IH H2).
Qed.

(** An occurrence is made of characters of the string it occurs in. *)
Lemma contains_chars P w s :
  Str.contains w s = true -> all_chars P s = true -> all_chars P w = true.
Proof.
  intros Hc Hs. apply contains_split in Hc. destruct Hc as [a [b ->]].
  rewrite !all_chars_app in Hs. apply andb_prop in Hs. destruct Hs as [_ Hs].
  apply andb_prop in Hs. apply Hs.
Qed.

Lemma prefix_before_separator c w :
  all_chars (differs c) w = true ->
  forall a b, prefix w (a ++ String c b) = true -> prefix w a = true.
Proof.
  induction w as [|x w IH]; intros Hw a b H; [apply prefix_nil|].
  cbn [all_chars] in Hw. apply andb_prop in Hw. destruct Hw as [Hx Hw].
  destruct a as [|y a]; cbn [String.append] in H; rewrite prefix_cons in *;
    apply andb_prop in H; destruct H as [H1 H2].
  - unfold differs in Hx. rewrite H1 in Hx. discriminate.
  - rewrite H1. exact (IH Hw a b H2).
Qed.

(** An occurrence of [w] cannot straddle a character that [w] lacks. *)
Lemma contains_separator c w a b :
  all_chars (differs c) w = true ->
  Str.contains w (a ++ String c b) = true ->
  Str.contains w a = true \/ Str.contains w b = true.
Proof.
  intros Hw. induction a as [|x a IH]; cbn [String.append];
    rewrite contains_cons; intros H; apply orb_prop in H.
  - destruct H as [H|H]; [|now right]. left.
    apply contains_prefix. exact (prefix_before_separator c w Hw "" b H).
  - destruct H as [H|H].
    + left. apply contains_prefix.
      exact (prefix_before_separator c w Hw (String x a) b H).
    + destruct (IH H) as [H'|H']; [left | now right].
      rewrite contains_cons, H'. apply orb_true_r.
Qed.

Lemma contains_app_l w s b :
  Str.contains w s = true -> Str.contains w (s ++ b) = true.
Proof.
  intros H. apply contains_split in H. destruct H as [a [c ->]].
  rewrite !append_assoc. apply contains_middle.
Qed.

Lemma contains_absent_chars P w s :
  all_chars P s = true -> all_chars P w = false -> Str.contains w s = false.
Proof.
  intros Hs Hw. destruct (Str.contains w s) eqn:Hc; [|reflexivity].
  now rewrite (contains_chars P w s Hc Hs) in Hw.
Qed.

Lemma all_chars_map P f s :
  (forall c, P (f c) = true) -> all_chars P (Str.map f s) = true.
Proof.
  intros H. induction s as [|c s IH]; simpl; [reflexivity|].
  now rewrite H, IH.
Qed.

Lemma upper_char_not_lower c : Str.is_lower (Str.upper_char c) = false.
Proof.
  destruct c as [[] [] [] [] [] [] [] []]; reflexivity.
Qed.

End CharFacts.

Lemma re_tail_chars s :
  forall st, re_tail st s = true -> all_chars name_char s = true.
Proof.
  induction s as [|c s IH]; intros st H; [reflexivity|].
  cbn [re_tail all_chars] in *. unfold name_char at 1.
  destruct (is_seg_char c); cbn [orb andb].
  - exact (IH _ H).
  - destruct st; [|discriminate H].
    destruct (Ascii.eqb c hyphen); cbn [orb andb]; [exact (IH _ H)|].
    apply andb_prop in H. destruct H as [H1 H2]. rewrite H1.
    apply String.eqb_eq in H2. now subst s.
Qed.

Lemma re_match_chars nm : re_match nm = true -> all_chars name_char nm = true.
Proof.
  destruct nm as [|c s]; [discriminate|]. cbn [re_match all_chars].
  intros H. apply andb_prop in H. destruct H as [H1 H2].
  unfold name_char at 1, is_seg_char. rewrite H1. cbn [orb andb].
  exact (re_tail_chars _ _ H2).
Qed.

(** ** The snake-case form as a character map *)

Lemma snake_is_map s : Str.replace "-" "_" s = Str.map snake_char s.
Proof.
  rewrite replace_nonempty. induction s as [|c s IH]; [reflexivity|].
  cbn [Str.replace_go Str.map]. rewrite prefix_cons, prefix_nil, andb_true_r.
  unfold snake_char at 1. rewrite (Ascii.eqb_sym c hyphen). unfold hyphen.
  destruct (Ascii.eqb "-"%char c); cbn [String.length Nat.sub String.append];
    now rewrite IH.
Qed.

(** A character map that only touches characters foreign to [w], and only
    produces such characters, does not change where [w] occurs. *)
Lemma prefix_map f w :
  (forall c, stable f w c = true) ->
  forall u, all_chars (fun x => negb (all_chars (differs x) w)) u = true ->
  forall s, prefix u (Str.map f s) = prefix u s.
Proof.
  intros Hf. induction u as [|x u IH]; intros Hu s;
    [now rewrite !prefix_nil|].
  cbn [all_chars] in Hu. apply andb_prop in Hu. destruct Hu as [Hx Hu].
  destruct s as [|c s]; [reflexivity|]. cbn [Str.map].
  rewrite !prefix_cons, (IH Hu). f_equal.
  specialize (Hf c). unfold stable in Hf. apply orb_prop in Hf.
  destruct Hf as [Hf|Hf]; [apply Ascii.eqb_eq in Hf; now rewrite Hf|].
  apply andb_prop in Hf. destruct Hf as [H1 H2].
  assert (Hne : forall y, all_chars (differs y) w = true ->
                          Ascii.eqb x y = false).
  { intros y Hy. destruct (Ascii.eqb x y) eqn:E; [|reflexivity].
    apply Ascii.eqb_eq in E. subst y. now rewrite Hy in Hx. }
  now rewrite (Hne _ H1), (Hne _ H2).
Qed.

Lemma all_chars_self w :
  all_chars (fun x => negb (all_chars (differs x) w)) w = true.
Proof.
  assert (H : forall u v, all_chars
            (fun x => negb (all_chars (differs x) (u ++ v))) v = true).
  { intros u v. revert u. induction v as [|c v IH]; intros u; [reflexivity|].
    cbn [all_chars]. rewrite all_chars_app. cbn [all_chars]. unfold differs at 2.
    rewrite Ascii.eqb_refl. cbn [negb andb]. rewrite andb_false_r.
    cbn [negb andb].
    specialize (IH (u ++ String c "")). now rewrite append_assoc in IH. }
  exact (H "" w).
Qed.

Lemma contains_map f w s :
  (forall c, stable f w c = true) ->
  Str.contains w (Str.map f s) = Str.contains w s.
Proof.
  intros Hf. induction s as [|c s IH].
  - cbn [Str.map]. reflexivity.
  - change (Str.map f (String c s)) with (String (f c) (Str.map f s)).
    rewrite !contains_cons, IH. f_equal.
    exact (prefix_map f w Hf w (all_chars_self w) (String c s)).
Qed.

Lemma snake_stable c : stable snake_char template_token c = true.
Proof. destruct c as [[] [] [] [] [] [] [] []]; reflexivity. Qed.

Lemma snake_contains nm :
  Str.contains template_token (Str.replace "-" "_" nm) =
  Str.contains template_token nm.
Proof. rewrite snake_is_map. apply contains_map, snake_stable. Qed.

(** ** The capitalised forms in one pass *)

Lemma join_cons sep p ps :
  Str.join sep (List.map Str.capitalize (p :: ps)) =
  Str.capitalize p ++ join_rest sep ps.
Proof.
  destruct ps as [|q ps]; cbn [List.map Str.join String.concat join_rest].
  - now rewrite append_nil_r.
  - reflexivity.
Qed.

Lemma caps_split sep s :
  match Str.split hyphen s with
  | [] => False
  | p :: ps =>
      caps sep true s = Str.capitalize p ++ join_rest sep ps /\
      caps sep false s = Str.lower p ++ join_rest sep ps
  end.
Proof.
  induction s as [|c s IH]; [split; reflexivity|].
  cbn [Str.split caps]. destruct (Ascii.eqb c hyphen).
  - destruct (Str.split hyphen s) as [|p ps]; [destruct IH|].
    destruct IH as [IH _]. cbn [Str.capitalize Str.lower Str.map String.append].
    rewrite IH. unfold join_rest at 2 4. rewrite join_cons. auto.
  - destruct (Str.split hyphen s) as [|p ps]; [destruct IH|].
    destruct IH as [_ IH]. rewrite IH. split; reflexivity.
Qed.

Lemma pascal_is_caps nm : pascal_name (variants nm) = caps "" true nm.
Proof.
  cbn [pascal_name variants]. pose proof (caps_split "" nm) as H.
  destruct (Str.split hyphen nm) as [|p ps]; [destruct H|].
  rewrite join_cons. symmetry. apply H.
Qed.

Lemma display_is_caps nm : display_name (variants nm) = caps " " true nm.
Proof.
  cbn [display_name variants]. pose proof (caps_split " " nm) as H.
  destruct (Str.split hyphen nm) as [|p ps]; [destruct H|].
  rewrite join_cons. symmetry. apply H.
Qed.

(** ** Where the token can occur in the capitalised forms *)

Lemma name_char_lower c : name_char c = true -> Str.lower_char c = c.
Proof. destruct c as [[] [] [] [] [] [] [] []]; try reflexivity; discriminate. Qed.

Lemma name_char_upper_back c :
  name_char c = true -> Str.is_upper (Str.upper_char c) = true ->
  Str.lower_char (Str.upper_char c) = c.
Proof. destruct c as [[] [] [] [] [] [] [] []]; try reflexivity; discriminate. Qed.

Lemma name_char_not_upper c : name_char c = true -> Str.is_upper c = false.
Proof. destruct c as [[] [] [] [] [] [] [] []]; try reflexivity; discriminate. Qed.

Lemma contains_skip_sep sep a w x :
  Str.is_lower a = true \/ Str.is_upper a = true ->
  all_chars plain sep = true ->
  Str.contains (String a w) (sep ++ x) = true ->
  Str.contains (String a w) x = true.
Proof.
  intros Ha. induction sep as [|c r IH]; intros Hsep H; [exact H|].
  cbn [all_chars] in Hsep. apply andb_prop in Hsep. destruct Hsep as [Hc Hr].
  cbn [String.append] in H. rewrite contains_cons, prefix_cons in H.
  destruct (Ascii.eqb a c) eqn:E.
  - apply Ascii.eqb_eq in E. subst c. apply andb_prop in Hc.
    destruct Hc as [H1 H2]. destruct Ha as [Ha|Ha]; rewrite Ha in *; discriminate.
  - cbn [andb orb] in H. exact (IH Hr H).
Qed.

Section Caps.

Variable sep : string.
Hypothesis sep_plain : all_chars plain sep = true.

Lemma sep_not_lower : all_chars not_lower sep = true.
Proof.
  apply (all_chars_weaken plain); [|exact sep_plain].
  intros c H. apply andb_prop in H. apply H.
Qed.

Lemma prefix_skip_sep a w x :
  Str.is_lower a = true -> prefix (String a w) x = false ->
  prefix (String a w) (sep ++ x) = false.
Proof.
  intros Ha Hx. pose proof sep_not_lower as Hsep.
  destruct sep as [|c r]; [exact Hx|].
  cbn [String.append]. rewrite prefix_cons.
  cbn [all_chars] in Hsep. apply andb_prop in Hsep.
  destruct Hsep as [Hc _]. unfold not_lower in Hc.
  destruct (Ascii.eqb a c) eqn:E; [|reflexivity].
  apply Ascii.eqb_eq in E. subst c. now rewrite Ha in Hc.
Qed.

(** A part never begins with a lower-case letter. *)
Lemma caps_start_not_lower a w s :
  Str.is_lower a = true -> prefix (String a w) (caps sep true s) = false.
Proof.
  intros Ha. induction s as [|c s IH]; [reflexivity|]. cbn [caps].
  destruct (Ascii.eqb c hyphen).
  - now apply prefix_skip_sep.
  - rewrite prefix_cons. destruct (Ascii.eqb a (Str.upper_char c)) eqn:E;
      [|reflexivity].
    apply Ascii.eqb_eq in E. subst a. now rewrite upper_char_not_lower in Ha.
Qed.

(** Inside a part, lower-case text is the text of the name. *)
Lemma caps_inside w :
  all_chars Str.is_lower w = true ->
  forall s, all_chars name_char s = true ->
    prefix w (caps sep false s) = true -> prefix w s = true.
Proof.
  induction w as [|a w IH]; intros Hw s Hs H; [apply prefix_nil|].
  cbn [all_chars] in Hw. apply andb_prop in Hw. destruct Hw as [Ha Hw].
  destruct s as [|c s]; [discriminate H|].
  cbn [all_chars] in Hs. apply andb_prop in Hs. destruct Hs as [Hc Hs].
  cbn [caps] in H. destruct (Ascii.eqb c hyphen).
  - rewrite (prefix_skip_sep a w _ Ha (caps_start_not_lower a w s Ha)) in H.
    discriminate H.
  - rewrite (name_char_lower c Hc) in H. rewrite prefix_cons in *.
    apply andb_prop in H. destruct H as [H1 H2]. rewrite H1.
    exact (IH Hw s Hs H2).
Qed.

(** Lower-case text found in a capitalised form is found in the name. *)
Lemma caps_contains_lower a w :
  all_chars Str.is_lower (String a w) = true ->
  forall s start, all_chars name_char s = true ->
    Str.contains (String a w) (caps sep start s) = true ->
    Str.contains (String a w) s = true.
Proof.
  intros Hw. pose proof Hw as Haw. cbn [all_chars] in Haw.
  apply andb_prop in Haw. destruct Haw as [Ha Hw'].
  induction s as [|c s IH]; intros start Hs H; [discriminate H|].
  cbn [all_chars] in Hs. apply andb_prop in Hs. destruct Hs as [Hc Hs].
  rewrite contains_cons. cbn [caps] in H. destruct (Ascii.eqb c hyphen).
  - apply contains_skip_sep in H; auto using sep_plain. rewrite (IH true Hs H).
    apply orb_true_r.
  - rewrite contains_cons in H. apply orb_prop in H. destruct H as [H|H].
    + rewrite prefix_cons in H. apply andb_prop in H. destruct H as [H1 H2].
      apply Ascii.eqb_eq in H1. destruct start.
      * subst a. now rewrite upper_char_not_lower in Ha.
      * rewrite (name_char_lower c Hc) in H1. subst a.
        rewrite prefix_cons, Ascii.eqb_refl, (caps_inside w Hw' s Hs H2).
        reflexivity.
    + rewrite (IH false Hs H). apply orb_true_r.
Qed.

(** A capital followed by lower-case text is the beginning of a part. *)
Lemma caps_contains_capital a w :
  Str.is_upper a = true -> all_chars Str.is_lower w = true ->
  forall s start, all_chars name_char s = true ->
    Str.contains (String a w) (caps sep start s) = true ->
    Str.contains (String (Str.lower_char a) w) s = true.
Proof.
  intros Ha Hw. induction s as [|c s IH]; intros start Hs H; [discriminate H|].
  cbn [all_chars] in Hs. apply andb_prop in Hs. destruct Hs as [Hc Hs].
  rewrite contains_cons. cbn [caps] in H. destruct (Ascii.eqb c hyphen).
  - apply contains_skip_sep in H; auto using sep_plain. rewrite (IH true Hs H).
    apply orb_true_r.
  - rewrite contains_cons in H. apply orb_prop in H. destruct H as [H|H].
    + rewrite prefix_cons in H. apply andb_prop in H. destruct H as [H1 H2].
      apply Ascii.eqb_eq in H1. destruct start.
      * subst a. rewrite (name_char_upper_back c Hc Ha).
        rewrite prefix_cons, Ascii.eqb_refl, (caps_inside w Hw s Hs H2).
        reflexivity.
      * rewrite (name_char_lower c Hc) in H1. subst a.
        now rewrite (name_char_not_upper c Hc) in Ha.
    + rewrite (IH false Hs H). apply orb_true_r.
Qed.

End Caps.

(* ================================================================== *)
(** * The order of the replacement table *)
(* ================================================================== *)

Lemma no_rematch_pair table :
  no_rematch table = true ->
  forall i j o n o' n',
    i < j -> nth_error table i = Some (o, n) ->
    nth_error table j = Some (o', n') ->
    Str.contains o' n = false.
Proof.
  induction table as [|[o0 n0] rest IH]; intros H i j o n o' n' Hij Hi Hj.
  - destruct i; discriminate Hi.
  - cbn [no_rematch] in H. apply andb_prop in H. destruct H as [H1 H2].
    destruct j as [|j]; [inversion Hij|]. cbn [nth_error] in Hj.
    destruct i as [|i].
    + cbn in Hi. injection Hi as -> ->. rewrite forallb_forall in H1.
      apply nth_error_In in Hj. specialize (H1 _ Hj). cbn in H1.
      now apply negb_true_iff in H1.
    + cbn [nth_error] in Hi. apply (IH H2 i j o n o' n'); auto.
      now apply PeanoNat.lt_S_n.
Qed.

Lemma apply_replacements_app content l1 l2 :
  apply_replacements content (l1 ++ l2)%list =
  apply_replacements (apply_replacements content l1) l2.
Proof.
  revert content. induction l1 as [|[o n] l1 IH]; intros content;
    [reflexivity | apply IH].
Qed.

Lemma apply_replacements_absent content l :
  (forall r, In r l -> Str.contains (fst r) content = false) ->
  apply_replacements content l = content.
Proof.
  induction l as [|[o n] l IH]; intros H; [reflexivity|].
  cbn [apply_replacements]. rewrite (replace_absent o n content).
  - apply IH. intros r Hr. apply H. now right.
  - apply (H (o, n)). now left.
Qed.

Lemma replace_go_skip_all old new s :
  Str.replace_go old new (String.length s) s = EmptyString.
Proof. induction s as [|c s IH]; [reflexivity | exact IH]. Qed.

Lemma replace_self old new :
  old <> EmptyString -> Str.replace old new old = new.
Proof.
  destruct old as [|c old]; [contradiction|]. intros _.
  rewrite replace_nonempty. cbn [Str.replace_go].
  assert (Hp : prefix (String c old) (String c old) = true).
  { rewrite <- (append_nil_r (String c old)) at 2. apply prefix_app. }
  rewrite Hp. cbn [String.length Nat.sub]. rewrite Nat.sub_0_r.
  now rewrite replace_go_skip_all, append_nil_r.
Qed.

(** In a table ordered most specific first and free of re-matches, every
    old string is taken to its own new string by the whole table. *)
Lemma apply_each todo :
  forall done,
    (forall r r', In r done -> In r' todo ->
                  Str.contains (fst r) (fst r') = false) ->
    specific_first (List.map fst todo) = true ->
    no_rematch todo = true ->
    Forall (fun r => apply_replacements (fst r) (done ++ todo)%list = snd r)
           todo.
Proof.
  induction todo as [|[o n] rest IH]; intros done Hdone Hsf Hnr;
    [constructor|].
  cbn [List.map fst specific_first] in Hsf.
  apply andb_prop in Hsf. destruct Hsf as [Hsf Hsf3].
  apply andb_prop in Hsf. destruct Hsf as [Hsf1 Hsf2].
  cbn [no_rematch] in Hnr. apply andb_prop in Hnr. destruct Hnr as [Hn1 Hn2].
  rewrite forallb_forall in Hsf2, Hn1.
  constructor.
  - cbn [fst snd]. rewrite apply_replacements_app.
    rewrite (apply_replacements_absent o done)
      by (intros r Hr; apply (Hdone r (o, n) Hr); now left).
    cbn [apply_replacements]. rewrite replace_self.
    + apply apply_replacements_absent. intros r Hr.
      now apply negb_true_iff, Hn1.
    + intros ->. discriminate Hsf1.
  - specialize (IH (done ++ [(o, n)])%list).
    rewrite <- app_assoc in IH. apply IH; auto.
    intros r r' Hr Hr'. apply in_app_or in Hr. destruct Hr as [Hr|[<-|[]]].
    + apply (Hdone r r' Hr). now right.
    + cbn [fst]. apply negb_true_iff, Hsf2. now apply in_map.
Qed.

Lemma absent_by token old s :
  Str.contains token old = true -> Str.contains token s = false ->
  Str.contains old s = false.
Proof.
  intros H1 H2. destruct (Str.contains old s) eqn:E; [|reflexivity].
  now rewrite (contains_trans token old s H1 E) in H2.
Qed.

Lemma contains_skip_prefix a w pre x :
  all_chars (differs a) pre = true ->
  Str.contains (String a w) (pre ++ x) = Str.contains (String a w) x.
Proof.
  induction pre as [|c pre IH]; intros H; [reflexivity|].
  cbn [all_chars] in H. apply andb_prop in H. destruct H as [Hc Hp].
  cbn [String.append]. rewrite contains_cons, prefix_cons, (IH Hp).
  unfold differs in Hc. apply negb_true_iff in Hc.
  rewrite Ascii.eqb_sym in Hc. now rewrite Hc.
Qed.

Lemma entry_r w v suf :
  suffix_ok w suf = true -> Str.contains w v = false ->
  Str.contains w (v ++ suf) = false.
Proof.
  intros Hs Hv. destruct suf as [|c suf]; [now rewrite append_nil_r|].
  cbn [suffix_ok] in Hs. apply andb_prop in Hs. destruct Hs as [H1 H2].
  apply negb_true_iff in H2.
  destruct (Str.contains w (v ++ String c suf)) eqn:E; [|reflexivity].
  apply contains_separator in E; [|exact H1]. destruct E; congruence.
Qed.

Lemma entry_lr a w pre v suf :
  all_chars (differs a) pre = true ->
  suffix_ok (String a w) suf = true -> Str.contains (String a w) v = false ->
  Str.contains (String a w) (pre ++ v ++ suf) = false.
Proof.
  intros Hp Hs Hv. rewrite contains_skip_prefix by exact Hp.
  now apply entry_r.
Qed.

Lemma entry_l a w pre v :
  all_chars (differs a) pre = true -> Str.contains (String a w) v = false ->
  Str.contains (String a w) (pre ++ v) = false.
Proof. intros Hp Hv. now rewrite contains_skip_prefix. Qed.

Lemma all_chars_map_from (P Q : ascii -> bool) f s :
  (forall c, Q c = true -> P (f c) = true) ->
  all_chars Q s = true -> all_chars P (Str.map f s) = true.
Proof.
  intros H. induction s as [|c s IH]; simpl; [trivial|].
  intros Hs. apply andb_prop in Hs. destruct Hs as [H1 H2].
  now rewrite (H c H1), (IH H2).
Qed.

Lemma name_char_snake c : name_char c = true -> not_upper (snake_char c) = true.
Proof. destruct c as [[] [] [] [] [] [] [] []]; try reflexivity; discriminate. Qed.

Section TableFacts.

Variable nm : string.
Hypothesis valid : re_match nm = true.
Hypothesis no_token : Str.contains template_token nm = false.
Hypothesis no_capitals :
  Str.contains "JARVIS" (pascal_name (variants nm) ++ "Settings") = false.

Let sn := Str.replace "-" "_" nm.
Let pascal := Str.join "" (List.map Str.capitalize (Str.split hyphen nm)).
Let display := Str.join " " (List.map Str.capitalize (Str.split hyphen nm)).

Lemma nm_chars : all_chars name_char nm = true.
Proof. exact (re_match_chars nm valid). Qed.

Lemma nm_not_upper : all_chars not_upper nm = true.
Proof.
  apply (all_chars_weaken name_char); [|exact nm_chars].
  intros c Hc. unfold not_upper. now rewrite name_char_not_upper.
Qed.

Lemma sn_not_upper : all_chars not_upper sn = true.
Proof.
  unfold sn. rewrite snake_is_map.
  exact (all_chars_map_from _ _ _ _ name_char_snake nm_chars).
Qed.

Lemma F_nm_j : Str.contains "jarvis" nm = false.
Proof. exact no_token. Qed.

Lemma F_nm_J : Str.contains "Jarvis" nm = false.
Proof. apply (contains_absent_chars not_upper); [exact nm_not_upper | reflexivity]. Qed.

Lemma F_nm_JJ : Str.contains "JARVIS" nm = false.
Proof. apply (contains_absent_chars not_upper); [exact nm_not_upper | reflexivity]. Qed.

Lemma F_sn_j : Str.contains "jarvis" sn = false.
Proof. exact (eq_trans (snake_contains nm) no_token). Qed.

Lemma F_sn_J : Str.contains "Jarvis" sn = false.
Proof. apply (contains_absent_chars not_upper); [exact sn_not_upper | reflexivity]. Qed.

Lemma F_sn_JJ : Str.contains "JARVIS" sn = false.
Proof. apply (contains_absent_chars not_upper); [exact sn_not_upper | reflexivity]. Qed.

Lemma F_pa_j : Str.contains "jarvis" pascal = false.
Proof.
  destruct (Str.contains "jarvis" pascal) eqn:E; [|reflexivity].
  change pascal with (pascal_name (variants nm)) in E.
  rewrite pascal_is_caps in E.
  apply (caps_contains_lower "" eq_refl "j" "arvis" eq_refl nm true nm_chars)
    in E.
  unfold template_token in no_token. now rewrite no_token in E.
Qed.

Lemma F_pa_J : Str.contains "Jarvis" pascal = false.
Proof.
  destruct (Str.contains "Jarvis" pascal) eqn:E; [|reflexivity].
  change pascal with (pascal_name (variants nm)) in E.
  rewrite pascal_is_caps in E.
  apply (caps_contains_capital "" eq_refl "J" "arvis" eq_refl eq_refl nm true
           nm_chars) in E.
  change (String (Str.lower_char "J") "arvis") with template_token in E.
  now rewrite no_token in E.
Qed.

Lemma F_pa_JJ : Str.contains "JARVIS" (pascal ++ "Settings") = false.
Proof. exact no_capitals. Qed.

Lemma F_up_j : Str.contains "jarvis" (Str.upper sn) = false.
Proof.
  apply (contains_absent_chars not_lower); [|reflexivity].
  apply all_chars_map. intros c. unfold not_lower.
  now rewrite upper_char_not_lower.
Qed.

Lemma F_up_J : Str.contains "Jarvis" (Str.upper sn) = false.
Proof.
  apply (contains_absent_chars not_lower); [|reflexivity].
  apply all_chars_map. intros c. unfold not_lower.
  now rewrite upper_char_not_lower.
Qed.

Lemma F_di_j : Str.contains "jarvis" display = false.
Proof.
  destruct (Str.contains "jarvis" display) eqn:E; [|reflexivity].
  change display with (display_name (variants nm)) in E.
  rewrite display_is_caps in E.
  apply (caps_contains_lower " " eq_refl "j" "arvis" eq_refl nm true nm_chars)
    in E.
  unfold template_token in no_token. now rewrite no_token in E.
Qed.

Ltac base_fact :=
  first [ exact F_nm_j | exact F_nm_J | exact F_nm_JJ
        | exact F_sn_j | exact F_sn_J | exact F_sn_JJ
        | exact F_pa_j | exact F_pa_J | exact F_pa_JJ
        | exact F_up_j | exact F_up_J | exact F_di_j ].

Ltac token_free :=
  first [ base_fact
        | solve [apply entry_lr; [reflexivity | reflexivity | base_fact]]
        | solve [apply entry_r; [reflexivity | base_fact]]
        | solve [apply entry_l; [reflexivity | base_fact]] ].

Ltac by_token token :=
  apply (absent_by token); [vm_compute; reflexivity | token_free].

Ltac no_later_match :=
  apply negb_true_iff;
  first [ solve [by_token "jarvis"] | solve [by_token "Jarvis"]
        | solve [by_token "JARVIS"] ].

Lemma table_no_rematch : no_rematch (build_replacements (variants nm)) = true.
Proof.
  unfold build_replacements.
  cbn [snake_name package_name pascal_name display_name repo_name variants].
  fold sn. fold pascal. fold display.
  cbn [no_rematch forallb fst snd].
  repeat (apply andb_true_intro; split); try reflexivity; no_later_match.
Qed.

Lemma table_specific_first :
  specific_first (List.map fst (build_replacements (variants nm))) = true.
Proof. reflexivity. Qed.

End TableFacts.

(** Where the table built from the derived names is in order.  For a
    valid name, the table built from its variants is free of re-matches (no pair's old string occurs in the new
    string of an earlier pair) exactly when the name does not contain
    "jarvis" and the new class name, PascalCase name followed by
    "Settings", does not contain "JARVIS"; and whenever the table is free
    of re-matches, applying the whole table to any of its old strings
    alone yields exactly that pair's new string, as for
    "autobots-agents-jarvis" with the name "kbe-pay". *)
Theorem table_order_prevents_rematch :
  forall nm : string,
    re_match nm = true ->
    let table := build_replacements (variants nm) in
    (no_rematch table = true <->
     Str.contains template_token nm = false /\
     Str.contains "JARVIS" (pascal_name (variants nm) ++ "Settings") = false) /\
    (no_rematch table = true ->
     Forall (fun r => apply_replacements (fst r) table = snd r) table) /\
    apply_replacements "autobots-agents-jarvis"
      (build_replacements (variants "kbe-pay")) = "autobots-kbe-pay".
Proof.
  intros nm Hre table. split; [split|split; [|reflexivity]].
  - intros H. split.
    + pose proof (no_rematch_pair table H 0 17 _ _ _ _ ltac:(lia)
                    eq_refl eq_refl) as H1.
      cbn [repo_name variants] in H1.
      destruct (Str.contains template_token nm) eqn:E; [|reflexivity].
      pose proof (contains_app_r _ "autobots-" _ E) as H2.
      unfold template_token in H2. congruence.
    + exact (no_rematch_pair table H 2 15 _ _ _ _ ltac:(lia) eq_refl eq_refl).
  - intros [H1 H2]. now apply table_no_rematch.
  - intros H. apply (apply_each table []); auto. intros r r' [].
Qed.

Lemma table_order_prevents_rematch_witness :
  Forall (fun r => apply_replacements (fst r)
                     (build_replacements (variants "kbe-pay")) = snd r)
         (build_replacements (variants "kbe-pay")).
Proof.
  apply (table_order_prevents_rematch "kbe-pay"); reflexivity.
Defined.

(** The second condition is needed: with the valid name "j-a-r-v-i" the
    new class name is "JARVISettings", which the pair for "JARVIS"
    matches. *)
Remark table_rematches_for_spelled_token :
  re_match "j-a-r-v-i" = true /\
  Str.contains template_token "j-a-r-v-i" = false /\
  no_rematch (build_replacements (variants "j-a-r-v-i")) = false /\
  apply_replacements "JarvisSettings"
    (build_replacements (variants "j-a-r-v-i")) = "J_A_R_V_Iettings".
Proof. repeat split; vm_compute; reflexivity. Qed.

(** C4 (the code's defect).  The table is built "most specific first to
    avoid partial matches", but nothing keeps the new name clear of the
    token: "jarvis2" is a valid name, the last pair of its table matches
    inside what the earlier pairs produced, and the compound tokens come
    out as "autobots-jarvis22" and "autobots_jarvis22".  The derived
    package name and the directory the renamer creates are
    "autobots_jarvis2": after one run the module imports a package that
    does not exist. *)
Theorem jarvis2_text_differs_from_package :
  let names := variants "jarvis2" in
  let args := {| arg_name := "jarvis2"; arg_display_name := None;
                 arg_description := None; arg_port := 1337;
                 arg_dry_run := false |} in
  let r := scaffold sample_env args importing_tree in
  in_grammar "jarvis2" = true /\
  re_match "jarvis2" = true /\
  no_rematch (build_replacements names) = false /\
  repo_name names = "autobots-jarvis2" /\
  apply_replacements "autobots-agents-jarvis" (build_replacements names) =
    "autobots-jarvis22" /\
  package_name names = "autobots_jarvis2" /\
  apply_replacements "autobots_agents_jarvis" (build_replacements names) =
    "autobots_jarvis22" /\
  paths_to_rename sample_env names importing_tree =
    [(["src"; "autobots_agents_jarvis"], Some ["src"; "autobots_jarvis2"])] /\
  ending r = Returned tt /\
  file_at ["src"; "autobots_jarvis2"; "__init__.py"] (tree r) =
    Some (Some "import autobots_jarvis22") /\
  exists_ ["src"; "autobots_jarvis22"] (tree r) = false.
Proof. repeat split; vm_compute; reflexivity. Qed.

(** A display name given on the command line enters the table unchecked
    as well: with "My jarvis" the last pair matches what the pair for
    "Jarvis" wrote. *)
Remark table_rematches_for_display_name :
  let names := with_display (variants "kbe-pay") "My jarvis" in
  no_rematch (build_replacements names) = false /\
  apply_replacements "Jarvis" (build_replacements names) = "My kbe_pay".
Proof. split; vm_compute; reflexivity. Qed.

(** The same at the first pair alone. *)
Lemma table_rematches_for_jarvis2 :
  re_match "jarvis2" = true /\
  no_rematch (build_replacements (variants "jarvis2")) = false /\
  repo_name (variants "jarvis2") = "autobots-jarvis2" /\
  apply_replacements "autobots-agents-jarvis"
    (build_replacements (variants "jarvis2")) = "autobots-jarvis22".
Proof. repeat split; vm_compute; reflexivity. Qed.

(* ================================================================== *)
(** * Renamed names no longer hold the token *)
(* ================================================================== *)

Section Clear.

Lemma prefix_app_cases w a b :
  prefix w (a ++ b) = true -> prefix w a = true \/ prefix a w = true.
Proof.
  revert a. induction w as [|x w IH]; intros a H; [left; apply prefix_nil|].
  destruct a as [|y a]; [right; reflexivity|].
  cbn [String.append] in H. rewrite prefix_cons in *.
  apply andb_prop in H. destruct H as [H1 H2].
  rewrite prefix_cons, (Ascii.eqb_sym y x), H1. exact (IH a H2).
Qed.

(** An occurrence in [a ++ b] lies in [a], lies in [b], or begins with a
    non-empty end of [a]. *)
Lemma contains_app_cases w a b :
  none_suffix a w = true ->
  Str.contains w (a ++ b) = true ->
  Str.contains w a = true \/ Str.contains w b = true.
Proof.
  induction a as [|c a IH]; intros Hn H; [now right|].
  cbn [none_suffix] in Hn. apply andb_prop in Hn. destruct Hn as [Hn1 Hn2].
  apply negb_true_iff in Hn1.
  cbn [String.append] in H. rewrite contains_cons in H.
  apply orb_prop in H. destruct H as [H|H].
  - change (String c (a ++ b)) with (String c a ++ b) in H.
    apply prefix_app_cases in H. destruct H as [H|H]; [|congruence].
    left. now apply contains_prefix.
  - destruct (IH Hn2 H) as [H'|H']; [left | now right].
    rewrite contains_cons, H'. apply orb_true_r.
Qed.

Variables w sn : string.

(** What the scan copies agrees with the scanned text on every [u] that
    cannot begin in [sn] nor hold it. *)
Lemma replace_go_prefix :
  forall f u,
    none_suffix u sn = true -> Str.contains sn u = false ->
    prefix u (Str.replace_go w sn 0 f) = true -> prefix u f = true.
Proof.
  induction f as [|c f IH]; intros u Hn Hc H.
  - destruct u; [reflexivity | discriminate H].
  - destruct u as [|x u]; [reflexivity|].
    cbn [Str.replace_go] in H.
    destruct (prefix w (String c f)).
    + exfalso. apply prefix_app_cases in H.
      cbn [none_suffix] in Hn. apply andb_prop in Hn. destruct Hn as [Hn _].
      apply negb_true_iff in Hn. destruct H as [H|H]; [congruence|].
      apply contains_prefix in H. congruence.
    + rewrite prefix_cons in *. apply andb_prop in H. destruct H as [H1 H2].
      rewrite H1. cbn [none_suffix] in Hn. apply andb_prop in Hn.
      rewrite contains_cons in Hc. apply orb_false_iff in Hc.
      apply (IH u); tauto.
Qed.

Lemma replace_go_clear :
  clear_of w sn = true ->
  forall f k, Str.contains w (Str.replace_go w sn k f) = false.
Proof.
  intros clear.
  destruct w as [|c0 w'] eqn:Hw; [discriminate clear|].
  cbn [clear_of] in clear.
  apply andb_prop in clear. destruct clear as [Hc H4].
  apply andb_prop in Hc. destruct Hc as [Hc H3].
  apply andb_prop in Hc. destruct Hc as [H1 H2].
  apply negb_true_iff in H1, H2.
  induction f as [|c f IH]; intros k; [reflexivity|].
  cbn [Str.replace_go]. destruct k as [|k]; [|apply IH].
  destruct (prefix (String c0 w') (String c f)) eqn:Hp.
  - destruct (Str.contains (String c0 w')
                (sn ++ Str.replace_go (String c0 w') sn
                         (String.length (String c0 w') - 1) f)) eqn:E;
      [|reflexivity].
    apply contains_app_cases in E; [|exact H4].
    destruct E as [E|E]; [congruence | now rewrite IH in E].
  - rewrite contains_cons, IH, orb_false_r.
    destruct (prefix (String c0 w')
                (String c (Str.replace_go (String c0 w') sn 0 f))) eqn:E;
      [|reflexivity].
    rewrite prefix_cons in *. apply andb_prop in E. destruct E as [E1 E2].
    rewrite E1 in Hp. cbn [andb] in Hp.
    rewrite contains_cons in H2. apply orb_false_iff in H2.
    rewrite <- Hw in E2.
    now rewrite (replace_go_prefix f w' H3 (proj2 H2) E2) in Hp.
Qed.

(** A renamed name holds no token. *)
Lemma replace_clear f :
  clear_of w sn = true -> Str.contains w (Str.replace w sn f) = false.
Proof.
  intros clear. pose proof (replace_go_clear clear f 0) as H.
  destruct w as [|c0 w']; [discriminate clear | exact H].
Qed.

End Clear.

(* ================================================================== *)
(** * The computed renames, path by path *)
(* ================================================================== *)

Section Expected.

Lemma last_cons_default {A} (x d : A) l : last (x :: l) d = last l x.
Proof.
  revert x d. induction l as [|y l IH]; intros x d; [reflexivity|].
  change (last (x :: y :: l) d) with (last (y :: l) d).
  now rewrite (IH y d), (IH y x).
Qed.

Lemma split_last_snoc p x : split_last (p ++ [x])%list = Some (p, x).
Proof.
  induction p as [|y p IH]; [reflexivity|].
  cbn [app split_last]. rewrite IH. now destruct (p ++ [x])%list eqn:E;
    [destruct p; discriminate E|].
Qed.

Lemma split_last_cons x y p :
  split_last (x :: y :: p) =
  match split_last (y :: p) with
  | Some (d, f) => Some (x :: d, f)
  | None => None
  end.
Proof. reflexivity. Qed.

Lemma split_last_some y p : exists d f, split_last (y :: p) = Some (d, f).
Proof.
  destruct (exists_last (l := y :: p) ltac:(discriminate)) as [d [f ->]].
  exists d, f. apply split_last_snoc.
Qed.

Variables sn pkg : string.

Lemma expected_cons root pn dn es x c q :
  find_entry x es = Some c ->
  q <> [] \/ is_dir_node c = true ->
  expected sn pkg root pn dn (Dir es) (x :: q) =
  expected sn pkg (root ++ [x])%list dn x c q.
Proof.
  intros Hx Hq. unfold expected. rewrite lookup_cons, Hx.
  replace ((root ++ [x]) ++ q)%list with (root ++ x :: q)%list
    by now rewrite <- app_assoc.
  destruct (lookup q c) as [[text|es']|] eqn:Hl; [| |reflexivity].
  - destruct q as [|y q].
    + cbn in Hl. injection Hl as ->. destruct Hq as [Hq|Hq];
        [contradiction | discriminate].
    + rewrite split_last_cons.
      destruct (split_last_some y q) as [d [f ->]].
      replace ((root ++ [x]) ++ d)%list with (root ++ x :: d)%list
        by now rewrite <- app_assoc.
      replace ((root ++ [x]) ++ d ++
                 [Str.replace template_token sn f])%list
        with (root ++ (x :: d) ++ [Str.replace template_token sn f])%list
        by now rewrite <- app_assoc.
      reflexivity.
  - assert (Hd : dname dn (x :: q) = dname x q)
      by apply last_cons_default.
    assert (Hp : pname pn dn (x :: q) = pname dn x q).
    { unfold pname. destruct q as [|y q]; [reflexivity|].
      change (removelast (x :: y :: q)) with (x :: removelast (y :: q)).
      apply last_cons_default. }
    now rewrite Hd, Hp.
Qed.

Lemma collect_file root pn dn text :
  collect sn pkg root pn dn (File text) = [].
Proof. reflexivity. Qed.

(** The list [collect] builds holds exactly the renames expected at the
    paths of the tree. *)
Lemma collect_expected (n : node) :
  forall root pn dn,
    wf n = true ->
    forall it, In it (collect sn pkg root pn dn n) <->
               exists q, In it (expected sn pkg root pn dn n q).
Proof.
  induction n as [text|es IH] using node_induction; intros root pn dn Hwf it.
  - split; [intros [] | intros [q H]]. unfold expected in H.
    destruct q as [|x q]; [|destruct H]. cbn in H. destruct H.
  - rewrite Forall_forall in IH. apply wf_dir in Hwf.
    destruct Hwf as [Hnd Hwf]. cbn [collect]. split.
    + intros Hin. apply in_app_or in Hin. destruct Hin as [Hin|Hin].
      * apply in_concat_map in Hin. destruct Hin as [[nm c] [Hc Hin]].
        pose proof (proj1 (IH _ Hc _ _ _ (Hwf _ _ Hc) it) Hin) as [q Hq].
        exists (nm :: q). rewrite (expected_cons root pn dn es nm c q).
        -- exact Hq.
        -- now apply In_find_entry.
        -- right. destruct c; [destruct Hin | reflexivity].
      * destruct (protected root) eqn:Hr; [destruct Hin|].
        apply in_app_or in Hin. destruct Hin as [Hin|Hin].
        -- pose proof Hin as Hin'. apply file_renames_sources in Hin'.
           destruct Hin' as [f [H1 [H2 [H3 [text H4]]]]].
           exists [f]. unfold expected. rewrite lookup_cons.
           rewrite (In_find_entry f es _ Hnd H4). cbn [lookup split_last].
           rewrite app_nil_r, Hr, H2. left.
           destruct it as [o nw]. cbn [fst snd] in H1, H3. now subst.
        -- exists []. unfold expected. cbn [lookup].
           now rewrite app_nil_r, Hr.
    + intros [q Hq]. apply in_or_app. destruct q as [|x q].
      * right. unfold expected in Hq. cbn [lookup] in Hq.
        rewrite app_nil_r in Hq.
        destruct (protected root); [destruct Hq|].
        apply in_or_app. now right.
      * destruct (find_entry x es) as [c|] eqn:Hx.
        2:{ unfold expected in Hq. rewrite lookup_cons, Hx in Hq.
            destruct Hq. }
        pose proof (find_entry_In _ _ _ Hx) as Hc.
        destruct q as [|y q]; [destruct c as [text|es']|].
        -- right. unfold expected in Hq. rewrite lookup_cons, Hx in Hq.
           cbn [lookup split_last] in Hq. rewrite app_nil_r in Hq.
           destruct (protected root); [destruct Hq|].
           apply in_or_app. left.
           destruct (Str.contains template_token x) eqn:Hcx; [|destruct Hq].
           destruct Hq as [<-|[]]. unfold file_renames. apply in_flat_map.
           exists (x, File text). split; [exact Hc|]. cbn [fst snd].
           rewrite Hcx. now left.
        -- left. apply in_concat. eexists. split.
           ++ apply in_map_iff. exists (x, Dir es'). split; [reflexivity|exact Hc].
           ++ apply (IH _ Hc (root ++ [x])%list dn x (Hwf _ _ Hc) it).
              cbn [snd]. exists [].
              rewrite <- (expected_cons root pn dn es x (Dir es') []); auto.
        -- left. apply in_concat. eexists. split.
           ++ apply in_map_iff. exists (x, c). split; [reflexivity|exact Hc].
           ++ apply (IH _ Hc (root ++ [x])%list dn x (Hwf _ _ Hc) it).
              cbn [snd]. exists (y :: q).
              rewrite <- (expected_cons root pn dn es x c (y :: q)); auto.
              left. discriminate.
Qed.

End Expected.

(** ** Deepest first *)

Section PostOrder.

Lemma FOP_app {A} (R : A -> A -> Prop) l1 l2 :
  ForallOrdPairs R l1 -> ForallOrdPairs R l2 ->
  (forall a b, In a l1 -> In b l2 -> R a b) ->
  ForallOrdPairs R (l1 ++ l2).
Proof.
  induction l1 as [|x l1 IH]; intros H1 H2 H; [exact H2|].
  inversion H1 as [|? ? Hx H1']; subst. cbn [app]. constructor.
  - apply Forall_app. split; [exact Hx|].
    apply Forall_forall. intros b Hb. apply H; [now left | exact Hb].
  - apply IH; auto. intros a b Ha Hb. apply H; [now right | exact Hb].
Qed.

Lemma is_prefix_length p q : is_prefix p q = true -> List.length p <= List.length q.
Proof.
  intros H. apply is_prefix_split in H. destruct H as [r ->].
  rewrite length_app. lia.
Qed.

Lemma below_length p q : below p q = true -> List.length p < List.length q.
Proof.
  unfold below. intros H. apply andb_prop in H. destruct H as [H1 H2].
  apply is_prefix_split in H1. destruct H1 as [r ->].
  destruct r as [|x r].
  - rewrite app_nil_r in H2.
    assert (E : path_eqb p p = true) by now apply path_eqb_eq.
    now rewrite E in H2.
  - rewrite length_app. cbn. lia.
Qed.

Lemma not_below_length p q :
  List.length q <= List.length p -> below p q = false.
Proof.
  intros H. destruct (below p q) eqn:E; [|reflexivity].
  apply below_length in E. lia.
Qed.

Lemma FOP_children (root : path) (f : entry -> list rename_item) es :
  NoDup (List.map fst es) ->
  (forall e, In e es -> post_order (f e)) ->
  (forall e a, In e es -> In a (f e) ->
               exists d, fst a = (root ++ fst e :: d)%list) ->
  post_order (List.concat (List.map f es)).
Proof.
  induction es as [|e es IH]; intros Hnd Hf Hkey; [constructor|].
  inversion Hnd as [|? ? Hn Hd]; subst. cbn [List.map List.concat].
  apply FOP_app.
  - apply Hf. now left.
  - apply IH; auto.
    + intros e' He'. apply Hf. now right.
    + intros e' a He'. apply Hkey. now right.
  - intros a b Ha Hb. apply in_concat_map in Hb. destruct Hb as [e' [He' Hb]].
    destruct (Hkey e a (or_introl eq_refl) Ha) as [d Hd1].
    destruct (Hkey e' b (or_intror He') Hb) as [d' Hd2].
    destruct (below (fst a) (fst b)) eqn:E; [|reflexivity].
    exfalso. unfold below in E. apply andb_prop in E. destruct E as [E _].
    apply is_prefix_split in E. destruct E as [r E].
    rewrite Hd1, Hd2, <- app_assoc in E. apply app_inv_head in E.
    cbn in E. injection E as E _. apply Hn. rewrite <- E.
    now apply in_map.
Qed.

Variables sn pkg : string.

Lemma expected_source root pn dn n q it :
  In it (expected sn pkg root pn dn n q) -> fst it = (root ++ q)%list.
Proof.
  unfold expected. destruct (lookup q n) as [[text|es]|]; [| |intros []].
  - destruct (split_last q) as [[d f]|]; [|intros []].
    destruct (protected (root ++ d)%list); [intros []|].
    destruct (Str.contains template_token f); [|intros []].
    now intros [<-|[]].
  - destruct (protected (root ++ q)%list); [intros []|].
    apply dir_rename_source.
Qed.

Lemma collect_source n root pn dn it :
  wf n = true -> In it (collect sn pkg root pn dn n) ->
  exists q, fst it = (root ++ q)%list.
Proof.
  intros Hwf Hin. apply (collect_expected sn pkg n root pn dn Hwf) in Hin.
  destruct Hin as [q Hq]. exists q. eapply expected_source; eassumption.
Qed.

Lemma collect_post_order (n : node) :
  forall root pn dn, wf n = true ->
                     post_order (collect sn pkg root pn dn n).
Proof.
  induction n as [text|es IH] using node_induction; intros root pn dn Hwf;
    [constructor|].
  rewrite Forall_forall in IH. pose proof Hwf as Hwf0.
  apply wf_dir in Hwf. destruct Hwf as [Hnd Hwf]. cbn [collect].
  assert (Hown : forall b,
            In b (if protected root then []
                  else file_renames sn root es ++
                       dir_rename sn pkg root pn dn)%list ->
            List.length (fst b) <= S (List.length root)).
  { intros b Hb. destruct (protected root); [destruct Hb|].
    apply in_app_or in Hb. destruct Hb as [Hb|Hb].
    - apply file_renames_sources in Hb. destruct Hb as [f [-> _]].
      rewrite length_app. cbn. lia.
    - apply dir_rename_source in Hb. rewrite Hb. lia. }
  apply FOP_app.
  - apply (FOP_children root
             (fun e : entry => let (nm, c) := e in
                collect sn pkg (root ++ [nm])%list dn nm c)); auto.
    + intros [nm c] Hc. apply (IH _ Hc). exact (Hwf _ _ Hc).
    + intros [nm c] a Hc Ha.
      apply collect_source in Ha; [|exact (Hwf _ _ Hc)].
      destruct Ha as [q ->]. exists q. now rewrite <- app_assoc.
  - destruct (protected root); [constructor|]. apply FOP_app.
    + unfold file_renames.
      assert (H : forall l, Forall (fun b : rename_item =>
                    List.length (fst b) = S (List.length root)) l ->
                  post_order l).
      { induction l as [|x l IHl]; intros Hl; [constructor|].
        inversion Hl as [|? ? Hx Hl']; subst. constructor; [|now apply IHl].
        rewrite Forall_forall in Hl'. apply Forall_forall. intros b Hb.
        apply not_below_length. rewrite Hx, (Hl' _ Hb). lia. }
      apply H. apply Forall_forall. intros b Hb.
      apply (file_renames_sources sn root es) in Hb.
      destruct Hb as [f [-> _]]. rewrite length_app. cbn. lia.
    + unfold dir_rename.
      destruct (String.eqb dn "autobots_agents_jarvis");
        [repeat constructor|].
      destruct (String.eqb dn "jarvis" &&
                mem pn ["domains"; "agent_configs"]); repeat constructor.
    + intros a b Ha Hb. apply file_renames_sources in Ha.
      destruct Ha as [f [Ha _]]. apply dir_rename_source in Hb.
      apply not_below_length. rewrite Ha, Hb, length_app. cbn. lia.
  - intros a b Ha Hb. apply Hown in Hb. apply not_below_length.
    apply in_concat_map in Ha. destruct Ha as [[nm c] [Hc Ha]].
    apply collect_source in Ha; [|exact (Hwf _ _ Hc)].
    destruct Ha as [q ->]. rewrite !length_app. cbn. lia.
Qed.

End PostOrder.

(** ** A rename that succeeds *)

Lemma is_dir_view p t :
  is_dir p t = match view p t with Some None => true | _ => false end.
Proof. unfold is_dir, view. now destruct (lookup p t) as [[text|es]|]. Qed.

Lemma parent_length p : p <> [] -> S (List.length (parent p)) = List.length p.
Proof.
  intros Hp. destruct (exists_last Hp) as [d [x ->]].
  rewrite parent_snoc, length_app. cbn. lia.
Qed.

Lemma rename_returned old new t :
  ending (rename old new t) = Returned tt ->
  old <> new ->
  exists src,
    lookup old t = Some src /\
    new <> [] /\ is_dir (parent new) t = true /\
    (forall y r, lookup (new ++ y :: r)%list t = None) /\
    tree (rename old new t) = put new src (remove old t).
Proof.
  unfold rename. intros H Hne.
  destruct (lookup old t) as [src|] eqn:Hsrc; [|discriminate H].
  destruct (path_eqb old new) eqn:Heq;
    [apply path_eqb_eq in Heq; contradiction|].
  destruct (is_prefix old new); [discriminate H|].
  destruct (is_dir (parent new) t) eqn:Hd; [|discriminate H].
  cbn [negb] in H. destruct new as [|x new]; [discriminate H|].
  exists src. repeat split; try discriminate.
  - intros y r. rewrite (lookup_app (x :: new) (y :: r) t).
    destruct (lookup (x :: new) t) as [[text|[|e es]]|]; destruct src;
      try discriminate H; try reflexivity; now destruct r.
  - destruct (lookup (x :: new) t) as [[text|[|e es]]|]; destruct src;
      try discriminate H; reflexivity.
Qed.

(** The view of the tree after a rename between two paths of one length. *)
Lemma view_rename old new src t :
  lookup old t = Some src -> new <> [] ->
  List.length old = List.length new ->
  is_dir (parent new) t = true ->
  forall q,
    view q (put new src (remove old t)) =
    if is_prefix new q
    then view (old ++ skipn (List.length new) q)%list t
    else if is_prefix old q then None else view q t.
Proof.
  intros Hsrc Hnew Hlen Hd q.
  assert (Hold : old <> []) by (destruct old, new; try discriminate; auto).
  rewrite view_put; [|exact Hnew|].
  - rewrite (view_remove old q t Hold).
    destruct (is_prefix new q); [|reflexivity].
    unfold view. now rewrite lookup_app, Hsrc.
  - rewrite is_dir_view, (view_remove old _ t Hold).
    rewrite is_dir_view in Hd.
    destruct (is_prefix old (parent new)) eqn:E; [|exact Hd].
    apply is_prefix_length in E. pose proof (parent_length new Hnew). lia.
Qed.

Lemma expected_view sn pkg root pn dn n n' q :
  view q n = view q n' ->
  expected sn pkg root pn dn n q = expected sn pkg root pn dn n' q.
Proof.
  unfold view, expected.
  destruct (lookup q n) as [[text|es]|], (lookup q n') as [[text'|es']|];
    cbn; intros H; try discriminate H; reflexivity.
Qed.

Lemma expected_absent sn pkg root pn dn n q :
  view q n = None -> expected sn pkg root pn dn n q = [].
Proof.
  unfold view, expected.
  destruct (lookup q n) as [[text|es]|]; cbn; intros H;
    try discriminate H; reflexivity.
Qed.

(** ** No path is renamed twice *)

Section Sources.

Variables sn pkg : string.

Lemma file_renames_nodup root es :
  NoDup (List.map fst es) ->
  NoDup (List.map fst (file_renames sn root es)).
Proof.
  unfold file_renames. induction es as [|[nm c] es IH]; intros Hnd;
    [constructor|].
  inversion Hnd as [|? ? Hn Hd]; subst. cbn [flat_map fst snd].
  rewrite List.map_app. apply NoDup_app; [| now apply IH |].
  - destruct c; [|constructor].
    destruct (Str.contains template_token nm); repeat constructor.
    intros [].
  - intros a Ha Hb. apply in_map_iff in Hb. destruct Hb as [it [<- Hb]].
    apply (file_renames_sources sn root es) in Hb.
    destruct Hb as [f [Hf [_ [_ [text Hin]]]]].
    destruct c; [|destruct Ha].
    destruct (Str.contains template_token nm); [|destruct Ha].
    destruct Ha as [Ha|[]]. cbn in Ha. rewrite Hf in Ha.
    apply app_inv_head in Ha. injection Ha as ->. apply Hn.
    apply in_map_iff. now exists (f, File text).
Qed.

Lemma collect_nodup (n : node) :
  forall root pn dn,
    wf n = true ->
    NoDup (List.map fst (collect sn pkg root pn dn n)).
Proof.
  induction n as [text|es IH] using node_induction; intros root pn dn Hwf;
    [constructor|].
  rewrite Forall_forall in IH. apply wf_dir in Hwf.
  destruct Hwf as [Hnd Hwf]. cbn [collect].
  rewrite List.map_app, concat_map, List.map_map.
  destruct (NoDup_children root (fun p : path => p)
              (fun e : entry => List.map fst
                 (let (nm, c) := e in
                  collect sn pkg (root ++ [nm])%list dn nm c)) es)
    as [Hc _]; auto.
  { intros [nm c] Hin. apply (IH _ Hin). exact (Hwf _ _ Hin). }
  { intros [nm c] a Hin Ha. apply in_map_iff in Ha.
    destruct Ha as [it [<- Ha]].
    apply collect_source in Ha; [|exact (Hwf _ _ Hin)].
    destruct Ha as [q ->]. exists q. now rewrite <- app_assoc. }
  apply NoDup_app; [exact Hc| |].
  - destruct (protected root); [constructor|]. rewrite List.map_app.
    apply NoDup_app; [now apply file_renames_nodup| |].
    + unfold dir_rename.
      destruct (String.eqb dn "autobots_agents_jarvis");
        [repeat constructor; intros []|].
      destruct (String.eqb dn "jarvis" &&
                mem pn ["domains"; "agent_configs"]);
        repeat constructor. intros [].
    + intros a Ha Hb. apply in_map_iff in Ha, Hb.
      destruct Ha as [ia [<- Ha]], Hb as [ib [Hb' Hb]].
      apply file_renames_sources in Ha. destruct Ha as [f [Ha _]].
      apply dir_rename_source in Hb. rewrite Ha, Hb in Hb'.
      rewrite <- (app_nil_r root) in Hb' at 1.
      apply app_inv_head in Hb'. discriminate.
  - intros a Ha Hb. apply in_concat_map in Ha.
    destruct Ha as [[nm c] [Hc' Ha]]. apply in_map_iff in Ha.
    destruct Ha as [ia [<- Ha]].
    assert (Hdir : exists es', c = Dir es')
      by (destruct c; [destruct Ha | eauto]).
    destruct Hdir as [es' ->].
    apply collect_source in Ha; [|exact (Hwf _ _ Hc')].
    destruct Ha as [q Hq]. rewrite <- app_assoc in Hq. cbn [app] in Hq.
    destruct (protected root); [destruct Hb|]. rewrite List.map_app in Hb.
    apply in_app_or in Hb. destruct Hb as [Hb|Hb]; apply in_map_iff in Hb;
      destruct Hb as [ib [Hb' Hb]].
    + apply file_renames_sources in Hb.
      destruct Hb as [f [Hf [_ [_ [text Hin]]]]].
      rewrite Hq, Hf in Hb'. apply app_inv_head in Hb'.
      injection Hb' as -> _.
      pose proof (In_find_entry _ _ _ Hnd Hc') as H1.
      pose proof (In_find_entry _ _ _ Hnd Hin) as H2. congruence.
    + apply dir_rename_source in Hb. rewrite Hq, Hb in Hb'.
      rewrite <- (app_nil_r root) in Hb' at 1.
      apply app_inv_head in Hb'. discriminate.
Qed.

End Sources.

(* ================================================================== *)
(** * Running the renamer a second time *)
(* ================================================================== *)

Lemma token_not_skipped x :
  Str.contains template_token x = true -> mem x SKIP_DIRS = false.
Proof.
  intros H. destruct (mem x SKIP_DIRS) eqn:E; [|reflexivity].
  apply mem_In in E. cbn in E.
  destruct E as [<-|[<-|[<-|[<-|[]]]]]; discriminate H.
Qed.

Lemma split_last_inv q d x : split_last q = Some (d, x) -> q = (d ++ [x])%list.
Proof.
  destruct q as [|y q]; [discriminate|]. intros H.
  destruct (exists_last (l := y :: q) ltac:(discriminate)) as [d' [x' E]].
  rewrite E, split_last_snoc in H. injection H as <- <-. exact E.
Qed.

Lemma sibling_inv q x new :
  sibling q x = Some new ->
  exists d y, q = (d ++ [y])%list /\ new = (d ++ [x])%list.
Proof.
  unfold sibling. destruct (split_last q) as [[d y]|] eqn:E; [|discriminate].
  intros [= <-]. apply split_last_inv in E. now exists d, y.
Qed.

Section Rerun.

Variables (env : Env) (sn pkg : string).
Hypothesis Hclear : clear_of template_token sn = true.
Hypothesis Hpkg : pkg = "autobots_" ++ sn.
Hypothesis Hsn : mem sn ["domains"; "agent_configs"] = false.

Let plan (t : node) : list rename_item :=
  collect sn pkg [] (root_parent_name env) (root_name env) t.

Let exp (t : node) (q : path) : list rename_item :=
  expected sn pkg [] (root_parent_name env) (root_name env) t q.

Lemma sn_clean : Str.contains template_token sn = false.
Proof.
  unfold clear_of, template_token in Hclear.
  repeat (apply andb_prop in Hclear; destruct Hclear as [Hclear ?]).
  now apply negb_true_iff in Hclear.
Qed.

Lemma pkg_clean : Str.contains template_token pkg = false.
Proof. rewrite Hpkg. apply entry_l; [reflexivity | exact sn_clean]. Qed.

Lemma pkg_not_parent : mem pkg ["domains"; "agent_configs"] = false.
Proof. rewrite Hpkg. reflexivity. Qed.

Lemma plan_exp t :
  wf t = true -> forall it, In it (plan t) <-> exists q, In it (exp t q).
Proof. intros Hwf it. now apply collect_expected. Qed.

Lemma exp_source t q it : In it (exp t q) -> fst it = q.
Proof. intros H. now apply expected_source in H. Qed.

(** The form of an expected rename whose target is inside the project. *)
Lemma exp_shape t q it new :
  In it (exp t q) -> snd it = Some new ->
  exists d x x',
    q = (d ++ [x])%list /\ new = (d ++ [x'])%list /\
    Str.contains template_token x = true /\
    Str.contains template_token x' = false /\
    ((exists text, lookup q t = Some (File text)) \/
     mem x' ["domains"; "agent_configs"] = false).
Proof.
  unfold exp, expected. cbn [app].
  destruct (lookup q t) as [[text|es]|] eqn:Hl; [| |intros []].
  - destruct (split_last q) as [[d f]|] eqn:Hs; [|intros []].
    destruct (protected d); [intros []|].
    destruct (Str.contains template_token f) eqn:Hf; [|intros []].
    intros [<-|[]] [= <-]. apply split_last_inv in Hs.
    exists d, f, (Str.replace template_token sn f).
    repeat split; auto; [now apply replace_clear | eauto].
  - destruct (protected q); [intros []|]. unfold dir_rename.
    destruct (String.eqb (dname (root_name env) q) "autobots_agents_jarvis")
      eqn:E1.
    + intros [<-|[]] Hs. cbn [snd] in Hs. apply sibling_inv in Hs.
      destruct Hs as [d [y [-> ->]]]. apply String.eqb_eq in E1.
      unfold dname in E1. rewrite last_last in E1. subst y.
      exists d, "autobots_agents_jarvis", pkg.
      repeat split; auto using pkg_clean, pkg_not_parent.
    + destruct (String.eqb (dname (root_name env) q) "jarvis" &&
                mem (pname (root_parent_name env) (root_name env) q)
                    ["domains"; "agent_configs"]) eqn:E2; [|intros []].
      intros [<-|[]] Hs. cbn [snd] in Hs. apply sibling_inv in Hs.
      destruct Hs as [d [y [-> ->]]]. apply andb_prop in E2.
      destruct E2 as [E2 _]. apply String.eqb_eq in E2.
      unfold dname in E2. rewrite last_last in E2. subst y.
      exists d, "jarvis", sn. repeat split; auto using sn_clean.
Qed.

(** The last component of a path with an expected rename holds the token. *)
Lemma exp_token t d x it :
  In it (exp t (d ++ [x])%list) -> Str.contains template_token x = true.
Proof.
  unfold exp, expected. cbn [app].
  destruct (lookup (d ++ [x])%list t) as [[text|es]|]; [| |intros []].
  - rewrite split_last_snoc. destruct (protected d); [intros []|].
    now destruct (Str.contains template_token x).
  - destruct (protected (d ++ [x])%list); [intros []|].
    unfold dir_rename, dname. rewrite last_last.
    destruct (String.eqb x "autobots_agents_jarvis") eqn:E1.
    + apply String.eqb_eq in E1. now subst x.
    + destruct (String.eqb x "jarvis") eqn:E2; [|intros []].
      apply String.eqb_eq in E2. now subst x.
Qed.

Lemma exp_exists t q it : In it (exp t q) -> exists_ q t = true.
Proof.
  unfold exp, expected, exists_.
  destruct (lookup q t) as [n|]; [reflexivity | intros []].
Qed.

Lemma last_app_cons {A} (l : list A) x r d : last (l ++ x :: r) d = last (x :: r) d.
Proof.
  induction l as [|y l IH]; [reflexivity|].
  cbn [app]. rewrite <- IH.
  destruct (l ++ x :: r)%list eqn:E; [destruct l; discriminate E|].
  reflexivity.
Qed.

Lemma pname_snoc pn dn p y : pname pn dn (p ++ [y])%list = last p dn.
Proof.
  unfold pname. rewrite removelast_last.
  destruct (p ++ [y])%list eqn:E; [destruct p; discriminate E | reflexivity].
Qed.

Lemma protected_swap d x x' r :
  mem x SKIP_DIRS = false ->
  protected (d ++ x' :: r)%list = false -> protected (d ++ x :: r)%list = false.
Proof.
  intros Hx. rewrite !protected_app. cbn [protected existsb].
  rewrite Hx. intros H. apply orb_false_iff in H. destruct H as [H1 H2].
  apply orb_false_iff in H2. destruct H2 as [_ H2]. now rewrite H1, H2.
Qed.

(** What is expected below the new name after a directory has moved was
    expected below the old name before. *)
Lemma moved_exp t t' d x x' r it' :
  r <> [] ->
  lookup (d ++ x' :: r)%list t' = lookup (d ++ x :: r)%list t ->
  Str.contains template_token x = true ->
  (exists text, lookup (d ++ [x])%list t = Some (File text)) \/
  mem x' ["domains"; "agent_configs"] = false ->
  In it' (exp t' (d ++ x' :: r)%list) ->
  exists it'', In it'' (exp t (d ++ x :: r)%list).
Proof.
  intros Hr Hl Hx Halt. destruct (exists_last Hr) as [r0 [y ->]].
  pose proof (token_not_skipped x Hx) as Hskip.
  assert (Ea : forall z, (d ++ z :: r0 ++ [y])%list = ((d ++ z :: r0) ++ [y])%list)
    by (intros z; now rewrite <- app_assoc).
  unfold exp, expected. cbn [app]. rewrite Hl.
  destruct (lookup (d ++ x :: r0 ++ [y])%list t) as [[text|es]|] eqn:Hlk;
    [| |intros []].
  - rewrite !Ea, !split_last_snoc.
    destruct (protected (d ++ x' :: r0)%list) eqn:Hp; [intros []|].
    rewrite (protected_swap d x x' r0 Hskip Hp).
    destruct (Str.contains template_token y); [|intros []].
    intros _. eexists. now left.
  - destruct (protected (d ++ x' :: r0 ++ [y])%list) eqn:Hp; [intros []|].
    rewrite (protected_swap d x x' _ Hskip Hp).
    rewrite !Ea. unfold dir_rename, dname. rewrite !pname_snoc, !last_last.
    destruct (String.eqb y "autobots_agents_jarvis");
      [intros _; eexists; now left|].
    destruct (String.eqb y "jarvis"); [|intros []]. cbn [andb].
    rewrite !last_app_cons. destruct r0 as [|z r0].
    + cbn [last]. destruct (mem x' ["domains"; "agent_configs"]) eqn:Hm;
        [|intros []].
      destruct Halt as [[text Hf]|Hf]; [|discriminate Hf].
      cbn [app] in Hlk.
      change (d ++ [x; y])%list with (d ++ [x] ++ [y])%list in Hlk.
      rewrite app_assoc, lookup_app, Hf in Hlk. discriminate Hlk.
    + change (last (x' :: z :: r0) (root_name env))
        with (last (x :: z :: r0) (root_name env)).
      destruct (mem (last (x :: z :: r0) (root_name env))
                    ["domains"; "agent_configs"]); [|intros []].
      intros _. eexists. now left.
Qed.

Lemma lookup_rename_below old new src t r :
  lookup old t = Some src -> new <> [] ->
  List.length old = List.length new ->
  is_dir (parent new) t = true ->
  lookup (new ++ r)%list (put new src (remove old t)) =
  lookup (old ++ r)%list t.
Proof.
  intros Hsrc Hnew Hlen Hd.
  assert (Hold : old <> []) by (destruct old, new; try discriminate; auto).
  rewrite lookup_put_below; [now rewrite lookup_app, Hsrc | exact Hnew |].
  rewrite is_dir_view, (view_remove old _ t Hold).
  rewrite is_dir_view in Hd.
  destruct (is_prefix old (parent new)) eqn:E; [|exact Hd].
  apply is_prefix_length in E. pose proof (parent_length new Hnew). lia.
Qed.

Lemma in_step_start t : wf t = true -> in_step plan t (plan t).
Proof.
  intros Hwf. repeat split; auto.
  - now apply collect_post_order.
  - now apply collect_nodup.
Qed.

Lemma snoc_differs (d : path) x x' :
  Str.contains template_token x = true ->
  Str.contains template_token x' = false ->
  (d ++ [x])%list <> (d ++ [x'])%list.
Proof.
  intros Hx Hx' E. apply app_inv_head in E. injection E as ->. congruence.
Qed.

(** One turn of the second loop keeps the renames still to execute equal
    to the renames a fresh first loop would compute. *)
Lemma in_step_next t it rest :
  in_step plan t (it :: rest) ->
  ending (execute_rename false it t) = Returned tt ->
  in_step plan (tree (execute_rename false it t)) rest.
Proof.
  intros [Hwf [Hiff [Hpo Hnd]]] Hret.
  assert (Hpo1 : Forall (fun b => below (fst it) (fst b) = false) rest)
    by (inversion Hpo; assumption).
  assert (Hpo2 : post_order rest) by (inversion Hpo; assumption).
  cbn [List.map] in Hnd. apply NoDup_cons_iff in Hnd.
  destruct Hnd as [Hnd1 Hnd2].
  rewrite Forall_forall in Hpo1.
  assert (Hit : In it (plan t)) by (apply Hiff; now left).
  apply (plan_exp t Hwf) in Hit. destruct Hit as [q Hq].
  pose proof (exp_source _ _ _ Hq) as Hfst.
  pose proof (exp_exists _ _ _ Hq) as Hex.
  destruct it as [old onew]. cbn [fst] in *. subst q.
  unfold execute_rename in *. cbn [fst snd] in *.
  destruct onew as [new|]; [|discriminate Hret].
  destruct (exp_shape t old _ new Hq eq_refl)
    as [d [x [x' [Hold [Hnew [Hx [Hx' Halt]]]]]]].
  apply bind_returned_inv in Hret. destruct Hret as [t0 [H0 [Hret ->]]].
  cbn in H0. injection H0 as <-. cbn [get_tree tree] in *. rewrite Hex in *.
  apply bind_returned_inv in Hret. destruct Hret as [[] [Hren [_ ->]]].
  cbn [print emit tree].
  assert (Hne : old <> new)
    by (rewrite Hold, Hnew; now apply snoc_differs).
  destruct (rename_returned old new t Hren Hne)
    as [src [Hsrc [Hnn [Hd [Hfree ->]]]]].
  assert (Hlen : List.length old = List.length new)
    by (rewrite Hold, Hnew, !length_app; reflexivity).
  pose proof (view_rename old new src t Hsrc Hnn Hlen Hd) as Hview.
  set (t' := put new src (remove old t)) in *.
  assert (Hwf' : wf t' = true).
  { apply wf_put; [now apply wf_remove | eapply wf_lookup; eassumption]. }
  split; [exact Hwf'|]. split; [|split; assumption]. intros it0. split.
  - (* what a fresh first loop finds is still to execute *)
    intros Hin. apply (plan_exp t' Hwf') in Hin. destruct Hin as [q Hq'].
    destruct (is_prefix new q) eqn:Hn.
    + exfalso. apply is_prefix_split in Hn. destruct Hn as [r ->].
      destruct r as [|y r].
      * rewrite app_nil_r, Hnew in Hq'. apply exp_token in Hq'. congruence.
      * assert (Hmoved : exists it'', In it'' (exp t (old ++ y :: r)%list)).
        { rewrite Hold, <- app_assoc. cbn [app].
          apply (moved_exp t t' d x x' (y :: r) it0); auto; try discriminate.
          - replace (d ++ x' :: y :: r)%list with (new ++ y :: r)%list
              by (rewrite Hnew, <- app_assoc; reflexivity).
            replace (d ++ x :: y :: r)%list with (old ++ y :: r)%list
              by (rewrite Hold, <- app_assoc; reflexivity).
            now apply lookup_rename_below.
          - now rewrite <- Hold.
          - rewrite Hnew, <- app_assoc in Hq'. exact Hq'. }
        destruct Hmoved as [it'' Hit''].
        pose proof (exp_source _ _ _ Hit'') as Hsrc''.
        assert (Hin'' : In it'' ((old, Some new) :: rest)).
        { apply Hiff. apply (plan_exp t Hwf). eauto. }
        destruct Hin'' as [E|Hin''].
        -- rewrite <- E in Hsrc''. cbn in Hsrc''.
           rewrite <- (app_nil_r old) in Hsrc'' at 1.
           apply app_inv_head in Hsrc''. discriminate.
        -- specialize (Hpo1 _ Hin''). rewrite Hsrc'' in Hpo1.
           unfold below in Hpo1. rewrite is_prefix_app in Hpo1.
           destruct (path_eqb old (old ++ y :: r)%list) eqn:E;
             [|discriminate Hpo1].
           apply path_eqb_eq in E. rewrite <- (app_nil_r old) in E at 1.
           apply app_inv_head in E. discriminate.
    + specialize (Hview q). rewrite Hn in Hview.
      destruct (is_prefix old q) eqn:Ho.
      * unfold exp in Hq'. rewrite (expected_absent _ _ _ _ _ _ _ Hview) in Hq'.
        destruct Hq'.
      * unfold exp in Hq'. rewrite (expected_view _ _ _ _ _ _ _ _ Hview) in Hq'.
        assert (Hin : In it0 ((old, Some new) :: rest)).
        { apply Hiff. apply (plan_exp t Hwf). exists q. exact Hq'. }
        destruct Hin as [E|Hin]; [|exact Hin].
        apply expected_source in Hq'. rewrite <- E in Hq'. cbn in Hq'.
        subst q. now rewrite is_prefix_refl in Ho.
  - (* what is still to execute, a fresh first loop finds *)
    intros Hin.
    assert (Hin2 : In it0 (plan t)) by (apply Hiff; now right).
    apply (plan_exp t Hwf) in Hin2. destruct Hin2 as [q Hq2].
    pose proof (exp_source _ _ _ Hq2) as Hsrc2.
    assert (Ho : is_prefix old q = false).
    { destruct (is_prefix old q) eqn:Ho; [|reflexivity]. exfalso.
      specialize (Hpo1 _ Hin). rewrite Hsrc2 in Hpo1. unfold below in Hpo1.
      rewrite Ho in Hpo1. cbn [andb] in Hpo1. apply negb_false_iff in Hpo1.
      apply path_eqb_eq in Hpo1. apply Hnd1. rewrite Hpo1, <- Hsrc2.
      now apply in_map. }
    assert (Hn : is_prefix new q = false).
    { destruct (is_prefix new q) eqn:Hn; [|reflexivity]. exfalso.
      apply is_prefix_split in Hn. destruct Hn as [r ->].
      destruct r as [|y r].
      - rewrite app_nil_r, Hnew in Hq2. apply exp_token in Hq2. congruence.
      - apply exp_exists in Hq2. unfold exists_ in Hq2.
        now rewrite Hfree in Hq2. }
    specialize (Hview q). rewrite Hn, Ho in Hview.
    apply (plan_exp t' Hwf'). exists q. unfold exp.
    now rewrite (expected_view _ _ _ _ _ _ _ _ Hview).
Qed.

Lemma in_step_run todo :
  forall t,
    in_step plan t todo ->
    ending (execute_renames false todo t) = Returned tt ->
    in_step plan (tree (execute_renames false todo t)) [].
Proof.
  induction todo as [|it rest IH]; intros t Hin Hret; [exact Hin|].
  unfold execute_renames in *. cbn [for_each] in *.
  apply bind_returned_inv in Hret. destruct Hret as [[] [H1 [H2 ->]]].
  apply IH; [|exact H2]. now apply in_step_next.
Qed.

(** After a first run that returns, a fresh first loop finds nothing. *)
Lemma rerun_empty t :
  wf t = true ->
  ending (execute_renames false (plan t) t) = Returned tt ->
  plan (tree (execute_renames false (plan t) t)) = [].
Proof.
  intros Hwf Hret.
  destruct (in_step_run (plan t) t (in_step_start t Hwf) Hret)
    as [_ [Hiff _]].
  destruct (plan (tree (execute_renames false (plan t) t))) as [|it l];
    [reflexivity|].
  destruct (proj1 (Hiff it) (or_introl eq_refl)).
Qed.

End Rerun.

(** C5 (as the code has it).  Let the snake-case name be clear of the
    token "jarvis" (neither occurs in the other, the name does not begin
    with an ending of "jarvis" nor end with a beginning of it) and be
    neither "domains" nor "agent_configs".  Then on every tree with unique
    names on which a first run of the renamer returns, a second run
    computes no rename at all: it emits nothing and leaves the tree as it
    is. *)
Theorem second_rename_run_is_empty :
  forall (env : Env) (nm : string) (t : node),
    let names := variants nm in
    clear_of template_token (snake_name names) = true ->
    mem (snake_name names) ["domains"; "agent_configs"] = false ->
    wf t = true ->
    ending (rename_paths env names false t) = Returned tt ->
    let t' := tree (rename_paths env names false t) in
    paths_to_rename env names t' = [] /\
    rename_paths env names false t' = mkRun [] (Returned tt) t'.
Proof.
  intros env nm t names Hclear Hsn Hwf Hret t'.
  assert (Hplan : paths_to_rename env names t' = []).
  { subst t'. unfold rename_paths in *.
    apply bind_returned_inv in Hret. destruct Hret as [t0 [H0 [Hret ->]]].
    cbn in H0. injection H0 as <-. cbn [get_tree tree] in *.
    unfold paths_to_rename in *.
    exact (rerun_empty env (snake_name names) (package_name names)
             Hclear eq_refl Hsn t Hwf Hret). }
  split; [exact Hplan|].
  unfold rename_paths, bind. cbn [get_tree ending tree trace].
  rewrite Hplan. reflexivity.
Qed.

Lemma second_rename_run_is_empty_witness :
  paths_to_rename sample_env (variants "kbe-pay")
    (tree (rename_paths sample_env (variants "kbe-pay") false sample_tree)) = [].
Proof.
  apply (second_rename_run_is_empty sample_env "kbe-pay" sample_tree);
    reflexivity.
Defined.

(** C5, as stated, fails: "jarvis2" is a valid name; the first run renames
    [jarvis.txt] to [jarvis2.txt], which the second run renames again. *)
Lemma second_run_renames_again :
  let names := variants "jarvis2" in
  let t := Dir [("jarvis.txt", File (Some "x"))] in
  let t' := tree (rename_paths sample_env names false t) in
  re_match "jarvis2" = true /\
  ending (rename_paths sample_env names false t) = Returned tt /\
  t' = Dir [("jarvis2.txt", File (Some "x"))] /\
  trace (rename_paths sample_env names false t') =
    [ERename ["jarvis2.txt"] ["jarvis22.txt"];
     EPrint "Renamed: jarvis2.txt -> jarvis22.txt"].
Proof. repeat split; vm_compute; reflexivity. Qed.

(** The same happens to a name that begins with an ending of the token:
    with "sales", [jarvijarvis] becomes [jarvisales], then [salesales]. *)
Remark second_run_renames_joined_token :
  let names := variants "sales" in
  let t := Dir [("jarvijarvis", File (Some "x"))] in
  let t' := tree (rename_paths sample_env names false t) in
  clear_of template_token "sales" = false /\
  t' = Dir [("jarvisales", File (Some "x"))] /\
  tree (rename_paths sample_env names false t') =
    Dir [("salesales", File (Some "x"))].
Proof. repeat split; vm_compute; reflexivity. Qed.

(** And to the name "domains": a directory [jarvis] inside the renamed
    [domains/jarvis] gets a parent called [domains] by the first run. *)
Remark second_run_renames_under_new_parent :
  let names := variants "domains" in
  let t := Dir [("domains", Dir [("jarvis", Dir [("jarvis", Dir [])])])] in
  let t' := tree (rename_paths sample_env names false t) in
  clear_of template_token "domains" = true /\
  t' = Dir [("domains", Dir [("domains", Dir [("jarvis", Dir [])])])] /\
  paths_to_rename sample_env names t' =
    [(["domains"; "domains"; "jarvis"], Some ["domains"; "domains"; "domains"])].
Proof. repeat split; vm_compute; reflexivity. Qed.

(* ================================================================== *)
(** * Further properties of the script *)
(* ================================================================== *)

(** ** The table applied to a text *)

Lemma old_holds_token names r :
  In r (build_replacements names) ->
  Str.contains "jarvis" (fst r) = true \/
  Str.contains "Jarvis" (fst r) = true \/
  Str.contains "JARVIS" (fst r) = true.
Proof.
  unfold build_replacements. cbn [In].
  intros H.
  repeat (destruct H as [<-|H]; [cbn [fst]; first
    [ left; reflexivity | right; left; reflexivity
    | right; right; reflexivity ]|]).
  destruct H.
Qed.

(** X1.  A text that holds the token in none of its three spellings is
    left as it is by the whole table, whatever the names. *)
Theorem table_leaves_plain_text :
  forall (names : NameVariants) (content : string),
    Str.contains "jarvis" content = false ->
    Str.contains "Jarvis" content = false ->
    Str.contains "JARVIS" content = false ->
    apply_replacements content (build_replacements names) = content.
Proof.
  intros names content H1 H2 H3. apply apply_replacements_absent.
  intros r Hr. destruct (old_holds_token names r Hr) as [H|[H|H]];
    eapply absent_by; eassumption.
Qed.

Lemma table_leaves_plain_text_witness :
  apply_replacements "import os" (build_replacements (variants "kbe-pay")) =
  "import os".
Proof.
  apply (table_leaves_plain_text (variants "kbe-pay") "import os");
    reflexivity.
Defined.

(** A replacement that is clear of [u] brings no [u] into a text that held
    none, whatever it replaces. *)
Lemma replace_go_keeps_clear u w new :
  clear_of u new = true ->
  forall s k, Str.contains u s = false ->
              Str.contains u (Str.replace_go w new k s) = false.
Proof.
  intros Hclear.
  destruct u as [|c0 u']; [discriminate Hclear|].
  cbn [clear_of] in Hclear.
  apply andb_prop in Hclear. destruct Hclear as [Hc H4].
  apply andb_prop in Hc. destruct Hc as [Hc H3].
  apply andb_prop in Hc. destruct Hc as [H1 H2].
  apply negb_true_iff in H1, H2.
  induction s as [|c s IH]; intros k Hs; [reflexivity|].
  rewrite contains_cons in Hs. apply orb_false_iff in Hs.
  destruct Hs as [Hp Hs]. cbn [Str.replace_go].
  destruct k as [|k]; [|now apply IH].
  destruct (prefix w (String c s)).
  - destruct (Str.contains (String c0 u')
                (new ++ Str.replace_go w new (String.length w - 1) s)) eqn:E;
      [|reflexivity].
    apply contains_app_cases in E; [|exact H4].
    destruct E as [E|E]; [congruence | now rewrite IH in E].
  - rewrite contains_cons, (IH 0 Hs), orb_false_r.
    destruct (prefix (String c0 u') (String c (Str.replace_go w new 0 s)))
      eqn:E; [|reflexivity].
    rewrite prefix_cons in *. apply andb_prop in E. destruct E as [E1 E2].
    rewrite E1 in Hp. cbn [andb] in Hp.
    rewrite contains_cons in H2. apply orb_false_iff in H2.
    now rewrite (replace_go_prefix w new s u' H3 (proj2 H2) E2) in Hp.
Qed.

Lemma replace_keeps_clear u c w new s :
  clear_of u new = true -> Str.contains u s = false ->
  Str.contains u (Str.replace (String c w) new s) = false.
Proof.
  intros Hclear Hs. rewrite replace_nonempty.
  now apply replace_go_keeps_clear.
Qed.

(** X2.  When the upper-case, display and snake forms of the name are
    clear of the tokens (the check [leaves_no_token]), the text the table
    produces holds the token in none of its three spellings, whatever the
    text was. *)
Theorem table_removes_every_token :
  forall (names : NameVariants) (content : string),
    leaves_no_token names = true ->
    let result := apply_replacements content (build_replacements names) in
    Str.contains "jarvis" result = false /\
    Str.contains "Jarvis" result = false /\
    Str.contains "JARVIS" result = false.
Proof.
  intros names content H result. unfold leaves_no_token in H.
  do 5 (apply andb_prop in H; destruct H as [H ?]).
  subst result. unfold build_replacements. cbn [apply_replacements].
  set (c15 := Str.replace "jarvis_ui" _ _).
  set (c16 := Str.replace "JARVIS" (Str.upper (snake_name names)) c15).
  set (c17 := Str.replace "Jarvis" (display_name names) c16).
  assert (H16 : Str.contains "JARVIS" c16 = false)
    by now apply replace_clear.
  assert (H17 : Str.contains "Jarvis" c17 = false)
    by now apply replace_clear.
  assert (H17' : Str.contains "JARVIS" c17 = false)
    by now apply replace_keeps_clear.
  repeat split.
  - now apply replace_clear.
  - now apply replace_keeps_clear.
  - now apply replace_keeps_clear.
Qed.

Lemma table_removes_every_token_witness :
  Str.contains "jarvis"
    (apply_replacements "class JarvisSettings: JARVIS_DIR = jarvis_chat"
       (build_replacements (variants "kbe-pay"))) = false.
Proof.
  apply (table_removes_every_token (variants "kbe-pay")
           "class JarvisSettings: JARVIS_DIR = jarvis_chat").
  reflexivity.
Defined.

(** The check is needed: with the name "s" the display form "S" completes
    a token from the text before it. *)
Remark table_can_bring_a_token_back :
  re_match "s" = true /\
  leaves_no_token (variants "s") = false /\
  apply_replacements "JARVIJarvis" (build_replacements (variants "s")) =
    "JARVIS".
Proof. repeat split; vm_compute; reflexivity. Qed.

(** ** The derived names *)

Lemma unsnake_is_map s : Str.replace "_" "-" s = Str.map unsnake_char s.
Proof.
  rewrite replace_nonempty. induction s as [|c s IH]; [reflexivity|].
  cbn [Str.replace_go Str.map]. rewrite prefix_cons, prefix_nil, andb_true_r.
  unfold unsnake_char at 1. rewrite (Ascii.eqb_sym c "_"%char). unfold hyphen.
  destruct (Ascii.eqb "_"%char c); cbn [String.length Nat.sub String.append];
    now rewrite IH.
Qed.

Lemma unsnake_snake c : name_char c = true -> unsnake_char (snake_char c) = c.
Proof. destruct c as [[] [] [] [] [] [] [] []]; try reflexivity; discriminate. Qed.

Lemma map_map_id f g s :
  (forall c, name_char c = true -> g (f c) = c) ->
  all_chars name_char s = true -> Str.map g (Str.map f s) = s.
Proof.
  intros H. induction s as [|c s IH]; [reflexivity|]. cbn [all_chars Str.map].
  intros Hs. apply andb_prop in Hs. destruct Hs as [H1 H2].
  now rewrite (H c H1), (IH H2).
Qed.

Lemma snake_back nm :
  re_match nm = true -> Str.replace "_" "-" (snake_name (variants nm)) = nm.
Proof.
  intros H. cbn [snake_name variants]. rewrite unsnake_is_map, snake_is_map.
  apply map_map_id; [exact unsnake_snake | now apply re_match_chars].
Qed.

(** X3.  For a valid name the snake-case form determines the name:
    replacing its underscores by hyphens gives the name back, so two valid
    names with the same package name are the same name. *)
Theorem snake_name_round_trip :
  forall nm : string,
    re_match nm = true ->
    Str.replace "_" "-" (snake_name (variants nm)) = nm /\
    (forall nm', re_match nm' = true ->
                 package_name (variants nm) = package_name (variants nm') ->
                 nm = nm').
Proof.
  intros nm H. split; [now apply snake_back|].
  intros nm' H' E.
  assert (Es : snake_name (variants nm) = snake_name (variants nm')).
  { change ("autobots_" ++ snake_name (variants nm)
            = "autobots_" ++ snake_name (variants nm')) in E.
    cbn [String.append] in E. now injection E. }
  exact (eq_trans (eq_sym (snake_back nm H))
           (eq_trans (f_equal (Str.replace "_" "-") Es) (snake_back nm' H'))).
Qed.

Lemma snake_name_round_trip_witness :
  Str.replace "_" "-" (snake_name (variants "kbe-pay")) = "kbe-pay".
Proof. exact (proj1 (snake_name_round_trip "kbe-pay" eq_refl)). Defined.

Lemma all_chars_both P Q s :
  all_chars P s = true -> all_chars Q s = true ->
  all_chars (fun c => P c && Q c) s = true.
Proof.
  induction s as [|c s IH]; [reflexivity|]. cbn [all_chars]. intros H1 H2.
  apply andb_prop in H1, H2. destruct H1 as [-> H1], H2 as [-> H2].
  now rewrite IH.
Qed.

Lemma plain_name_snake c :
  name_char c && differs newline c = true -> ident_char (snake_char c) = true.
Proof. destruct c as [[] [] [] [] [] [] [] []]; try reflexivity; discriminate. Qed.

Lemma plain_name_caps c :
  name_char c && differs newline c = true ->
  Ascii.eqb c hyphen = false ->
  alnum (Str.upper_char c) = true /\ alnum (Str.lower_char c) = true.
Proof.
  destruct c as [[] [] [] [] [] [] [] []]; cbn; intros H1 H2;
    try discriminate; split; reflexivity.
Qed.

Lemma caps_alnum s :
  all_chars (fun c => name_char c && differs newline c) s = true ->
  forall start, all_chars alnum (caps "" start s) = true.
Proof.
  induction s as [|c s IH]; intros Hs start; [reflexivity|].
  cbn [all_chars] in Hs. apply andb_prop in Hs. destruct Hs as [Hc Hs].
  cbn [caps]. destruct (Ascii.eqb c hyphen) eqn:E.
  - cbn [String.append]. now apply IH.
  - cbn [all_chars]. destruct (plain_name_caps c Hc E) as [H1 H2].
    rewrite (IH Hs false). now destruct start; rewrite ?H1, ?H2.
Qed.

Lemma lower_upper c : Str.is_lower c = true -> Str.is_upper (Str.upper_char c) = true.
Proof. destruct c as [[] [] [] [] [] [] [] []]; try reflexivity; discriminate. Qed.

(** X4.  For a valid name without the final newline that [re.match]
    tolerates, the package name is a lower-case Python identifier
    (letters, digits and underscores), and the PascalCase name begins with
    a capital letter and is made of letters and digits only. *)
Theorem derived_names_are_identifiers :
  forall nm : string,
    re_match nm = true ->
    all_chars (differs newline) nm = true ->
    all_chars ident_char (package_name (variants nm)) = true /\
    all_chars alnum (pascal_name (variants nm)) = true /\
    exists c rest, pascal_name (variants nm) = String c rest /\
                   Str.is_upper c = true.
Proof.
  intros nm Hre Hnl.
  pose proof (all_chars_both _ _ _ (re_match_chars nm Hre) Hnl) as Hc.
  split; [|split].
  - cbn [package_name variants]. rewrite all_chars_app. cbn [andb].
    change (all_chars ident_char "autobots_") with true. cbn [andb].
    rewrite snake_is_map.
    exact (all_chars_map_from _ _ _ _ plain_name_snake Hc).
  - rewrite pascal_is_caps. now apply caps_alnum.
  - rewrite pascal_is_caps. destruct nm as [|c s]; [discriminate Hre|].
    cbn [re_match] in Hre. apply andb_prop in Hre. destruct Hre as [Hl _].
    cbn [caps].
    assert (E : Ascii.eqb c hyphen = false)
      by (destruct c as [[] [] [] [] [] [] [] []]; try reflexivity;
          discriminate Hl).
    rewrite E. eexists _, _. split; [reflexivity | now apply lower_upper].
Qed.

Lemma derived_names_are_identifiers_witness :
  all_chars ident_char (package_name (variants "kbe-pay")) = true.
Proof.
  exact (proj1 (derived_names_are_identifiers "kbe-pay" eq_refl eq_refl)).
Defined.

(** Without the second hypothesis the newline reaches the derived names. *)
Remark final_newline_reaches_the_names :
  let nm := String.append "app" (String newline EmptyString) in
  re_match nm = true /\
  all_chars ident_char (package_name (variants nm)) = false.
Proof. split; reflexivity. Qed.

(** ** Binary files *)

Lemma from_last_dot_map f s :
  (forall c, Ascii.eqb (f c) "."%char = Ascii.eqb c "."%char) ->
  from_last_dot (Str.map f s) = option_map (Str.map f) (from_last_dot s).
Proof.
  intros Hf. induction s as [|c s IH]; [reflexivity|].
  cbn [Str.map from_last_dot]. rewrite IH, Hf.
  destruct (from_last_dot s); [reflexivity|].
  now destruct (Ascii.eqb c "."%char).
Qed.

Lemma length_map f s : String.length (Str.map f s) = String.length s.
Proof. induction s; simpl; auto. Qed.

Lemma suffix_map f s :
  (forall c, Ascii.eqb (f c) "."%char = Ascii.eqb c "."%char) ->
  suffix (Str.map f s) = Str.map f (suffix s).
Proof.
  intros Hf. destruct s as [|c s]; [reflexivity|].
  cbn [Str.map suffix]. rewrite (from_last_dot_map f s Hf).
  destruct (from_last_dot s) as [t|]; [|reflexivity].
  cbn [option_map]. rewrite length_map.
  now destruct (Nat.eqb (String.length t) 1).
Qed.

Lemma map_map f g s : Str.map g (Str.map f s) = Str.map (fun c => g (f c)) s.
Proof. induction s as [|c s IH]; [reflexivity|]. simpl. now rewrite IH. Qed.

Lemma map_ext f g s : (forall c, f c = g c) -> Str.map f s = Str.map g s.
Proof.
  intros H. induction s as [|c s IH]; [reflexivity|]. simpl.
  now rewrite H, IH.
Qed.

Lemma upper_keeps_dot c :
  Ascii.eqb (Str.upper_char c) "."%char = Ascii.eqb c "."%char.
Proof. destruct c as [[] [] [] [] [] [] [] []]; reflexivity. Qed.

Lemma lower_keeps_dot c :
  Ascii.eqb (Str.lower_char c) "."%char = Ascii.eqb c "."%char.
Proof. destruct c as [[] [] [] [] [] [] [] []]; reflexivity. Qed.

Lemma lower_of_upper c : Str.lower_char (Str.upper_char c) = Str.lower_char c.
Proof. destruct c as [[] [] [] [] [] [] [] []]; reflexivity. Qed.

Lemma lower_of_lower c : Str.lower_char (Str.lower_char c) = Str.lower_char c.
Proof. destruct c as [[] [] [] [] [] [] [] []]; reflexivity. Qed.

Lemma ascii_not_kelvin c s :
  (Str.code c <? 128)%N = true -> prefix Str.kelvin (String c s) = false.
Proof.
  intros H. unfold Str.kelvin. rewrite prefix_cons.
  destruct c as [[] [] [] [] [] [] [] []]; try discriminate H; reflexivity.
Qed.

(** On ASCII text the two lower cases agree. *)
Lemma lower_utf8_ascii s : ascii_only s = true -> Str.lower_utf8 s = Str.lower s.
Proof.
  unfold Str.lower_utf8, Str.lower, ascii_only.
  induction s as [|c s IH]; [reflexivity|].
  cbn [all_chars]. intros H. apply andb_prop in H. destruct H as [Hc Hs].
  cbn [Str.lower_go Str.map]. now rewrite (ascii_not_kelvin c s Hc), (IH Hs).
Qed.

Lemma from_last_dot_chars P s t :
  all_chars P s = true -> from_last_dot s = Some t -> all_chars P t = true.
Proof.
  induction s as [|c s IH]; [discriminate|].
  cbn [all_chars from_last_dot]. intros H. pose proof H as H'.
  apply andb_prop in H. destruct H as [Hc Hs].
  destruct (from_last_dot s) as [t'|].
  - intros [= <-]. now apply IH.
  - destruct (Ascii.eqb c "."%char); [|discriminate].
    intros [= <-]. exact H'.
Qed.

Lemma suffix_chars P s : all_chars P s = true -> all_chars P (suffix s) = true.
Proof.
  destruct s as [|c s]; [reflexivity|]. cbn [all_chars suffix]. intros H.
  apply andb_prop in H. destruct H as [_ Hs].
  destruct (from_last_dot s) as [t|] eqn:E; [|reflexivity].
  destruct (Nat.eqb (String.length t) 1); [reflexivity|].
  exact (from_last_dot_chars P s t Hs E).
Qed.

Lemma is_binary_ascii filename :
  ascii_only filename = true ->
  is_binary filename = mem (Str.lower (suffix filename)) BINARY_EXTENSIONS.
Proof.
  intros H. unfold is_binary. rewrite lower_utf8_ascii; [reflexivity|].
  now apply suffix_chars.
Qed.

Lemma upper_char_ascii c :
  (Str.code c <? 128)%N = true -> (Str.code (Str.upper_char c) <? 128)%N = true.
Proof. destruct c as [[] [] [] [] [] [] [] []]; trivial. Qed.

Lemma lower_char_ascii c :
  (Str.code c <? 128)%N = true -> (Str.code (Str.lower_char c) <? 128)%N = true.
Proof. destruct c as [[] [] [] [] [] [] [] []]; trivial. Qed.

(** X5.  Whether a file with an ASCII name counts as binary does not
    depend on the case of the name: the name in upper case and the name in
    lower case are classified as the name itself. *)
Theorem is_binary_ignores_case :
  forall filename : string,
    ascii_only filename = true ->
    is_binary (Str.upper filename) = is_binary filename /\
    is_binary (Str.lower filename) = is_binary filename.
Proof.
  intros filename H.
  assert (Hu : ascii_only (Str.upper filename) = true)
    by exact (all_chars_map_from _ _ _ _ upper_char_ascii H).
  assert (Hl : ascii_only (Str.lower filename) = true)
    by exact (all_chars_map_from _ _ _ _ lower_char_ascii H).
  rewrite (is_binary_ascii _ Hu), (is_binary_ascii _ Hl), (is_binary_ascii _ H).
  unfold Str.upper, Str.lower. split.
  - rewrite (suffix_map _ _ upper_keeps_dot), map_map.
    now rewrite (map_ext _ _ _ lower_of_upper).
  - rewrite (suffix_map _ _ lower_keeps_dot), map_map.
    now rewrite (map_ext _ _ _ lower_of_lower).
Qed.

Lemma is_binary_ignores_case_witness :
  is_binary (Str.upper "logo.png") = is_binary "logo.png" /\
  is_binary "LOGO.PNG" = true.
Proof.
  split; [|reflexivity].
  exact (proj1 (is_binary_ignores_case "logo.png" eq_refl)).
Defined.

(** The comparison is Python's on Unicode text: the Kelvin sign is
    lowered to [k], so a name ending in [.loc] and that sign is binary; no
    other character outside ASCII is lowered into ASCII. *)
Remark kelvin_sign_extension_is_binary :
  is_binary (String.append "poetry.loc" Str.kelvin) = true /\
  is_binary (String.append "logo."
               (String "196"%char (String "176"%char "co"))) = false.
Proof. split; reflexivity. Qed.

Lemma from_last_dot_app stem e :
  from_last_dot e = None ->
  from_last_dot (stem ++ String "."%char e) = Some (String "."%char e).
Proof.
  intros He. induction stem as [|c stem IH].
  - cbn [String.append from_last_dot]. now rewrite He.
  - cbn [String.append from_last_dot]. now rewrite IH.
Qed.

Lemma listed_extension ext :
  In ext BINARY_EXTENSIONS ->
  exists c e, ext = String "."%char (String c e) /\
              from_last_dot (String c e) = None /\
              mem (Str.lower_utf8 ext) BINARY_EXTENSIONS = true.
Proof.
  intros H.
  repeat (destruct H as [<-|H];
          [eexists _, _; split; [reflexivity | split; reflexivity]|]).
  destruct H.
Qed.

(** X6.  A file name made of a non-empty stem and one of the listed
    extensions is binary, but a file whose whole name is a listed
    extension, such as [.lock], is not: its leading dot does not start a
    suffix. *)
Theorem listed_extension_needs_a_stem :
  forall (stem ext : string),
    In ext BINARY_EXTENSIONS ->
    is_binary ext = false /\
    (stem <> EmptyString -> is_binary (stem ++ ext) = true).
Proof.
  intros stem ext H.
  destruct (listed_extension ext H) as [c [e [-> [He Hm]]]]. split.
  - unfold is_binary. cbn [suffix]. cbn [from_last_dot] in He |- *.
    destruct (from_last_dot e); [discriminate He|].
    destruct (Ascii.eqb c "."%char); [discriminate He|]. reflexivity.
  - intros Hs. destruct stem as [|c0 stem]; [contradiction|].
    unfold is_binary. cbn [String.append suffix].
    rewrite (from_last_dot_app stem _ He). cbn [String.length Nat.eqb].
    exact Hm.
Qed.

Lemma listed_extension_needs_a_stem_witness :
  is_binary ".lock" = false /\ is_binary "poetry.lock" = true.
Proof.
  destruct (listed_extension_needs_a_stem "poetry" ".lock") as [H1 H2].
  - unfold BINARY_EXTENSIONS. do 22 right. left. reflexivity.
  - split; [exact H1 | apply H2; discriminate].
Defined.

(** ** Steps 1 and 2: what is removed *)

Lemma exists_view p t :
  exists_ p t = match view p t with Some _ => true | None => false end.
Proof. unfold exists_, view. now destruct (lookup p t). Qed.

(** Nothing lies below a path that does not exist. *)
Lemma absent_below p :
  forall q t, exists_ p t = false -> is_prefix p q = true -> view q t = None.
Proof.
  induction p as [|x p IH]; intros q t He Hq; [discriminate He|].
  destruct q as [|y q]; [discriminate Hq|].
  rewrite is_prefix_cons in Hq. apply andb_prop in Hq. destruct Hq as [Hx Hq].
  apply String.eqb_eq in Hx. subst y.
  unfold exists_, view in *. destruct t as [text|es]; [reflexivity|].
  rewrite lookup_cons in *.
  destruct (find_entry x es) as [c|]; [|reflexivity].
  now apply IH.
Qed.

Section Removal.

Variable step : bool -> path -> M unit.
Variable would : path -> string.

Hypothesis step_absent : forall dry p t,
  exists_ p t = false -> step dry p t = mkRun [] (Returned tt) t.
Hypothesis step_dry : forall p t,
  exists_ p t = true -> step true p t = mkRun [EPrint (would p)] (Returned tt) t.
Hypothesis step_real : forall p t,
  exists_ p t = true ->
  exists line,
    step false p t = mkRun [ERemove p; EPrint line] (Returned tt) (remove p t).

Lemma removal_cons dry p l t :
  for_each (step dry) (p :: l) t =
  mkRun (trace (step dry p t) ++ trace (for_each (step dry) l (tree (step dry p t))))%list
        (ending (for_each (step dry) l (tree (step dry p t))))
        (tree (for_each (step dry) l (tree (step dry p t)))).
Proof.
  cbn [for_each]. apply bind_returned with (a := tt).
  destruct (exists_ p t) eqn:E.
  - destruct dry.
    + now rewrite (step_dry p t E).
    + destruct (step_real p t E) as [line ->]. reflexivity.
  - now rewrite (step_absent dry p t E).
Qed.

Lemma removal_real l :
  forall t, Forall (fun p => p <> []) l ->
    ending (for_each (step false) l t) = Returned tt /\
    forall q, view q (tree (for_each (step false) l t)) =
              if under l q then None else view q t.
Proof.
  induction l as [|p l IH]; intros t Hl; [split; reflexivity|].
  inversion Hl as [|? ? Hp Hl']; subst.
  rewrite removal_cons. cbn [ending tree under existsb].
  destruct (exists_ p t) eqn:E.
  - destruct (step_real p t E) as [line ->]. cbn [tree].
    destruct (IH (remove p t) Hl') as [H1 H2]. split; [exact H1|].
    intros q. rewrite H2, (view_remove p q t Hp). fold (under l q).
    destruct (is_prefix p q), (under l q); reflexivity.
  - rewrite (step_absent false p t E). cbn [tree].
    destruct (IH t Hl') as [H1 H2]. split; [exact H1|].
    intros q. rewrite H2. fold (under l q).
    destruct (is_prefix p q) eqn:Hq; [|reflexivity].
    rewrite (absent_below p q t E Hq). now destruct (under l q).
Qed.

Lemma removal_nothing_left dry l :
  forall t, Forall (fun p => exists_ p t = false) l ->
    for_each (step dry) l t = mkRun [] (Returned tt) t.
Proof.
  induction l as [|p l IH]; intros t Hl; [reflexivity|].
  inversion Hl as [|? ? Hp Hl']; subst.
  rewrite removal_cons, (step_absent dry p t Hp). cbn [trace tree].
  now rewrite (IH t Hl').
Qed.

Lemma is_prefix_self (p : path) : is_prefix p p = true.
Proof. induction p as [|x p IH]; [reflexivity|]. cbn. now rewrite String.eqb_refl. Qed.

Lemma removal_again dry l t :
  Forall (fun p => p <> []) l ->
  for_each (step dry) l (tree (for_each (step false) l t)) =
  mkRun [] (Returned tt) (tree (for_each (step false) l t)).
Proof.
  intros Hl. apply removal_nothing_left. apply Forall_forall. intros p Hp.
  rewrite exists_view. destruct (removal_real l t Hl) as [_ H]. rewrite H.
  assert (Hu : under l p = true).
  { apply existsb_exists. exists p. split; [exact Hp | apply is_prefix_self]. }
  now rewrite Hu.
Qed.

Lemma removal_dry l t :
  trace (for_each (step true) l t) =
  List.map (fun p => EPrint (would p)) (filter (fun p => exists_ p t) l) /\
  tree (for_each (step true) l t) = t.
Proof.
  induction l as [|p l [IH1 IH2]]; [split; reflexivity|].
  rewrite removal_cons. cbn [trace tree filter].
  destruct (exists_ p t) eqn:E.
  - rewrite (step_dry p t E). cbn [trace tree List.map List.app].
    now rewrite IH1, IH2.
  - rewrite (step_absent true p t E). cbn [trace tree List.app].
    now rewrite IH1, IH2.
Qed.

Lemma removal_order l :
  forall t t', Forall (fun p => p <> []) l -> apart l = true ->
    Forall (fun p => exists_ p t' = exists_ p t) l ->
    removed (trace (for_each (step false) l t')) =
    filter (fun p => exists_ p t) l.
Proof.
  induction l as [|p l IH]; intros t t' Hl Ha Hs; [reflexivity|].
  inversion Hl as [|? ? Hp Hl']; subst.
  inversion Hs as [|? ? Hpe Hs']; subst.
  cbn [apart] in Ha. apply andb_prop in Ha. destruct Ha as [Ha1 Ha2].
  rewrite removal_cons. cbn [trace filter]. rewrite <- Hpe.
  destruct (exists_ p t') eqn:E.
  - destruct (step_real p t' E) as [line ->]. cbn [trace tree List.app removed flat_map].
    fold (removed (trace (for_each (step false) l (remove p t')))).
    f_equal. apply IH; auto.
    rewrite Forall_forall in *. intros q Hq.
    rewrite <- (Hs' q Hq), !exists_view, (view_remove p q t' Hp).
    rewrite forallb_forall in Ha1. specialize (Ha1 q Hq).
    now destruct (is_prefix p q).
  - rewrite (step_absent false p t' E). cbn [trace tree List.app].
    now apply IH.
Qed.

End Removal.

Lemma clean_one_absent dry p t :
  exists_ p t = false -> clean_one dry p t = mkRun [] (Returned tt) t.
Proof. intros E. unfold clean_one, bind, get_tree. cbn. now rewrite E. Qed.

Lemma clean_one_dry p t :
  exists_ p t = true ->
  clean_one true p t = mkRun [EPrint (would_clean p)] (Returned tt) t.
Proof. intros E. unfold clean_one, bind, get_tree. cbn. now rewrite E. Qed.

Lemma clean_one_real p t :
  exists_ p t = true ->
  exists line,
    clean_one false p t = mkRun [ERemove p; EPrint line] (Returned tt) (remove p t).
Proof.
  intros E. unfold clean_one, bind, get_tree. cbn. rewrite E. cbn.
  destruct (is_dir p t); eexists; reflexivity.
Qed.

Lemma remove_one_absent dry p t :
  exists_ p t = false -> remove_one dry p t = mkRun [] (Returned tt) t.
Proof. intros E. unfold remove_one, bind, get_tree. cbn. now rewrite E. Qed.

Lemma remove_one_dry p t :
  exists_ p t = true ->
  remove_one true p t = mkRun [EPrint (would_remove p)] (Returned tt) t.
Proof. intros E. unfold remove_one, bind, get_tree. cbn. now rewrite E. Qed.

Lemma remove_one_real p t :
  exists_ p t = true ->
  exists line,
    remove_one false p t = mkRun [ERemove p; EPrint line] (Returned tt) (remove p t).
Proof.
  intros E. unfold remove_one, bind, get_tree. cbn. rewrite E. cbn.
  destruct (is_dir p t); eexists; reflexivity.
Qed.

Lemma listed_nonempty (l : list path) :
  forallb (fun p => negb (path_eqb p [])) l = true ->
  Forall (fun p => p <> []) l.
Proof.
  intros H. apply Forall_forall. intros p Hp ->.
  rewrite forallb_forall in H. now specialize (H [] Hp).
Qed.

Lemma artifacts_nonempty : Forall (fun p : path => p <> []) ARTIFACTS_TO_CLEAN.
Proof. now apply listed_nonempty. Qed.

Lemma demo_nonempty : Forall (fun p : path => p <> []) PATHS_TO_REMOVE.
Proof. now apply listed_nonempty. Qed.

(** X7.  A real run of [clean_artifacts] and of [remove_demo_content]
    returns, and leaves the tree as it was except that the listed paths and
    everything below them are gone: nothing else is removed and nothing is
    changed. *)
Theorem removal_steps_remove_the_listed_paths :
  forall (t : node) (q : path),
    (ending (clean_artifacts false t) = Returned tt /\
     view q (tree (clean_artifacts false t)) =
     if under ARTIFACTS_TO_CLEAN q then None else view q t) /\
    (ending (remove_demo_content false t) = Returned tt /\
     view q (tree (remove_demo_content false t)) =
     if under PATHS_TO_REMOVE q then None else view q t).
Proof.
  intros t q. split.
  - destruct (removal_real clean_one would_clean clean_one_absent
               clean_one_dry clean_one_real
                ARTIFACTS_TO_CLEAN t artifacts_nonempty) as [H1 H2].
    split; [exact H1 | apply H2].
  - destruct (removal_real remove_one would_remove remove_one_absent
               remove_one_dry remove_one_real
                PATHS_TO_REMOVE t demo_nonempty) as [H1 H2].
    split; [exact H1 | apply H2].
Qed.

(** X8.  After a real run of [clean_artifacts] or [remove_demo_content],
    running the same step again, for real or as a dry run, prints nothing
    and changes nothing. *)
Theorem removal_steps_run_once :
  forall (t : node) (dry_run : bool),
    let t1 := tree (clean_artifacts false t) in
    let t2 := tree (remove_demo_content false t) in
    clean_artifacts dry_run t1 = mkRun [] (Returned tt) t1 /\
    remove_demo_content dry_run t2 = mkRun [] (Returned tt) t2.
Proof.
  intros t dry_run. split.
  - exact (removal_again clean_one would_clean clean_one_absent
               clean_one_dry clean_one_real dry_run
             ARTIFACTS_TO_CLEAN t artifacts_nonempty).
  - exact (removal_again remove_one would_remove remove_one_absent
               remove_one_dry remove_one_real dry_run
             PATHS_TO_REMOVE t demo_nonempty).
Qed.

Lemma same_exists (l : list path) (t : node) :
  Forall (fun p => exists_ p t = exists_ p t) l.
Proof. apply Forall_forall. reflexivity. Qed.

(** X9.  The dry run of [clean_artifacts] and of [remove_demo_content]
    announces exactly the removals the real run performs on the same tree,
    in the same order: these are the listed paths that exist, since no
    listed path lies below another. *)
Theorem dry_run_announces_the_removals :
  forall t : node,
    (removed (trace (clean_artifacts false t)) =
       filter (fun p => exists_ p t) ARTIFACTS_TO_CLEAN /\
     trace (clean_artifacts true t) =
       List.map (fun p => EPrint (would_clean p))
                (removed (trace (clean_artifacts false t)))) /\
    (removed (trace (remove_demo_content false t)) =
       filter (fun p => exists_ p t) PATHS_TO_REMOVE /\
     trace (remove_demo_content true t) =
       List.map (fun p => EPrint (would_remove p))
                (removed (trace (remove_demo_content false t)))).
Proof.
  intros t. split.
  - assert (H : removed (trace (clean_artifacts false t)) =
                filter (fun p => exists_ p t) ARTIFACTS_TO_CLEAN)
      by (apply (removal_order clean_one would_clean clean_one_absent
               clean_one_dry clean_one_real);
          [exact artifacts_nonempty | reflexivity | apply same_exists]).
    split; [exact H|]. rewrite H.
    apply (removal_dry clean_one would_clean clean_one_absent clean_one_dry
             clean_one_real).
  - assert (H : removed (trace (remove_demo_content false t)) =
                filter (fun p => exists_ p t) PATHS_TO_REMOVE)
      by (apply (removal_order remove_one would_remove remove_one_absent
               remove_one_dry remove_one_real);
          [exact demo_nonempty | reflexivity | apply same_exists]).
    split; [exact H|]. rewrite H.
    apply (removal_dry remove_one would_remove remove_one_absent remove_one_dry
             remove_one_real).
Qed.

(** ** Step 3: what the content rewriter writes *)

(** The rewriter creates nothing, removes nothing and turns no file into a
    directory. *)
Lemma walk_replace_kind replacements dry :
  forall q n root,
    option_map is_dir_node (lookup q (snd (walk_replace replacements dry root n))) =
    option_map is_dir_node (lookup q n).
Proof.
  induction q as [|x p IH]; intros n root.
  - destruct n; reflexivity.
  - destruct n as [text|es]; [reflexivity|].
    rewrite lookup_walk_replace, lookup_cons.
    destruct (find_entry x es) as [[text|es']|]; [| |reflexivity].
    + destruct p; reflexivity.
    + destruct (mem x SKIP_DIRS); [reflexivity | apply IH].
Qed.

Lemma rewrite_file_text replacements filepath filename text :
  is_binary filename = false ->
  snd (rewrite_file replacements false filepath filename text) =
  option_map (fun content => apply_replacements content replacements) text.
Proof.
  intros Hb. unfold rewrite_file. rewrite Hb.
  destruct text as [content|]; [|reflexivity]. cbn [option_map].
  destruct (String.eqb (apply_replacements content replacements) content) eqn:E;
    cbn [negb snd]; [|reflexivity].
  apply String.eqb_eq in E. now rewrite E.
Qed.

Lemma walk_replace_file replacements :
  forall q n root text,
    q <> [] ->
    lookup q n = Some (File text) ->
    protected (parent q) = false ->
    is_binary (last q EmptyString) = false ->
    lookup q (snd (walk_replace replacements false root n)) =
    Some (File (option_map
                  (fun content => apply_replacements content replacements) text)).
Proof.
  induction q as [|x p IH]; intros n root text Hq Hl Hp Hb; [contradiction|].
  destruct n as [text0|es]; [discriminate Hl|].
  rewrite lookup_walk_replace. rewrite lookup_cons in Hl.
  destruct (find_entry x es) as [[text1|es']|]; [| |discriminate Hl].
  - apply lookup_file_inv in Hl. destruct Hl as [-> [= ->]].
    cbn [last] in Hb. cbn [lookup]. now rewrite rewrite_file_text.
  - destruct p as [|y p]; [discriminate Hl|].
    rewrite parent_cons in Hp. cbn [protected existsb] in Hp.
    apply orb_false_iff in Hp. destruct Hp as [Hx Hp]. rewrite Hx.
    apply IH; [discriminate | exact Hl | exact Hp | exact Hb].
Qed.

(** X10.  A real run of [replace_in_files] keeps every file and directory
    in place, and a file holds afterwards the text the replacement table
    makes of its text, unless its name is binary or a directory above it is
    protected, in which case it keeps its text; a file that cannot be read
    as text stays as it is. *)
Theorem replace_in_files_rewrites_text_files :
  forall (replacements : list (string * string)) (t : node) (q : path),
    let t' := tree (replace_in_files replacements false t) in
    (exists_ q t' = exists_ q t /\ is_dir q t' = is_dir q t) /\
    (forall text : option string,
        q <> [] ->
        file_at q t = Some text ->
        file_at q t' =
        Some (if protected (parent q) || is_binary (last q EmptyString)
              then text
              else option_map
                     (fun content => apply_replacements content replacements)
                     text)).
Proof.
  intros replacements t q. cbn zeta. unfold replace_in_files. cbn [tree].
  split.
  - pose proof (walk_replace_kind replacements false q t []) as H.
    unfold exists_, is_dir.
    destruct (lookup q (snd (walk_replace replacements false [] t))) as [[|]|],
             (lookup q t) as [[|]|]; try discriminate H; split; reflexivity.
  - intros text Hq Hf. unfold file_at in *.
    destruct (lookup q t) as [[text0|es]|] eqn:Hl; try discriminate Hf.
    injection Hf as ->.
    destruct (protected (parent q)) eqn:Hp.
    + now rewrite walk_replace_skips_protected, Hl.
    + destruct (is_binary (last q EmptyString)) eqn:Hb; cbn [orb].
      * now rewrite (walk_replace_keeps_binary _ _ _ _ _ _ Hl Hb).
      * now rewrite (walk_replace_file _ _ _ _ _ Hq Hl Hp Hb).
Qed.

Lemma replace_in_files_rewrites_text_files_witness :
  file_at ["README.md"]
    (tree (replace_in_files (build_replacements (variants "kbe-pay")) false
             (Dir [("README.md", File (Some "# Jarvis"))]))) =
  Some (Some "# Kbe Pay").
Proof.
  exact (proj2 (replace_in_files_rewrites_text_files
                  (build_replacements (variants "kbe-pay"))
                  (Dir [("README.md", File (Some "# Jarvis"))]) ["README.md"])
           (Some "# Jarvis") ltac:(discriminate) eq_refl).
Defined.

Lemma rewrite_file_write replacements filepath filename text p c :
  In (EWrite p c) (fst (rewrite_file replacements false filepath filename text)) <->
  p = filepath /\ is_binary filename = false /\
  exists content,
    text = Some content /\ c = apply_replacements content replacements /\
    c <> content.
Proof.
  unfold rewrite_file. destruct (is_binary filename).
  { cbn [fst]. split; [intros [] | intros [_ [H _]]; discriminate H]. }
  destruct text as [content|].
  2:{ cbn [fst]. split.
      - intros [H|[]]; discriminate H.
      - intros [_ [_ [content [H _]]]]; discriminate H. }
  destruct (String.eqb (apply_replacements content replacements) content) eqn:E;
    cbn [negb fst].
  - apply String.eqb_eq in E. split.
    + intros [H|[]]; discriminate H.
    + intros [_ [_ [content' [[= <-] [-> Hne]]]]]. now destruct Hne.
  - apply String.eqb_neq in E. split.
    + intros [H|[H|[H|[]]]]; try discriminate H.
      injection H as <- <-. split; [reflexivity|]. split; [reflexivity|].
      exists content. auto.
    + intros [-> [_ [content' [[= <-] [-> _]]]]]. right. now left.
Qed.

Lemma in_concat_map_intro {A B} (f : A -> list B) (l : list A) (x : A) (y : B) :
  In x l -> In y (f x) -> In y (List.concat (List.map f l)).
Proof.
  intros Hx Hy. apply in_concat. exists (f x). split; [|exact Hy].
  apply in_map_iff. eauto.
Qed.

Lemma walk_replace_writes replacements (n : node) :
  wf n = true ->
  forall root p c,
    In (EWrite p c) (fst (walk_replace replacements false root n)) <->
    exists q content,
      p = (root ++ q)%list /\ q <> [] /\
      lookup q n = Some (File (Some content)) /\
      protected (parent q) = false /\
      is_binary (last q EmptyString) = false /\
      c = apply_replacements content replacements /\ c <> content.
Proof.
  induction n as [text|es IH] using node_induction; intros Hwf root p c.
  - split; [intros [] | intros [q [content [_ [Hq [Hl _]]]]]].
    apply lookup_file_inv in Hl. destruct Hl as [-> _]. now destruct Hq.
  - rewrite Forall_forall in IH. apply wf_dir in Hwf. destruct Hwf as [Hnd Hwf].
    cbn [walk_replace fst]. rewrite !List.map_map. split.
    + intros Hin. apply in_app_or in Hin.
      destruct Hin as [Hin|Hin]; apply in_concat_map in Hin;
        destruct Hin as [[nm c0] [Hc Hin]].
      * destruct c0 as [text|es']; [|destruct (mem nm SKIP_DIRS); destruct Hin].
        cbn [file_events] in Hin. apply rewrite_file_write in Hin.
        destruct Hin as [-> [Hb [content [-> [-> Hne]]]]].
        exists [nm], content. rewrite lookup_cons, (In_find_entry _ _ _ Hnd Hc).
        repeat split; auto. discriminate.
      * destruct c0 as [text|es']; [destruct Hin|].
        destruct (mem nm SKIP_DIRS) eqn:Hs; [destruct Hin|].
        cbn [dir_events] in Hin.
        apply (IH _ Hc (Hwf _ _ Hc)) in Hin.
        destruct Hin as [q [content [-> [Hq [Hl [Hp [Hb [-> Hne]]]]]]]].
        exists (nm :: q), content. rewrite <- app_assoc.
        rewrite lookup_cons, (In_find_entry _ _ _ Hnd Hc).
        destruct q as [|y q]; [contradiction|].
        rewrite parent_cons. cbn [protected existsb]. fold (protected (parent (y :: q))).
        rewrite Hs, Hp. repeat split; auto. discriminate.
    + intros [q [content [-> [Hq [Hl [Hp [Hb [-> Hne]]]]]]]].
      destruct q as [|x q]; [contradiction|].
      rewrite lookup_cons in Hl.
      destruct (find_entry x es) as [c0|] eqn:Hf; [|discriminate Hl].
      apply find_entry_In in Hf. apply in_or_app.
      destruct c0 as [text|es'].
      * apply lookup_file_inv in Hl. destruct Hl as [-> [= <-]]. left.
        apply (in_concat_map_intro _ _ (x, File (Some content))); [exact Hf|].
        cbn [file_events]. apply rewrite_file_write.
        cbn [last] in Hb. split; [reflexivity|]. split; [exact Hb|].
        exists content. auto.
      * destruct q as [|y q]; [discriminate Hl|]. right.
        rewrite parent_cons in Hp. cbn [protected existsb] in Hp.
        apply orb_false_iff in Hp. destruct Hp as [Hs Hp].
        apply (in_concat_map_intro _ _ (x, Dir es')); [exact Hf|].
        rewrite Hs. cbn [dir_events].
        apply (IH _ Hf (Hwf _ _ Hf)).
        exists (y :: q), content. rewrite <- app_assoc.
        repeat split; auto. discriminate.
Qed.

(** X11.  In a real run of [replace_in_files] on a tree with unique names,
    a file is written exactly when it is a readable text file outside the
    protected directories, with a name that is not binary, whose text the
    replacement table changes; what is written is the changed text.  A
    file the table leaves as it is is never written. *)
Theorem replace_in_files_writes_changed_files :
  forall (replacements : list (string * string)) (t : node)
         (p : path) (c : string),
    wf t = true ->
    (In (EWrite p c) (trace (replace_in_files replacements false t)) <->
     p <> [] /\
     exists content,
       file_at p t = Some (Some content) /\
       protected (parent p) = false /\
       is_binary (last p EmptyString) = false /\
       c = apply_replacements content replacements /\ c <> content).
Proof.
  intros replacements t p c Hwf. unfold replace_in_files. cbn [trace].
  rewrite (walk_replace_writes replacements t Hwf [] p c). cbn [List.app].
  split.
  - intros [q [content [-> [Hq [Hl H]]]]]. split; [exact Hq|].
    exists content. unfold file_at. rewrite Hl. auto.
  - intros [Hq [content [Hf H]]]. exists p, content.
    split; [reflexivity|]. split; [exact Hq|]. split; [|exact H].
    unfold file_at in Hf.
    destruct (lookup p t) as [[text|es]|]; try discriminate Hf.
    now injection Hf as ->.
Qed.

Lemma replace_in_files_writes_changed_files_witness :
  In (EWrite ["README.md"] "# Kbe Pay")
     (trace (replace_in_files (build_replacements (variants "kbe-pay")) false
               (Dir [("README.md", File (Some "# Jarvis"));
                     ("LICENSE", File (Some "MIT"))]))).
Proof.
  apply (replace_in_files_writes_changed_files
           (build_replacements (variants "kbe-pay"))
           (Dir [("README.md", File (Some "# Jarvis"));
                 ("LICENSE", File (Some "MIT"))])
           ["README.md"] "# Kbe Pay" eq_refl).
  split; [discriminate|]. exists "# Jarvis".
  repeat split; try reflexivity. discriminate.
Defined.

(** ** Steps 4 and 5: what is renamed *)

Lemma plan_expected env names t :
  wf t = true ->
  forall it,
    In it (paths_to_rename env names t) <->
    In it (expected (snake_name names) (package_name names) []
             (root_parent_name env) (root_name env) t (fst it)).
Proof.
  intros Hwf it. unfold paths_to_rename. rewrite collect_expected by exact Hwf.
  split.
  - intros [q Hq]. pose proof (expected_source _ _ _ _ _ _ _ _ Hq) as E.
    cbn [List.app] in E. now rewrite E.
  - intros H. eauto.
Qed.

(** X12.  On a tree with unique names the first loop of [rename_paths]
    lists every path once, and never a path after one it lies below:
    what is deeper comes first.  Every listed path exists and has no
    protected directory above it. *)
Theorem rename_plan_is_deepest_first :
  forall (env : Env) (names : NameVariants) (t : node),
    wf t = true ->
    let plan := paths_to_rename env names t in
    post_order plan /\
    NoDup (List.map fst plan) /\
    (forall it, In it plan ->
                exists_ (fst it) t = true /\
                protected (parent (fst it)) = false).
Proof.
  intros env names t Hwf plan. subst plan. unfold paths_to_rename.
  split; [now apply collect_post_order|].
  split; [now apply collect_nodup|].
  intros it Hit. split; [|exact (collect_unprotected _ _ _ _ _ _ _ Hit)].
  apply (plan_expected env names t Hwf) in Hit.
  unfold expected, exists_ in *.
  destruct (lookup (fst it) t); [reflexivity | destruct Hit].
Qed.

Lemma rename_plan_is_deepest_first_witness :
  NoDup (List.map fst (paths_to_rename sample_env (variants "kbe-pay") sample_tree)).
Proof.
  exact (proj1 (proj2 (rename_plan_is_deepest_first sample_env
                         (variants "kbe-pay") sample_tree eq_refl))).
Defined.

(** X13.  On a tree with unique names, a file is listed for renaming
    exactly when its name contains "jarvis" and no directory above it is
    protected; its new path is in the same directory, with every "jarvis"
    of the name replaced by the snake-case name. *)
Theorem files_renamed_by_token :
  forall (env : Env) (names : NameVariants) (t : node)
         (d : path) (f : string) (text : option string) (it : rename_item),
    wf t = true ->
    lookup (d ++ [f])%list t = Some (File text) ->
    (In it (paths_to_rename env names t) /\ fst it = (d ++ [f])%list <->
     protected d = false /\
     Str.contains "jarvis" f = true /\
     it = ((d ++ [f])%list,
           Some (d ++ [Str.replace "jarvis" (snake_name names) f])%list)).
Proof.
  intros env names t d f text it Hwf Hl.
  rewrite (plan_expected env names t Hwf). split.
  - intros [Hit E]. rewrite E in Hit. unfold expected in Hit.
    rewrite Hl, split_last_snoc in Hit. cbn [List.app] in Hit.
    destruct (protected d); [destruct Hit|].
    unfold template_token in Hit.
    destruct (Str.contains "jarvis" f); [|destruct Hit].
    destruct Hit as [<-|[]]. auto.
  - intros [Hp [Hf ->]]. cbn [fst]. split; [|reflexivity].
    unfold expected. rewrite Hl, split_last_snoc. cbn [List.app].
    rewrite Hp. unfold template_token. rewrite Hf. now left.
Qed.

Lemma files_renamed_by_token_witness :
  In (["sbin"; "run_jarvis.sh"], Some ["sbin"; "run_kbe_pay.sh"])
     (paths_to_rename sample_env (variants "kbe-pay") sample_tree).
Proof.
  apply (proj2 (files_renamed_by_token sample_env (variants "kbe-pay")
                  sample_tree ["sbin"] "run_jarvis.sh"
                  (Some "PORT:-1337 jarvis_chat")
                  (["sbin"; "run_jarvis.sh"], Some ["sbin"; "run_kbe_pay.sh"])
                  eq_refl eq_refl)).
  repeat split; reflexivity.
Defined.



Lemma rename_returned_trace old new t :
  ending (rename old new t) = Returned tt ->
  trace (rename old new t) = [ERename old new].
Proof.
  unfold rename. destruct (lookup old t) as [src|]; [|discriminate].
  destruct (path_eqb old new); [reflexivity|].
  destruct (is_prefix old new); [discriminate|].
  destruct (negb (is_dir (parent new) t)); [discriminate|].
  destruct new as [|x new]; [discriminate|].
  destruct (lookup (x :: new) t) as [[text|[|e es]]|], src;
    first [discriminate | reflexivity].
Qed.

Lemma expected_exists sn pkg root pn dn n q it :
  In it (expected sn pkg root pn dn n q) -> exists_ q n = true.
Proof.
  unfold expected, exists_. now destruct (lookup q n).
Qed.

Lemma renames_app a b : renames (a ++ b) = (renames a ++ renames b)%list.
Proof. apply flat_map_app. Qed.

Section Executed.

Variables (env : Env) (sn pkg : string).
Hypothesis Hclear : clear_of template_token sn = true.
Hypothesis Hpkg : pkg = "autobots_" ++ sn.
Hypothesis Hsn : mem sn ["domains"; "agent_configs"] = false.

Let plan (t : node) : list rename_item :=
  collect sn pkg [] (root_parent_name env) (root_name env) t.

(** In a run that returns, the second loop finds every source in place. *)
Lemma executed_all todo :
  forall t,
    in_step plan t todo ->
    ending (execute_renames false todo t) = Returned tt ->
    renames (trace (execute_renames false todo t)) = todo.
Proof.
  induction todo as [|it rest IH]; intros t Hin Hret; [reflexivity|].
  pose proof Hin as [Hwf [Hiff _]].
  unfold execute_renames in *. cbn [for_each] in *.
  pose proof Hret as Hret'.
  apply bind_returned_inv in Hret'. destruct Hret' as [[] [H1 [H2 _]]].
  rewrite (bind_returned _ _ t tt H1). cbn [trace].
  rewrite renames_app.
  rewrite (IH _ (in_step_next env sn pkg Hclear Hpkg Hsn t it rest Hin H1) H2).
  change (it :: rest) with ([it] ++ rest)%list. f_equal.
  assert (Hit : In it (plan t)) by (apply Hiff; now left).
  apply (collect_expected sn pkg t [] _ _ Hwf) in Hit. destruct Hit as [q Hq].
  pose proof (expected_source _ _ _ _ _ _ _ _ Hq) as E. cbn [List.app] in E.
  apply expected_exists in Hq. rewrite <- E in Hq.
  destruct it as [old [new|]]; [|discriminate H1]. cbn [fst] in Hq.
  unfold execute_rename in *. cbn [fst snd] in *.
  unfold bind at 1 in H1. unfold bind at 1.
  cbn [get_tree ending tree trace List.app] in *. rewrite Hq in *.
  cbn [ending trace] in *.
  apply bind_returned_inv in H1. destruct H1 as [[] [Hren _]].
  rewrite (bind_returned _ _ t tt Hren). cbn [trace print emit].
  now rewrite (rename_returned_trace _ _ _ Hren).
Qed.

End Executed.

(** X15.  Let the snake-case name be clear of "jarvis" and be neither
    "domains" nor "agent_configs".  In a real run of [rename_paths] that
    returns, on a tree with unique names, every rename the first loop
    computed is carried out, in the order computed: no source has gone
    missing before its turn. *)
Theorem every_planned_rename_is_executed :
  forall (env : Env) (nm : string) (t : node),
    let names := variants nm in
    clear_of template_token (snake_name names) = true ->
    mem (snake_name names) ["domains"; "agent_configs"] = false ->
    wf t = true ->
    ending (rename_paths env names false t) = Returned tt ->
    renames (trace (rename_paths env names false t)) =
    paths_to_rename env names t.
Proof.
  intros env nm t names Hclear Hsn Hwf Hret.
  unfold rename_paths in *. unfold bind at 1 in Hret. unfold bind at 1.
  cbn [get_tree ending tree trace List.app] in *.
  destruct (ending (execute_renames false (paths_to_rename env names t) t))
    as [[]| |] eqn:E; try discriminate Hret.
  cbn [trace]. unfold paths_to_rename in *.
  apply (executed_all env (snake_name names) (package_name names)
           Hclear eq_refl Hsn); [|exact E].
  exact (in_step_start env (snake_name names) (package_name names) t Hwf).
Qed.

Lemma every_planned_rename_is_executed_witness :
  renames (trace (rename_paths sample_env (variants "kbe-pay") false sample_tree)) =
  paths_to_rename sample_env (variants "kbe-pay") sample_tree.
Proof.
  apply (every_planned_rename_is_executed sample_env "kbe-pay" sample_tree);
    reflexivity.
Defined.

(** X16.  Under the same conditions, after a real run of [rename_paths]
    that returns, the tree still has unique names, no file outside the
    protected directories has "jarvis" in its name, and no directory
    outside them is called [autobots_agents_jarvis]. *)
Theorem renamed_tree_has_no_token_in_file_names :
  forall (env : Env) (nm : string) (t : node),
    let names := variants nm in
    clear_of template_token (snake_name names) = true ->
    mem (snake_name names) ["domains"; "agent_configs"] = false ->
    wf t = true ->
    ending (rename_paths env names false t) = Returned tt ->
    let t' := tree (rename_paths env names false t) in
    wf t' = true /\
    (forall d f text,
        lookup (d ++ [f])%list t' = Some (File text) ->
        protected d = false ->
        Str.contains "jarvis" f = false) /\
    (forall q es,
        lookup q t' = Some (Dir es) ->
        protected q = false ->
        dname (root_name env) q <> "autobots_agents_jarvis").
Proof.
  intros env nm t names Hclear Hsn Hwf Hret t'.
  assert (Hstep : wf t' = true /\ paths_to_rename env names t' = []).
  { subst t'. unfold rename_paths in *.
    apply bind_returned_inv in Hret. destruct Hret as [t0 [H0 [Hret ->]]].
    cbn in H0. injection H0 as <-. cbn [get_tree tree] in *.
    unfold paths_to_rename in *.
    pose proof (in_step_start env (snake_name names) (package_name names) t Hwf)
      as Hin.
    destruct (in_step_run env (snake_name names) (package_name names)
                Hclear eq_refl Hsn _ t Hin Hret) as [Hwf' _].
    split; [exact Hwf'|].
    exact (rerun_empty env (snake_name names) (package_name names)
             Hclear eq_refl Hsn t Hwf Hret). }
  destruct Hstep as [Hwf' Hplan]. split; [exact Hwf'|].
  pose proof (plan_expected env names t' Hwf') as Hexp.
  rewrite Hplan in Hexp. split.
  - intros d f text Hl Hp.
    destruct (Str.contains "jarvis" f) eqn:Hf; [|reflexivity].
    destruct (proj2 (Hexp ((d ++ [f])%list,
                Some (d ++ [Str.replace "jarvis" (snake_name names) f])%list))).
    cbn [fst]. unfold expected. rewrite Hl, split_last_snoc. cbn [List.app].
    rewrite Hp. unfold template_token. rewrite Hf. now left.
  - intros q es Hl Hp Hd.
    destruct (proj2 (Hexp (q, sibling q (package_name names)))).
    cbn [fst]. unfold expected. rewrite Hl. cbn [List.app]. rewrite Hp.
    unfold dir_rename. fold (dname (root_name env) q). rewrite Hd.
    now left.
Qed.

Lemma renamed_tree_has_no_token_in_file_names_witness :
  wf (tree (rename_paths sample_env (variants "kbe-pay") false sample_tree)) = true.
Proof.
  apply (renamed_tree_has_no_token_in_file_names sample_env "kbe-pay"
           sample_tree); reflexivity.
Defined.

(** The loop body runs for every file outside the protected directories. *)
Lemma walk_replace_visits replacements dry :
  forall q n root text e,
    q <> [] ->
    lookup q n = Some (File text) ->
    protected (parent q) = false ->
    In e (fst (rewrite_file replacements dry (root ++ q)%list
                 (last q EmptyString) text)) ->
    In e (fst (walk_replace replacements dry root n)).
Proof.
  induction q as [|x q IH]; intros n root text e Hq Hl Hp He; [contradiction|].
  destruct n as [text0|es]; [discriminate Hl|].
  rewrite lookup_cons in Hl.
  destruct (find_entry x es) as [c0|] eqn:Hf; [|discriminate Hl].
  apply find_entry_In in Hf.
  cbn [walk_replace fst]. rewrite !List.map_map. apply in_or_app.
  destruct c0 as [text1|es'].
  - apply lookup_file_inv in Hl. destruct Hl as [-> [= <-]]. left.
    apply (in_concat_map_intro _ _ (x, File text)); [exact Hf|].
    exact He.
  - destruct q as [|y q]; [discriminate Hl|]. right.
    rewrite parent_cons in Hp. cbn [protected existsb] in Hp.
    apply orb_false_iff in Hp. destruct Hp as [Hs Hp].
    apply (in_concat_map_intro _ _ (x, Dir es')); [exact Hf|].
    rewrite Hs. cbn [dir_events].
    apply (IH (Dir es') (root ++ [x])%list text e);
      [discriminate | exact Hl | exact Hp|].
    rewrite <- app_assoc. exact He.
Qed.

Lemma changed_by_some_pair content replacements :
  apply_replacements content replacements <> content ->
  exists r, In r replacements /\ Str.contains (fst r) content = true.
Proof.
  intros Hne.
  destruct (existsb (fun r => Str.contains (fst r) content) replacements) eqn:E.
  - apply existsb_exists in E. exact E.
  - destruct Hne. apply apply_replacements_absent. intros r Hr.
    destruct (Str.contains (fst r) content) eqn:Hc; [|reflexivity].
    assert (H : existsb (fun r => Str.contains (fst r) content) replacements = true)
      by (apply existsb_exists; eauto).
    congruence.
Qed.

(** X17.  On a tree with unique names, every file a real run of
    [replace_in_files] writes is announced by the dry run on the same
    tree: the dry run prints, for that file, the line of at least one pair
    of the table. *)
Theorem dry_run_announces_every_written_file :
  forall (replacements : list (string * string)) (t : node)
         (p : path) (c : string),
    wf t = true ->
    In (EWrite p c) (trace (replace_in_files replacements false t)) ->
    exists r,
      In r replacements /\
      In (EPrint (would_replace p r))
         (trace (replace_in_files replacements true t)).
Proof.
  intros replacements t p c Hwf Hin. unfold replace_in_files in *.
  cbn [trace] in *.
  apply (walk_replace_writes replacements t Hwf [] p c) in Hin.
  destruct Hin as [q [content [-> [Hq [Hl [Hp [Hb [-> Hne]]]]]]]].
  destruct (changed_by_some_pair _ _ Hne) as [r [Hr Hc]].
  exists r. split; [exact Hr|].
  apply (walk_replace_visits replacements true q t [] (Some content));
    [exact Hq | exact Hl | exact Hp|].
  unfold rewrite_file. rewrite Hb.
  apply String.eqb_neq in Hne. rewrite Hne. cbn [negb fst List.app].
  right. unfold dry_run_lines. apply in_map_iff. exists r.
  split; [reflexivity|]. apply filter_In. auto.
Qed.

Lemma dry_run_announces_every_written_file_witness :
  exists r,
    In r (build_replacements (variants "kbe-pay")) /\
    In (EPrint (would_replace ["README.md"] r))
       (trace (replace_in_files (build_replacements (variants "kbe-pay")) true
                 (Dir [("README.md", File (Some "# Jarvis"))]))).
Proof.
  apply (dry_run_announces_every_written_file
           (build_replacements (variants "kbe-pay"))
           (Dir [("README.md", File (Some "# Jarvis"))])
           ["README.md"] "# Kbe Pay" eq_refl).
  cbn. right. left. reflexivity.
Defined.

(** ** Step 6: the description override *)

Lemma bind_get_tree {A} (k : node -> M A) t : bind get_tree k t = k t t.
Proof.
  unfold bind. cbn [get_tree ending tree trace List.app].
  destruct (k t t); reflexivity.
Qed.

Lemma rewrite_literal_file p old new t content :
  lookup p t = Some (File (Some content)) ->
  rewrite_literal p old new t =
  mkRun [ERead p; EWrite p (Str.replace old new content)] (Returned tt)
        (put p (File (Some (Str.replace old new content))) t).
Proof.
  intros H. unfold rewrite_literal, bind, read_text. rewrite H. reflexivity.
Qed.

Lemma rewrite_literal_fails p old new t :
  lookup p t = Some (File None) \/ (exists es, lookup p t = Some (Dir es)) ->
  exists exn, rewrite_literal p old new t = mkRun [ERead p] (Raised exn) t.
Proof.
  intros [H|[es H]]; unfold rewrite_literal, bind, read_text; rewrite H;
    eexists; reflexivity.
Qed.

(** X18.  The description override does nothing when [pyproject.toml] is
    missing.  When it is a readable file, the step returns, writes the file
    back with the old description replaced (also when the old description
    does not occur) and leaves every other file as it is.  When it cannot
    be read as text, or is a directory, the step raises and the tree is as
    it was. *)
Theorem description_override_rewrites_pyproject :
  forall (names : NameVariants) (description : string) (t : node),
    let p := ["pyproject.toml"] in
    let old := display_name names ++ " - Multi-agent AI Assistant Demo" in
    let r := update_description names description t in
    (exists_ p t = false -> r = mkRun [] (Returned tt) t) /\
    (forall content,
        file_at p t = Some (Some content) ->
        ending r = Returned tt /\
        In (EWrite p (Str.replace old description content)) (trace r) /\
        forall q c,
          file_at q t = Some c ->
          file_at q (tree r) =
          Some (if path_eqb q p
                then Some (Str.replace old description content) else c)) /\
    (file_at p t = Some None \/ is_dir p t = true ->
     (exists exn, ending r = Raised exn) /\ tree r = t).
Proof.
  intros names description t p old r. subst r p old.
  unfold update_description. cbv zeta. rewrite bind_get_tree.
  unfold exists_, file_at, is_dir.
  destruct (lookup ["pyproject.toml"] t) as [[[content|]|es]|] eqn:Hl;
    cbn [negb].
  - split; [discriminate|]. split.
    2:{ intros [H|H]; discriminate H. }
    intros content' [= <-]. unfold bind.
    rewrite (rewrite_literal_file _ _ _ _ _ Hl).
    cbn [ending tree trace print emit List.app].
    split; [reflexivity|]. split; [right; now left|].
    intros q c Hq.
    pose proof (file_at_put_file ["pyproject.toml"] q (Some content)
                  (Some (Str.replace
                           (display_name names ++
                            " - Multi-agent AI Assistant Demo")
                           description content))
                  t ltac:(discriminate) Hl) as Hput.
    unfold file_at in Hput. rewrite Hput.
    destruct (path_eqb q ["pyproject.toml"]); [reflexivity|].
    destruct (lookup q t) as [[text|es]|]; try discriminate Hq. exact Hq.
  - split; [discriminate|]. split; [discriminate|].
    intros _. unfold bind.
    destruct (rewrite_literal_fails ["pyproject.toml"]
                (display_name names ++ " - Multi-agent AI Assistant Demo")
                description t) as [exn ->]; [now left|].
    cbn [ending tree]. split; eauto.
  - split; [discriminate|]. split; [discriminate|].
    intros _. unfold bind.
    destruct (rewrite_literal_fails ["pyproject.toml"]
                (display_name names ++ " - Multi-agent AI Assistant Demo")
                description t) as [exn ->]; [right; eauto|].
    cbn [ending tree]. split; eauto.
  - split; [reflexivity|]. split; [discriminate|].
    intros [H|H]; discriminate H.
Qed.

Lemma description_override_rewrites_pyproject_witness :
  ending (update_description (variants "kbe-pay") "Payments"
            (Dir [("pyproject.toml",
                   File (Some "Kbe Pay - Multi-agent AI Assistant Demo"))])) =
  Returned tt.
Proof.
  exact (proj1 (proj1 (proj2 (description_override_rewrites_pyproject
                   (variants "kbe-pay") "Payments"
                   (Dir [("pyproject.toml",
                          File (Some "Kbe Pay - Multi-agent AI Assistant Demo"))])))
                 "Kbe Pay - Multi-agent AI Assistant Demo" eq_refl)).
Defined.

(** ** Step 7: the script deletes itself *)

Lemma removed_later {A B} (m : M A) (k : A -> M B) t b sp :
  ending (bind m k t) = Returned b ->
  (forall a, ending (m t) = Returned a ->
             ending (k a (tree (m t))) = Returned b ->
             script_removed sp (k a (tree (m t)))) ->
  script_removed sp (bind m k t).
Proof.
  intros H Hk. destruct (bind_returned_inv _ _ _ _ H) as [a [H1 [H2 _]]].
  rewrite (bind_returned _ _ _ _ H1).
  destruct (Hk a H1 H2) as [Ht [before [after [E Hh]]]].
  split; cbn [tree trace]; [exact Ht|].
  exists (trace (m t) ++ before)%list, after. split; [|exact Hh].
  now rewrite E, app_assoc.
Qed.

Lemma removed_then_quiet {A B} (m : M A) (k : A -> M B) t a sp :
  ending (m t) = Returned a ->
  script_removed sp (m t) -> quiet (k a) ->
  script_removed sp (bind m k t).
Proof.
  intros H [Ht [before [after [E Hh]]]] Hq. rewrite (bind_returned _ _ _ _ H).
  destruct (Hq (tree (m t))) as [Hsame Hquiet].
  split; cbn [tree trace]; [now rewrite Hsame|].
  exists before, (after ++ trace (k a (tree (m t))))%list. split.
  - now rewrite E, <- app_assoc.
  - apply Forall_app. now split.
Qed.

Lemma self_delete_removed env t :
  ending (self_delete env t) = Returned tt ->
  script_removed [script_dir env; script_file env] (self_delete env t).
Proof.
  unfold self_delete. cbv zeta. rewrite bind_get_tree.
  destruct (lookup [script_dir env; script_file env] t) as [[text|es]|];
    try discriminate.
  intros _. unfold delete, bind. cbn [emit modify ending tree trace List.app].
  split; [|exists [], []; split; [reflexivity | constructor]]. cbn [tree].
  rewrite exists_view, view_remove by discriminate.
  now rewrite is_prefix_refl.
Qed.

(** X19.  A real run of the script that returns has removed the script
    itself as its last change: the trace holds the removal of
    [script_dir/script_file], followed by nothing that changes the file
    system, and nothing is at that path afterwards. *)
Theorem returned_run_deletes_the_script :
  forall (env : Env) (args : Args) (t : node),
    arg_dry_run args = false ->
    ending (scaffold env args t) = Returned tt ->
    let script_path := [script_dir env; script_file env] in
    exists_ script_path (tree (scaffold env args t)) = false /\
    exists before after,
      trace (scaffold env args t) =
      (before ++ ERemove script_path :: after)%list /\
      Forall harmless after.
Proof.
  intros env args t Hdry Hret script_path. subst script_path.
  change (script_removed [script_dir env; script_file env]
            (scaffold env args t)).
  unfold scaffold in *. cbv zeta in *. rewrite Hdry in Hret |- *.
  apply removed_later with (b := tt); [exact Hret|].
  intros derived _ H. cbv beta in *. rewrite bind_get_tree in H |- *.
  destruct (negb (is_dir template_dir (tree (lift (derive_names (arg_name args)) t)))).
  { rewrite (bind_returned _ _ _ tt) in H by reflexivity. discriminate H. }
  do 5 (apply removed_later with (b := tt); [exact H|]; clear H; intros _ _ H).
  cbn [negb when] in H |- *.
  apply removed_later with (b := tt); [exact H|]; clear H; intros _ _ H.
  apply bind_returned_inv in H. destruct H as [[] [H _]].
  apply removed_then_quiet with (a := tt); [exact H| |exact quiet_closing].
  apply bind_returned_inv in H. destruct H as [[] [H _]].
  apply removed_then_quiet with (a := tt); [exact H| |apply quiet_print].
  now apply self_delete_removed.
Qed.

Lemma returned_run_deletes_the_script_witness :
  exists_ ["sbin"; "scaffold.py"]
    (tree (scaffold sample_env (sample_args false 1337) sample_tree)) = false.
Proof.
  exact (proj1 (returned_run_deletes_the_script sample_env
                  (sample_args false 1337) sample_tree eq_refl eq_refl)).
Defined.

(* ================================================================== *)
(** * The port override within a run *)
(* ================================================================== *)

Lemma bind_assoc {A B C} (m : M A) (k : A -> M B) (h : B -> M C) t :
  bind (bind m k) h t = bind m (fun a => bind (k a) h) t.
Proof.
  unfold bind. destruct (ending (m t)) as [a| |]; cbn [ending tree trace];
    [|reflexivity|reflexivity].
  destruct (ending (k a (tree (m t)))) as [b| |]; cbn [ending tree trace];
    [|reflexivity|reflexivity].
  now rewrite app_assoc.
Qed.

Lemma bind_ext {A B} (m : M A) (k k' : A -> M B) t :
  (forall a t', k a t' = k' a t') -> bind m k t = bind m k' t.
Proof.
  intros H. unfold bind. destruct (ending (m t)); [|reflexivity|reflexivity].
  now rewrite H.
Qed.

Lemma bind_ret {A B} (a : A) (k : A -> M B) t : bind (ret a) k t = k a t.
Proof. unfold bind, ret. cbn. destruct (k a t); reflexivity. Qed.

Lemma bind_lift_returned {A B} (a : A) (k : A -> M B) t :
  bind (lift ([], Returned a)) k t = k a t.
Proof. unfold bind, lift. cbn. destruct (k a t); reflexivity. Qed.

(** A real run with a name that is accepted, from the template: the steps
    before the port override, the override when the port is not the
    default one, the steps after it. *)
Lemma scaffold_steps env args t :
  arg_dry_run args = false ->
  re_match (arg_name args) = true ->
  is_dir template_dir t = true ->
  scaffold env args t =
  bind (steps_before_port env args (final_names args))
       (fun _ =>
          bind (when (negb (Z.eqb (arg_port args) DEFAULT_PORT))
                     (update_port (final_names args) (arg_port args)))
               (fun _ => steps_after_port env)) t.
Proof.
  intros Hdry Hre Htpl. unfold scaffold, derive_names. rewrite Hre.
  cbn [negb]. rewrite bind_lift_returned. cbv zeta.
  rewrite bind_get_tree, Htpl, Hdry. cbn [negb when].
  fold (final_names args). unfold steps_before_port. symmetry.
  do 5 (rewrite bind_assoc; apply bind_ext; intros [] ?).
  unfold post_process, steps_after_port. now rewrite bind_assoc.
Qed.

(** ** Names stay unique through the steps *)

Lemma kw_quiet {A} (m : M A) : quiet m -> keeps_wf m.
Proof. intros H t Ht. destruct (H t) as [-> _]. exact Ht. Qed.

Lemma kw_bind {A B} (m : M A) (k : A -> M B) :
  keeps_wf m -> (forall a, keeps_wf (k a)) -> keeps_wf (bind m k).
Proof.
  intros Hm Hk t Ht. unfold bind.
  destruct (ending (m t)) as [a| |]; cbn [tree]; [|now apply Hm..].
  apply Hk. now apply Hm.
Qed.

Lemma kw_for_each {A} (f : A -> M unit) (l : list A) :
  (forall x, keeps_wf (f x)) -> keeps_wf (for_each f l).
Proof.
  intros H. induction l as [|x l IH]; [intros t Ht; exact Ht|].
  cbn [for_each]. apply kw_bind; [apply H | intros _; exact IH].
Qed.

Lemma kw_when b (m : M unit) : keeps_wf m -> keeps_wf (when b m).
Proof. intros H. destruct b; [exact H | intros t Ht; exact Ht]. Qed.

Lemma kw_delete p : keeps_wf (delete p).
Proof. intros t Ht. cbn. now apply wf_remove. Qed.

Lemma kw_print line : keeps_wf (print line).
Proof. intros t Ht. exact Ht. Qed.

Lemma kw_clean_one p : keeps_wf (clean_one false p).
Proof.
  intros t Ht. unfold clean_one. rewrite bind_get_tree.
  destruct (negb (exists_ p t)); [exact Ht|]. cbn [negb].
  destruct (is_dir p t);
    (apply kw_bind; [apply kw_delete | intros _; apply kw_print | exact Ht]).
Qed.

Lemma kw_remove_one p : keeps_wf (remove_one false p).
Proof.
  intros t Ht. unfold remove_one. rewrite bind_get_tree.
  destruct (negb (exists_ p t)); [exact Ht|]. cbn [negb].
  destruct (is_dir p t);
    (apply kw_bind; [apply kw_delete | intros _; apply kw_print | exact Ht]).
Qed.

Lemma walk_replace_wf replacements dry (n : node) :
  forall root, wf n = true ->
               wf (snd (walk_replace replacements dry root n)) = true.
Proof.
  induction n as [text|es IH] using node_induction; intros root Hwf;
    [exact Hwf|].
  rewrite Forall_forall in IH. apply wf_dir in Hwf. destruct Hwf as [Hnd Hch].
  cbn [walk_replace snd]. apply wf_dir. rewrite !List.map_map. split.
  - erewrite List.map_ext; [exact Hnd|]. intros [nm c].
    destruct c as [text|es']; [|destruct (mem nm SKIP_DIRS)]; reflexivity.
  - intros nm c Hin. apply in_map_iff in Hin.
    destruct Hin as [[nm0 c0] [E Hin0]].
    destruct c0 as [text|es']; [|destruct (mem nm0 SKIP_DIRS)];
      cbn [after] in E; injection E as <- <-.
    + reflexivity.
    + exact (Hch _ _ Hin0).
    + apply (IH _ Hin0). exact (Hch _ _ Hin0).
Qed.

Lemma kw_replace_in_files replacements dry :
  keeps_wf (replace_in_files replacements dry).
Proof. intros t Ht. cbn [replace_in_files tree]. now apply walk_replace_wf. Qed.

Lemma kw_rename old new : keeps_wf (rename old new).
Proof.
  intros t Ht. unfold rename.
  destruct (lookup old t) as [src|] eqn:Hl; [|exact Ht].
  pose proof (wf_lookup old t src Ht Hl) as Hsrc.
  assert (Hmove : wf (put new src (remove old t)) = true)
    by (apply wf_put; [now apply wf_remove | exact Hsrc]).
  destruct (path_eqb old new); [exact Ht|].
  destruct (is_prefix old new); [exact Ht|].
  destruct (negb (is_dir (parent new) t)); [exact Ht|].
  destruct new as [|x new]; [exact Ht|].
  destruct (lookup (x :: new) t) as [[text|[|e es]]|], src;
    first [exact Ht | exact Hmove].
Qed.

Lemma kw_execute_rename item : keeps_wf (execute_rename false item).
Proof.
  intros t Ht. unfold execute_rename.
  destruct (snd item) as [new|]; [|exact Ht]. rewrite bind_get_tree.
  destruct (exists_ (fst item) t); [|exact Ht].
  apply kw_bind; [apply kw_rename | intros _; apply kw_print | exact Ht].
Qed.

Lemma kw_rename_paths env names : keeps_wf (rename_paths env names false).
Proof.
  intros t Ht. unfold rename_paths. rewrite bind_get_tree.
  apply kw_for_each; [apply kw_execute_rename | exact Ht].
Qed.

Lemma kw_rewrite_literal p old new : keeps_wf (rewrite_literal p old new).
Proof.
  intros t Ht. unfold rewrite_literal, bind, read_text.
  destruct (lookup p t) as [[[text|]|es]|]; cbn; try exact Ht.
  now apply wf_put.
Qed.

Lemma kw_update_description names d : keeps_wf (update_description names d).
Proof.
  intros t Ht. unfold update_description. cbv zeta. rewrite bind_get_tree.
  destruct (exists_ ["pyproject.toml"] t); [|exact Ht].
  apply kw_bind; [apply kw_rewrite_literal | intros _; apply kw_print | exact Ht].
Qed.

Lemma kw_steps_before_port env args names :
  keeps_wf (steps_before_port env args names).
Proof.
  unfold steps_before_port.
  apply kw_bind; [apply kw_quiet, quiet_banner | intros _].
  apply kw_bind; [apply kw_for_each, kw_clean_one | intros _].
  apply kw_bind; [apply kw_for_each, kw_remove_one | intros _].
  apply kw_bind; [apply kw_replace_in_files | intros _].
  apply kw_bind; [apply kw_rename_paths | intros _].
  destruct (truthy (arg_description args)) as [d|];
    [apply kw_update_description | intros t Ht; exact Ht].
Qed.

(** ** The run around the override *)

Lemma missing_template_exits env args t :
  re_match (arg_name args) = true ->
  is_dir template_dir t = false ->
  ending (scaffold env args t) = Exited 1.
Proof.
  intros Hre Htpl. unfold scaffold, derive_names. rewrite Hre. cbn [negb].
  rewrite bind_lift_returned. cbv zeta. rewrite bind_get_tree, Htpl.
  reflexivity.
Qed.

Lemma after_port_run env t :
  ending (steps_after_port env t) = Returned tt ->
  steps_after_port env t =
  mkRun (ERemove [script_dir env; script_file env]
         :: EPrint "Removed: sbin/scaffold.py" :: trace (closing t))
        (Returned tt)
        (remove [script_dir env; script_file env] t).
Proof.
  unfold steps_after_port, self_delete. cbv zeta.
  rewrite !bind_assoc, bind_get_tree.
  destruct (lookup [script_dir env; script_file env] t) as [[text|es]|];
    [reflexivity | discriminate | discriminate].
Qed.

Lemma file_at_remove p q t :
  p <> [] -> is_prefix p q = false -> file_at q (remove p t) = file_at q t.
Proof.
  intros Hp Hq. now rewrite !file_at_view, (view_remove p q t Hp), Hq.
Qed.

Lemma in_trace_later {A B} (m : M A) (k : A -> M B) t b e :
  ending (bind m k t) = Returned b ->
  (forall a, ending (m t) = Returned a ->
             ending (k a (tree (m t))) = Returned b ->
             In e (trace (k a (tree (m t))))) ->
  In e (trace (bind m k t)).
Proof.
  intros H Hk. destruct (bind_returned_inv _ _ _ _ H) as [a [H1 [H2 _]]].
  rewrite (bind_returned _ _ _ _ H1). cbn [trace]. apply in_or_app. right.
  now apply Hk.
Qed.

(** An override that returns has printed its last line. *)
Lemma update_port_announced names port t :
  ending (update_port names port t) = Returned tt ->
  In (EPrint ("Updated port to " ++ Str.of_Z port))
     (trace (update_port names port t)).
Proof.
  intros H. unfold update_port in *. cbv zeta in *.
  do 6 (apply in_trace_later with (b := tt); [exact H|]; clear H; intros ? _ H).
  now left.
Qed.

(** C7 (as the code has it).  Take a real run that returns, on a tree
    with unique names, and the tree [before] the port override, which the
    banner, steps 1 to 5 and the description override have left.  With a
    port other than 1337 the override runs and prints its line, and in the
    tree after the run every readable [settings.py] of [before], the
    [Makefile] and the run script of the project have their literal
    replaced by the one with the new port (they hold the new literal if
    they held the old one, and are unchanged if they did not), while every
    other file of [before] keeps its text; the script itself, removed by
    the last step, is left aside.  With the port 1337 the override is not
    run: after the steps before it the run only removes the script and
    prints the closing lines. *)
Theorem port_override_rewrites_literals :
  forall (env : Env) (args : Args) (t : node),
    wf t = true ->
    arg_dry_run args = false ->
    ending (scaffold env args t) = Returned tt ->
    let names := final_names args in
    let port := arg_port args in
    let before := steps_before_port env args names t in
    let r := scaffold env args t in
    let script_path := [script_dir env; script_file env] in
    let run_script := ["sbin"; "run_" ++ snake_name names ++ ".sh"] in
    ending before = Returned tt /\
    (port <> DEFAULT_PORT ->
     In (EPrint ("Updated port to " ++ Str.of_Z port)) (trace r) /\
     (forall q text,
         last q EmptyString = "settings.py" ->
         is_prefix script_path q = false ->
         file_at q (tree before) = Some (Some text) ->
         exists text', file_at q (tree r) = Some (Some text') /\
           rewritten "default=1337" ("default=" ++ Str.of_Z port) text text') /\
     (forall text,
         file_at ["Makefile"] (tree before) = Some (Some text) ->
         exists text', file_at ["Makefile"] (tree r) = Some (Some text') /\
           rewritten "CHAINLIT_PORT = 1337"
                     ("CHAINLIT_PORT = " ++ Str.of_Z port) text text') /\
     (forall text,
         is_prefix script_path run_script = false ->
         file_at run_script (tree before) = Some (Some text) ->
         exists text', file_at run_script (tree r) = Some (Some text') /\
           rewritten "PORT:-1337" ("PORT:-" ++ Str.of_Z port) text text') /\
     (forall q c,
         file_at q (tree before) = Some c ->
         q <> ["Makefile"] -> last q EmptyString <> "settings.py" ->
         q <> run_script ->
         is_prefix script_path q = false ->
         file_at q (tree r) = Some c)) /\
    (port = DEFAULT_PORT ->
     trace r =
       (trace before ++
        ERemove script_path :: EPrint "Removed: sbin/scaffold.py"
        :: trace (closing t))%list /\
     tree r = remove script_path (tree before)).
Proof.
  intros env args t Hwf Hdry Hret names port before r script_path run_script.
  assert (Hre : re_match (arg_name args) = true).
  { destruct (re_match (arg_name args)) eqn:E; [reflexivity|].
    rewrite (invalid_name_exit env args t E) in Hret. discriminate Hret. }
  assert (Htpl : is_dir template_dir t = true).
  { destruct (is_dir template_dir t) eqn:E; [reflexivity|].
    rewrite (missing_template_exits env args t Hre E) in Hret.
    discriminate Hret. }
  assert (Hp : script_path <> []) by discriminate.
  subst r before. rewrite (scaffold_steps env args t Hdry Hre Htpl) in *.
  fold names port in Hret |- *.
  pose proof (kw_steps_before_port env args names t Hwf) as Hwf0.
  apply bind_returned_inv in Hret. destruct Hret as [[] [Hb [Hrest _]]].
  split; [exact Hb|].
  rewrite (bind_returned _ _ t tt Hb). cbn [trace tree].
  destruct (Z.eqb port DEFAULT_PORT) eqn:Hport; cbn [negb when] in *.
  - apply Z.eqb_eq in Hport. split; [intros Hne; contradiction|]. intros _.
    rewrite bind_ret in *. rewrite (after_port_run env _ Hrest).
    cbn [trace tree]. split; reflexivity.
  - apply Z.eqb_neq in Hport. split; [|intros E; contradiction]. intros _.
    apply bind_returned_inv in Hrest. destruct Hrest as [[] [Hq [Hafter _]]].
    rewrite (bind_returned _ _ _ tt Hq), (after_port_run env _ Hafter).
    cbn [trace tree].
    destruct (update_port_rewrites names port _ Hwf0 Hq)
      as [Hs [Hm [Hr Ho]]].
    split; [|split; [|split; [|split]]].
    + apply in_or_app. right. apply in_or_app. left.
      now apply update_port_announced.
    + intros q text Hlast Hsp Hf. rewrite (file_at_remove _ _ _ Hp Hsp).
      exact (Hs q text Hlast Hf).
    + intros text Hf. rewrite (file_at_remove _ _ _ Hp); [exact (Hm text Hf)|].
      unfold script_path. cbn [is_prefix]. apply andb_false_r.
    + intros text Hsp Hf. rewrite (file_at_remove _ _ _ Hp Hsp).
      exact (Hr text Hf).
    + intros q c Hf H1 H2 H3 Hsp. rewrite (file_at_remove _ _ _ Hp Hsp).
      exact (Ho q c Hf H1 H2 H3).
Qed.

Lemma port_override_rewrites_literals_witness :
  Str.of_Z 8080 = "8080" /\
  file_at ["Makefile"] sample_tree = Some (Some "CHAINLIT_PORT = 1337") /\
  exists text',
    file_at ["Makefile"]
      (tree (scaffold sample_env (sample_args false 8080) sample_tree)) =
      Some (Some text') /\
    rewritten "CHAINLIT_PORT = 1337" ("CHAINLIT_PORT = " ++ Str.of_Z 8080)
      "CHAINLIT_PORT = 1337" text'.
Proof.
  split; [reflexivity|]. split; [reflexivity|].
  refine (proj1 (proj2 (proj2 (proj1 (proj2
            (port_override_rewrites_literals sample_env
               (sample_args false 8080) sample_tree
               eq_refl eq_refl eq_refl)) _))) _ _).
  - discriminate.
  - reflexivity.
Defined.

(** With the default port the same run does not touch the port files. *)
Remark default_port_run_skips_the_override :
  let r := scaffold sample_env (sample_args false 1337) sample_tree in
  ending r = Returned tt /\
  existsb (fun e => match e with
                    | EPrint line => Str.contains "Updated port" line
                    | EWrite p _ => path_eqb p ["Makefile"]
                    | _ => false
                    end) (trace r) = false.
Proof. split; vm_compute; reflexivity. Qed.
